(** * mygeotab.api: a shallow embedding of the MyGeotab client

  The development follows [src/mygeotab/api.py].  Python values that
  travel through the client (keyword arguments, JSON documents,
  credentials fields) are an inductive type [value]; a Python [dict]
  is an association list in insertion order; the exceptions the client
  raises are the constructors of [exn]; the HTTP round trip of
  [_query] is an abstract [Transport] whose replies are arbitrary.

  Strings are Rocq strings, that is sequences of 8-bit characters: the
  model covers ASCII text, where [\w], [str.upper] and [str.lower]
  have their ASCII meaning. *)

From Stdlib Require Import String Ascii List ZArith Bool Lia Permutation.
Import ListNotations.

Local Open Scope string_scope.
Local Open Scope list_scope.

(** ** Characters and strings *)

Module Str.

Definition in_range (lo hi c : ascii) : bool :=
  (nat_of_ascii lo <=? nat_of_ascii c)%nat && (nat_of_ascii c <=? nat_of_ascii hi)%nat.

Definition is_lower (c : ascii) : bool := in_range "a" "z" c.
Definition is_upper (c : ascii) : bool := in_range "A" "Z" c.
Definition is_digit (c : ascii) : bool := in_range "0" "9" c.
Definition is_alpha (c : ascii) : bool := is_lower c || is_upper c.

(** [\w] of Python's [re] on ASCII text. *)
Definition is_word (c : ascii) : bool :=
  is_alpha c || is_digit c || Ascii.eqb c "_".

(** [c.upper()] and [c.lower()] on one character. *)
Definition upper (c : ascii) : ascii :=
  if is_lower c then ascii_of_nat (nat_of_ascii c - 32) else c.
Definition lower (c : ascii) : ascii :=
  if is_upper c then ascii_of_nat (nat_of_ascii c + 32) else c.

Fixpoint map (f : ascii -> ascii) (s : string) : string :=
  match s with
  | EmptyString => EmptyString
  | String c t => String (f c) (map f t)
  end.

(** [c in s] for a single character. *)
Fixpoint mem (c : ascii) (s : string) : bool :=
  match s with
  | EmptyString => false
  | String d t => Ascii.eqb c d || mem c t
  end.

Fixpoint all (p : ascii -> bool) (s : string) : bool :=
  match s with
  | EmptyString => true
  | String c t => p c && all p t
  end.

(** [break p s] cuts [s] in front of its first character that
    satisfies [p]: the text before it, and the rest starting there. *)
Fixpoint break (p : ascii -> bool) (s : string) : string * string :=
  match s with
  | EmptyString => (EmptyString, EmptyString)
  | String c t =>
      if p c then (EmptyString, s)
      else let '(a, b) := break p t in (String c a, b)
  end.

(** [s.startswith(p)]. *)
Fixpoint starts (p s : string) : bool :=
  match p, s with
  | EmptyString, _ => true
  | String _ _, EmptyString => false
  | String a p', String b s' => Ascii.eqb a b && starts p' s'
  end.

(** [s[n:]]. *)
Fixpoint drop (n : nat) (s : string) : string :=
  match n, s with
  | O, _ => s
  | S n', EmptyString => EmptyString
  | S n', String _ t => drop n' t
  end.

(** [sub in s] for strings. *)
Fixpoint contains (sub s : string) : bool :=
  match s with
  | EmptyString => starts sub EmptyString
  | String _ t => starts sub s || contains sub t
  end.

(** [s.replace(old, "")] for a one-character [old]. *)
Fixpoint remove (old : ascii) (s : string) : string :=
  match s with
  | EmptyString => EmptyString
  | String c t => if Ascii.eqb c old then remove old t else String c (remove old t)
  end.

End Str.

(** ** Python values, dictionaries, exceptions *)

Module Py.

#[warning="-register-all"] Inductive value : Type :=
| VNone
| VBool (b : bool)
| VInt (z : Z)
| VStr (s : string)
| VList (l : list value)
| VDict (d : list (string * value)).

(** A [dict] with string keys, in insertion order; a well-formed
    dictionary has no repeated key, see [valid_dict].  The operations on
    it are written for any type of values. *)
Definition dict : Type := list (string * value).

(** Truth value of an object, as tested by [if x:] and [not x]. *)
Definition truthy (v : value) : bool :=
  match v with
  | VNone => false
  | VBool b => b
  | VInt z => negb (Z.eqb z 0)
  | VStr s => negb (String.eqb s "")
  | VList l => match l with [] => false | _ => true end
  | VDict d => match d with [] => false | _ => true end
  end.

Definition is_none (v : value) : bool :=
  match v with VNone => true | _ => false end.

(** [v == s] and [v != s] against a string literal. *)
Definition eq_str (v : value) (s : string) : bool :=
  match v with VStr t => String.eqb t s | _ => false end.

Definition keys {V : Type} (d : list (string * V)) : list string := List.map fst d.

(** [d.get(k)]. *)
Fixpoint dict_get {V : Type} (k : string) (d : list (string * V)) : option V :=
  match d with
  | [] => None
  | (k', v) :: t => if String.eqb k k' then Some v else dict_get k t
  end.

(** [k in d]. *)
Definition dict_mem {V : Type} (k : string) (d : list (string * V)) : bool :=
  match dict_get k d with Some _ => true | None => false end.

(** [d[k] = v]: an existing key keeps its position, a new key goes
    last. *)
Fixpoint dict_set {V : Type} (k : string) (v : V) (d : list (string * V))
  : list (string * V) :=
  match d with
  | [] => [(k, v)]
  | (k', v') :: t =>
      if String.eqb k k' then (k', v) :: t else (k', v') :: dict_set k v t
  end.

(** [del d[k]], at the places of the source where [k] is present. *)
Definition dict_del {V : Type} (k : string) (d : list (string * V))
  : list (string * V) :=
  List.filter (fun kv => negb (String.eqb k (fst kv))) d.

(** [d.update(other)] for a mapping [other]. *)
Definition dict_update {V : Type} (d other : list (string * V))
  : list (string * V) :=
  List.fold_left (fun acc kv => dict_set (fst kv) (snd kv) acc) other d.

Definition valid_dict (d : dict) : Prop := NoDup (keys d).

(** The exceptions of [mygeotab.exceptions], and every other Python
    exception by the name of its class. *)
Inductive exn : Type :=
| MyGeotabException (full_error : value)
| AuthenticationException (username database server : value)
| TimeoutException (server : value)
| PyException (kind : string).

(** Modelled from the spec: [mygeotab/exceptions.py] is not part of the
    sources at hand.  A remote error is "{name: string (server-assigned
    error classification), message: string, ...}", "constructed
    transiently from the [error] field": its [name] and [message] are
    the entries of these names in the error payload. *)
Definition payload_field (field : string) (full_error : value) : value :=
  match full_error with
  | VDict d => match dict_get field d with Some v => v | None => VNone end
  | _ => VNone
  end.

Definition exn_name (e : exn) : value :=
  match e with
  | MyGeotabException full_error => payload_field "name" full_error
  | _ => VNone
  end.

Definition exn_message (e : exn) : value :=
  match e with
  | MyGeotabException full_error => payload_field "message" full_error
  | _ => VNone
  end.

(** What a Python call does: it returns, it raises, or (for the fuelled
    recursion of [API.call] only) the model ran out of fuel. *)
Inductive outcome (A : Type) : Type :=
| Return (a : A)
| Raise (e : exn)
| Diverge.
Arguments Return {A} a.
Arguments Raise {A} e.
Arguments Diverge {A}.

(** [v[k]] for a string subscript. *)
Definition subscript (v : value) (k : string) : outcome value :=
  match v with
  | VDict d =>
      match dict_get k d with
      | Some x => Return x
      | None => Raise (PyException "KeyError")
      end
  | _ => Raise (PyException "TypeError")
  end.

End Py.
Import Py.

(** ** URL resolution

    [urlparse] is the function of Python's standard library
    ([urllib.parse], reached through [six.moves]); it is modelled here
    as CPython 2.7 and 3.7 implement it, restricted to the components
    [get_api_url] reads. *)

Module Url.

Record ParseResult : Type := mkParseResult
  { scheme : string; netloc : string; path : string }.

(** [scheme_chars]: letters, digits and "+-.". *)
Definition scheme_char (c : ascii) : bool :=
  Str.is_alpha c || Str.is_digit c || Str.mem c "+-.".

Definition netloc_delim (c : ascii) : bool := Str.mem c "/?#".

Definition uses_params : list string :=
  [""; "ftp"; "hdl"; "prospero"; "http"; "imap"; "https"; "shttp"; "rtsp";
   "rtspu"; "sip"; "sips"; "mms"; "sftp"; "tel"].

(** The scheme and the remaining text.  [i = url.find(':')]; with
    [i > 0] the text before the colon is a scheme when it is "http", or
    when it is made of scheme characters and what follows is not a port
    number. *)
Definition split_scheme (url : string) : string * string :=
  match Str.break (Ascii.eqb ":") url with
  | (before, String _ rest) =>
      if String.eqb before "" then ("", url)
      else if String.eqb before "http" then ("http", rest)
      else if Str.all scheme_char before then
        if String.eqb rest "" || negb (Str.all Str.is_digit rest)
        then (Str.map Str.lower before, rest)
        else ("", url)
      else ("", url)
  | (_, EmptyString) => ("", url)
  end.

(** [_splitnetloc(url, 2)] when [url[:2] == '//']. *)
Definition split_netloc (url : string) : string * string :=
  if Str.starts "//" url then Str.break netloc_delim (Str.drop 2 url)
  else ("", url).

Definition unbalanced_brackets (netloc : string) : bool :=
  (Str.mem "[" netloc && negb (Str.mem "]" netloc))
  || (Str.mem "]" netloc && negb (Str.mem "[" netloc)).

(** [url.find(';', url.rfind('/'))] and the cut there: the path keeps
    everything up to the first ';' that follows its last '/'. *)
Fixpoint split_params (url : string) : string :=
  match url with
  | EmptyString => EmptyString
  | String c t =>
      if Str.mem "/" t then String c (split_params t)
      else if Ascii.eqb c ";" then EmptyString
      else String c (split_params t)
  end.

Definition urlparse (url : string) : outcome ParseResult :=
  let '(scheme, url) := split_scheme url in
  let '(netloc, url) := split_netloc url in
  if unbalanced_brackets netloc then Raise (PyException "ValueError")
  else
    let url := fst (Str.break (Ascii.eqb "#") url) in
    let url := fst (Str.break (Ascii.eqb "?") url) in
    let url :=
      if existsb (String.eqb scheme) uses_params && Str.mem ";" url
      then split_params url else url in
    Return (mkParseResult scheme netloc url).

(** [get_api_url(server)].  The statement [base_url.replace("/", "")]
    computes a string and drops it: [base_url] is what it was.  A
    server that is no text does not get through: [urlparse] of
    Python 3 asks a non-empty one to decode itself, which raises
    [AttributeError], and reads an empty one as empty bytes, on which
    [replace] with text arguments raises [TypeError]. *)
Definition get_api_url (server : value) : outcome string :=
  match server with
  | VStr server =>
      match urlparse server with
      | Return parsed =>
          let base_url :=
            if negb (String.eqb (netloc parsed) "") then netloc parsed
            else path parsed in
          let _ := Str.remove "/" base_url in
          Return ("https://" ++ base_url ++ "/apiv1")%string
      | Raise e => Raise e
      | Diverge => Diverge
      end
  | _ =>
      if truthy server then Raise (PyException "AttributeError")
      else Raise (PyException "TypeError")
  end.

End Url.
Import Url.

(** ** Parameter normalisation *)

(** [re.sub(r"_(\w)", lambda m: m.group(1).upper(), param_name)]: the
    matches are found left to right and do not overlap. *)
Fixpoint camel (s : string) : string :=
  match s with
  | EmptyString => EmptyString
  | String c t =>
      match t with
      | EmptyString => String c EmptyString
      | String d u =>
          if Ascii.eqb c "_" && Str.is_word d
          then String (Str.upper d) (camel u)
          else String c (camel t)
      end
  end.

(** One round of the loop of [process_parameters]: [params] is the
    copy being rewritten, [(param_name, value)] an entry of the
    argument, [recur] the recursive call on a nested mapping. *)
Definition process_entry (recur : value -> value) (params : dict)
  (entry : string * value) : dict :=
  let '(param_name, value) := entry in
  let server_param_name := camel param_name in
  let value := match value with VDict _ => recur value | _ => value end in
  let params := dict_set server_param_name value params in
  if String.eqb server_param_name param_name then params
  else dict_del param_name params.

(** [process_parameters] on a value that is a mapping, so that the
    recursion is structural; every other value is left as it is. *)
Fixpoint process_value (v : value) : value :=
  match v with
  | VDict parameters =>
      VDict
        match parameters with
        | [] => []
        | _ => List.fold_left (process_entry process_value) parameters parameters
        end
  | _ => v
  end.

(** [process_parameters(parameters)], [None] being an absent mapping. *)
Definition process_parameters (parameters : option dict) : dict :=
  match parameters with
  | None => []
  | Some parameters =>
      match process_value (VDict parameters) with
      | VDict params => params
      | _ => []
      end
  end.

(** ** Parameter normalisation on the object store

    [process_parameters] once more, with the dictionaries as the
    objects they are: a store of dict objects addressed by position, in
    which a value is a reference to a dict object or anything else.
    [copy.copy] allocates the new object, the assignments and [del] of
    the loop write to it in place, the recursive call receives the
    address of the nested object, and the argument is read from the
    store at every round. *)

Module Store.

Inductive slot : Type :=
| Ref (address : nat)
| Atom (v : value).

Definition object : Type := list (string * slot).
Definition store : Type := list object.

Definition alloc (h : store) (o : object) : store * nat :=
  (h ++ [o], List.length h).

(** The object at [address] becomes [f] of itself. *)
Fixpoint modify (address : nat) (f : object -> object) (h : store) : store :=
  match h, address with
  | [], _ => []
  | o :: t, O => f o :: t
  | o :: t, S a => o :: modify a f t
  end.

(** One round of the loop for the key [param_name]: [parameters] and
    [params] are the addresses of the argument and of the copy, [recur]
    is the recursive call.  [None] stands for an exception or for the
    fuel running out. *)
Definition round (recur : store -> nat -> store * option nat)
  (parameters params : nat) (h : store) (param_name : string)
  : store * option unit :=
  match nth_error h parameters with
  | None => (h, None)
  | Some current =>
      match dict_get param_name current with
      | None => (h, None)
      | Some value =>
          let server_param_name := camel param_name in
          let '(h, value) :=
            match value with
            | Ref nested =>
                let '(h, r) := recur h nested in (h, option_map Ref r)
            | Atom _ => (h, Some value)
            end in
          match value with
          | None => (h, None)
          | Some value =>
              let h := modify params (dict_set server_param_name value) h in
              let h :=
                if String.eqb server_param_name param_name then h
                else modify params (dict_del param_name) h in
              (h, Some tt)
          end
      end
  end.

Fixpoint rounds (recur : store -> nat -> store * option nat)
  (parameters params : nat) (names : list string) (h : store)
  : store * option unit :=
  match names with
  | [] => (h, Some tt)
  | param_name :: rest =>
      match round recur parameters params h param_name with
      | (h, Some _) => rounds recur parameters params rest h
      | (h, None) => (h, None)
      end
  end.

Fixpoint process_parameters (fuel : nat) (h : store) (parameters : nat)
  : store * option nat :=
  match fuel with
  | O => (h, None)
  | S fuel =>
      match nth_error h parameters with
      | None => (h, None)
      | Some [] => let '(h, r) := alloc h [] in (h, Some r)
      | Some entries =>
          let '(h, params) := alloc h entries in
          match rounds (process_parameters fuel) parameters params (keys entries) h with
          | (h, Some _) => (h, Some params)
          | (h, None) => (h, None)
          end
      end
  end.

(** The mapping a store holds at an address, read down to [depth]
    levels of nesting. *)
Definition read_slot (read : nat -> option dict) (entry : string * slot)
  : option (string * value) :=
  match snd entry with
  | Atom (VDict _) => None
  | Atom v => Some (fst entry, v)
  | Ref a => option_map (fun d => (fst entry, VDict d)) (read a)
  end.

Fixpoint read_object (read : nat -> option dict) (o : object) : option dict :=
  match o with
  | [] => Some []
  | entry :: t =>
      match read_slot read entry, read_object read t with
      | Some kv, Some d => Some (kv :: d)
      | _, _ => None
      end
  end.

Fixpoint read (depth : nat) (h : store) (address : nat) : option dict :=
  match depth with
  | O => None
  | S depth =>
      match nth_error h address with
      | None => None
      | Some o => read_object (read depth h) o
      end
  end.

End Store.

(** ** Response processing *)

(** [key in data] for the kinds of object a decoded document can be;
    [None] where Python raises [TypeError]. *)
Definition py_in (key : string) (data : value) : option bool :=
  match data with
  | VDict d => Some (dict_mem key d)
  | VList l => Some (existsb (fun x => eq_str x key) l)
  | VStr s => Some (Str.contains key s)
  | _ => None
  end.

Definition _process (data : value) : outcome value :=
  if truthy data then
    match py_in "error" data with
    | None => Raise (PyException "TypeError")
    | Some true =>
        match subscript data "error" with
        | Return e => Raise (MyGeotabException e)
        | other => other
        end
    | Some false =>
        match py_in "result" data with
        | None => Raise (PyException "TypeError")
        | Some true => subscript data "result"
        | Some false => Return data
        end
    end
  else Return data.

(** ** The client *)

(** What one HTTP POST of [_query] can come to: the request times out,
    fails otherwise (connection, TLS, [raise_for_status], undecodable
    body), answers with a body that is not JSON, or answers with a JSON
    document, here already decoded. *)
Inductive http_reply : Type :=
| HttpTimeout
| HttpError (kind : string)
| HttpText (text : string)
| HttpJson (doc : value).

(** The remote side: [post url envelope timeout verify_ssl] on a state
    of the world gives the reply and the next state. *)
Class Transport : Type := mkTransport
  { World : Type;
    post : string -> value -> value -> bool -> World -> http_reply * World }.

Record Credentials : Type := mkCredentials
  { username : value;
    session_id : value;
    database : value;
    server : value;
    password : value }.

(** [Credentials.__init__], whose [password] defaults to [None]. *)
Definition Credentials_init (username session_id database server : value)
  (password : option value) : Credentials :=
  mkCredentials username session_id database server
    (match password with Some p => p | None => VNone end).

Definition get_param (c : Credentials) : value :=
  VDict [("userName", username c); ("sessionId", session_id c);
         ("database", database c)].

Record API : Type := mkAPI
  { credentials : Credentials;
    timeout : value;
    reauthorize_count : Z }.

Definition DEFAULT_TIMEOUT : value := VInt 300.

(** [API.__init__]. *)
Definition API_init (username password database session_id server timeout : value)
  : outcome API :=
  if is_none username then Raise (PyException "Exception")
  else if is_none password && is_none session_id then Raise (PyException "Exception")
  else Return (mkAPI (Credentials_init username session_id database server (Some password))
                 timeout 0).

(** The observable steps of a run, in the order they happen: [API.call]
    is entered, [API.authenticate] is entered, [_query] posts a request
    and receives a reply. *)
Inductive event : Type :=
| EvCall (method : value) (parameters : dict)
| EvAuthenticate
| EvQuery (url : string) (envelope : value) (verify_ssl : bool) (reply : http_reply).

(** The result list of [API.get]. *)
Record EntityList : Type := mkEntityList
  { data : list value; type_name : value }.

Section Client.

Context {T : Transport}.

Record State : Type := mkState
  { api : API; world : World; trace : list event }.

(** Computations of the client: they read and update the [API] object,
    talk to the world, and return or raise. *)
Definition M (A : Type) : Type := State -> outcome A * State.

Definition ret {A} (a : A) : M A := fun st => (Return a, st).
Definition raise {A} (e : exn) : M A := fun st => (Raise e, st).
Definition diverge {A} : M A := fun st => (Diverge, st).

Definition bind {A B} (m : M A) (k : A -> M B) : M B :=
  fun st =>
    match m st with
    | (Return a, st') => k a st'
    | (Raise e, st') => (Raise e, st')
    | (Diverge, st') => (Diverge, st')
    end.

(** [try: m  except ...: handler]; the handler sees the state the
    exception left behind. *)
Definition catch {A} (m : M A) (handler : exn -> M A) : M A :=
  fun st =>
    match m st with
    | (Raise e, st') => handler e st'
    | r => r
    end.

Definition lift {A} (o : outcome A) : M A := fun st => (o, st).

Definition log (ev : event) : M unit :=
  fun st => (Return tt, mkState (api st) (world st) (trace st ++ [ev])).

Definition get_credentials : M Credentials :=
  fun st => (Return (credentials (api st)), st).

Definition set_credentials (c : Credentials) : M unit :=
  fun st =>
    (Return tt,
     mkState (mkAPI c (timeout (api st)) (reauthorize_count (api st)))
       (world st) (trace st)).

Definition get_timeout : M value := fun st => (Return (timeout (api st)), st).

Definition get_count : M Z := fun st => (Return (reauthorize_count (api st)), st).

Definition set_count (n : Z) : M unit :=
  fun st =>
    (Return tt,
     mkState (mkAPI (credentials (api st)) (timeout (api st)) n)
       (world st) (trace st)).

Definition do_post (url : string) (envelope timeout : value) (verify_ssl : bool)
  : M http_reply :=
  fun st =>
    let '(reply, w) := post url envelope timeout verify_ssl (world st) in
    (Return reply,
     mkState (api st) w (trace st ++ [EvQuery url envelope verify_ssl reply])).

End Client.

Notation "x <- m ;; k" := (bind m (fun x => k))
  (at level 61, m at next level, right associativity).
Notation "m ;;; k" := (bind m (fun _ => k))
  (at level 61, right associativity).

Section Orchestrator.

Context {T : Transport}.

(** The property [API._server]. *)
Definition _server : M value :=
  c <- get_credentials ;;
  if truthy (server c) then ret (server c)
  else
    set_credentials
      (mkCredentials (username c) (session_id c) (database c)
         (VStr "my.geotab.com") (password c)) ;;;
    ret (VStr "my.geotab.com").

(** The property [API._is_verify_ssl]. *)
Definition _is_verify_ssl : M bool :=
  s <- _server ;;
  url <- lift (get_api_url s) ;;
  ret (negb (existsb (fun marker => Str.contains marker url)
               ["127.0.0.1"; "localhost"])).

Definition _query (server method : value) (parameters : dict)
  (timeout : value) (verify_ssl : bool) : M value :=
  api_endpoint <- lift (get_api_url server) ;;
  let params :=
    VDict [("id", VInt (-1)); ("method", method); ("params", VDict parameters)] in
  reply <- do_post api_endpoint params timeout verify_ssl ;;
  match reply with
  | HttpTimeout => raise (TimeoutException server)
  | HttpError kind => raise (PyException kind)
  | HttpText text => ret (VStr text)
  | HttpJson doc => lift (_process doc)
  end.

(** [_query(self._server, method, params, self.timeout,
    verify_ssl=self._is_verify_ssl)], the form both [call] and
    [authenticate] use. *)
Definition query_self (method : value) (params : dict) : M value :=
  s <- _server ;;
  t <- get_timeout ;;
  v <- _is_verify_ssl ;;
  _query s method params t v.

Definition authentication_failure {A : Type} : M A :=
  c <- get_credentials ;;
  raise (AuthenticationException (username c) (database c) (server c)).

(** [API.authenticate(is_global)]; [None] is the implicit return of a
    falsy result. *)
Definition authenticate (is_global : bool) : M (option Credentials) :=
  log EvAuthenticate ;;;
  c <- get_credentials ;;
  let auth_data :=
    [("database", database c); ("userName", username c);
     ("password", password c); ("global", VBool is_global)] in
  catch
    (result <- query_self (VStr "Authenticate") auth_data ;;
     if truthy result then
       new_server <- lift (subscript result "path") ;;
       c <- get_credentials ;;
       let server :=
         if negb (eq_str new_server "ThisServer") then new_server else server c in
       credentials <- lift (subscript result "credentials") ;;
       user_name <- lift (subscript credentials "userName") ;;
       session <- lift (subscript credentials "sessionId") ;;
       db <- lift (subscript credentials "database") ;;
       let c' := Credentials_init user_name session db server None in
       set_credentials c' ;;;
       ret (Some c')
     else ret None)
    (fun exception =>
       match exception with
       | MyGeotabException _ =>
           if eq_str (exn_name exception) "InvalidUserException"
           then authentication_failure
           else raise exception
       | _ => raise exception
       end).

(** The body of [API.call(method, **parameters)]; [self_call] is
    [self.call], the call the method makes to itself for the retry. *)
Definition call_body (self_call : value -> dict -> M value)
  (method : value) (parameters : dict) : M value :=
  log (EvCall method parameters) ;;;
  if is_none method then raise (PyException "Exception")
  else
    let params := process_parameters (Some parameters) in
    c <- get_credentials ;;
    (if negb (truthy (session_id c))
     then authenticate true ;;; ret tt
     else ret tt) ;;;
    c <- get_credentials ;;
    let params :=
      if negb (dict_mem "credentials" params) && truthy (session_id c)
      then dict_set "credentials" (get_param c) params
      else params in
    catch
      (result <- query_self method params ;;
       (if negb (is_none result) then set_count 0 else ret tt) ;;;
       ret result)
      (fun exception =>
         match exception with
         | MyGeotabException _ =>
             if eq_str (exn_name exception) "InvalidUserException"
             then
               n <- get_count ;;
               c <- get_credentials ;;
               if Z.eqb n 0 && truthy (password c)
               then
                 set_count (n + 1) ;;;
                 authenticate true ;;;
                 self_call method parameters
               else authentication_failure
             else raise exception
         | _ => raise exception
         end).

(** [API.call], its recursion counted down by [fuel]. *)
Fixpoint call_fuel (fuel : nat) : value -> dict -> M value :=
  match fuel with
  | O => fun _ _ => diverge
  | S fuel => call_body (call_fuel fuel)
  end.

(** One retry is all the counter allows, see [call_fuel_enough]. *)
Definition call (method : value) (parameters : dict) : M value :=
  call_fuel 2 method parameters.

(** The comprehension of [multi_call]: [call[0]] and [call[1] if
    len(call) > 1 else {}] for each tuple, in order. *)
Fixpoint format_calls (calls : list (list value)) : outcome (list value) :=
  match calls with
  | [] => Return []
  | c :: rest =>
      match c with
      | [] => Raise (PyException "IndexError")
      | method :: tail =>
          let params := match tail with p :: _ => p | [] => VDict [] end in
          match format_calls rest with
          | Return formatted =>
              Return (VDict [("method", method); ("params", params)] :: formatted)
          | other => other
          end
      end
  end.

Definition multi_call (calls : list (list value)) : M value :=
  formatted_calls <- lift (format_calls calls) ;;
  call (VStr "ExecuteMultiCall") [("calls", VList formatted_calls)].

(** One element of a sequence given to [dict.update]: it has to be
    iterable ([TypeError] otherwise) and to have two items
    ([ValueError] otherwise), the key and the value; iterating a text
    gives its characters, iterating a mapping its keys.  The mappings
    of the model have strings as keys: a key that Python cannot hash (a
    list, a mapping) raises [TypeError], and a key that is a number, a
    truth value or [None], which the mappings of the model cannot hold,
    is refused in the same way. *)
Definition update_pair (item : value) : outcome (string * value) :=
  match item with
  | VList [VStr k; v] => Return (k, v)
  | VList [_; _] => Raise (PyException "TypeError")
  | VList _ => Raise (PyException "ValueError")
  | VStr (String a (String b EmptyString)) =>
      Return (String a EmptyString, VStr (String b EmptyString))
  | VStr _ => Raise (PyException "ValueError")
  | VDict [(k1, _); (k2, _)] => Return (k1, VStr k2)
  | VDict _ => Raise (PyException "ValueError")
  | _ => Raise (PyException "TypeError")
  end.

Fixpoint update_pairs (parameters : dict) (items : list value) : outcome dict :=
  match items with
  | [] => Return parameters
  | item :: rest =>
      match update_pair item with
      | Return (k, v) => update_pairs (dict_set k v parameters) rest
      | Raise e => Raise e
      | Diverge => Diverge
      end
  end.

(** [parameters.update(other)] as [get] uses it: a mapping is merged; a
    list is read as a sequence of key and value pairs; a text is a
    sequence of characters, none of which is a pair; and what cannot be
    iterated raises. *)
Definition update_with (parameters : dict) (other : value) : outcome dict :=
  match other with
  | VDict d => Return (dict_update parameters d)
  | VList items => update_pairs parameters items
  | VStr EmptyString => Return parameters
  | VStr _ => Raise (PyException "ValueError")
  | _ => Raise (PyException "TypeError")
  end.

(** The keyword arguments [API.get] hands to [call]. *)
Definition get_parameters (type_name : value) (parameters : dict) : outcome dict :=
  match parameters with
  | [] => Return [("type_name", type_name)]
  | _ =>
      let results_limit :=
        match dict_get "resultsLimit" parameters with
        | Some v => v
        | None => VNone
        end in
      let parameters :=
        if negb (is_none results_limit) then dict_del "resultsLimit" parameters
        else parameters in
      match
        (match dict_get "search" parameters with
         | Some s => update_with parameters s
         | None => Return parameters
         end)
      with
      | Return parameters =>
          Return [("type_name", type_name); ("search", VDict parameters);
                  ("resultsLimit", results_limit)]
      | other => other
      end
  end.

(** [UserList.__init__(data)]. *)
Definition entity_data (initlist : value) : outcome (list value) :=
  match initlist with
  | VNone => Return []
  | VList l => Return l
  | VDict d => Return (List.map VStr (keys d))
  | VStr s => Return (List.map (fun c => VStr (String c EmptyString)) (list_ascii_of_string s))
  | _ => Raise (PyException "TypeError")
  end.

Definition get (type_name : value) (parameters : dict) : M EntityList :=
  kwargs <- lift (get_parameters type_name parameters) ;;
  result <- call (VStr "Get") kwargs ;;
  items <- lift (entity_data result) ;;
  ret (mkEntityList items type_name).

Definition add (type_name entity : value) : M value :=
  call (VStr "Add") [("type_name", type_name); ("entity", entity)].

Definition set (type_name entity : value) : M value :=
  call (VStr "Set") [("type_name", type_name); ("entity", entity)].

Definition remove (type_name entity : value) : M value :=
  call (VStr "Remove") [("type_name", type_name); ("entity", entity)].

End Orchestrator.

(** ** The rest of the module *)

(** [API.from_credentials(credentials)]. *)
Definition from_credentials (c : Credentials) : outcome API :=
  API_init (username c) (password c) (database c) (session_id c) (server c)
    DEFAULT_TIMEOUT.

Section Unauthenticated.

Context {T : Transport}.

(** [server_call(method, server, timeout, verify_ssl, **parameters)]. *)
Definition server_call (method server timeout : value) (verify_ssl : bool)
  (parameters : dict) : M value :=
  if is_none method then raise (PyException "Exception")
  else if is_none server then raise (PyException "Exception")
  else
    let parameters := process_parameters (Some parameters) in
    _query server method parameters timeout verify_ssl.

End Unauthenticated.

(** *** [EntityList] *)

(** [data[i]] for an integer [i]: a negative index counts from the
    end, and an index outside the list raises [IndexError]. *)
Definition list_index (l : list value) (i : Z) : outcome value :=
  let n := Z.of_nat (List.length l) in
  let j := if Z.ltb i 0 then (i + n)%Z else i in
  if Z.leb 0 j && Z.ltb j n then
    match nth_error l (Z.to_nat j) with
    | Some x => Return x
    | None => Raise (PyException "IndexError")
    end
  else Raise (PyException "IndexError").

(** [data[i:j]] for bounds that are not negative. *)
Definition list_slice (l : list value) (i j : Z) : list value :=
  List.firstn (Z.to_nat (j - i)) (List.skipn (Z.to_nat i) l).

(** The bound of a slice object, as [slice.indices] reads it for a step
    of 1: [None] is the default, a negative bound counts from the end,
    and the result is kept between 0 and the length. *)
Definition slice_bound (len : Z) (bound : option Z) (default : Z) : Z :=
  match bound with
  | None => default
  | Some b =>
      let b := if Z.ltb b 0 then (b + len)%Z else b in
      if Z.ltb b 0 then 0%Z else if Z.ltb len b then len else b
  end.

(** What [EntityList.__getitem__] is given: an integer, or a slice
    object [start:stop] without step. *)
Inductive subscript_key : Type :=
| Index (i : Z)
| Slice (start stop : option Z).

Inductive item : Type :=
| Element (v : value)
| Entities (e : EntityList).

Definition getitem (e : EntityList) (i : subscript_key) : outcome item :=
  match i with
  | Slice start stop =>
      let len := Z.of_nat (List.length (data e)) in
      Return (Entities
                (mkEntityList
                   (list_slice (data e) (slice_bound len start 0)
                      (slice_bound len stop len))
                   (type_name e)))
  | Index i =>
      match list_index (data e) i with
      | Return v => Return (Element v)
      | Raise x => Raise x
      | Diverge => Diverge
      end
  end.

(** [EntityList.__getslice__(i, j)]. *)
Definition getslice (e : EntityList) (i j : Z) : EntityList :=
  let i := Z.max i 0 in
  let j := Z.max j 0 in
  mkEntityList (list_slice (data e) i j) (type_name e).

(** [list(other)] for the values of the model. *)
Definition py_list (other : value) : outcome (list value) :=
  match other with
  | VList l => Return l
  | VDict d => Return (List.map VStr (keys d))
  | VStr s =>
      Return (List.map (fun c => VStr (String c EmptyString)) (list_ascii_of_string s))
  | _ => Raise (PyException "TypeError")
  end.

(** The other operand of [+]: a [UserList], or any other object. *)
Inductive operand : Type :=
| OUserList (e : EntityList)
| OValue (v : value).

Definition operand_data (other : operand) : outcome (list value) :=
  match other with
  | OUserList e => Return (data e)
  | OValue v => py_list v
  end.

(** [EntityList.__add__(other)] and [EntityList.__radd__(other)]. *)
Definition entity_add (e : EntityList) (other : operand) : outcome EntityList :=
  match operand_data other with
  | Return l => Return (mkEntityList (data e ++ l) (type_name e))
  | Raise x => Raise x
  | Diverge => Diverge
  end.

Definition entity_radd (e : EntityList) (other : operand) : outcome EntityList :=
  match operand_data other with
  | Return l => Return (mkEntityList (l ++ data e) (type_name e))
  | Raise x => Raise x
  | Diverge => Diverge
  end.

(** [data * n]. *)
Fixpoint list_repeat (l : list value) (n : nat) : list value :=
  match n with
  | O => []
  | S n => l ++ list_repeat l n
  end.

(** [EntityList.__mul__(n)] for an integer [n]. *)
Definition entity_mul (e : EntityList) (n : Z) : EntityList :=
  mkEntityList (list_repeat (data e) (Z.to_nat n)) (type_name e).

(** The properties [first], [last] and [entity]. *)
Definition first (e : EntityList) : value :=
  match data e with
  | [] => VNone
  | x :: _ => x
  end.

Definition last (e : EntityList) : outcome value :=
  match data e with
  | [] => Return VNone
  | _ => list_index (data e) (-1)
  end.

Definition entity (e : EntityList) : outcome value :=
  if Nat.eqb (List.length (data e)) 1 then Return (first e)
  else Raise (PyException "AssertionError").

(** A world that plays a fixed list of replies, one per request, and
    refuses the connection once the list is used up. *)
Definition scripted : Transport :=
  mkTransport (list http_reply)
    (fun _ _ _ _ w =>
       match w with
       | [] => (HttpError "ConnectionError", [])
       | reply :: rest => (reply, rest)
       end).

(** ** Vocabulary of the statements *)

(** A text occurs in a string when the string is some prefix, the
    text, and some suffix. *)
Definition occurs (sub s : string) : Prop :=
  exists before after, s = (before ++ sub ++ after)%string.

(** A bare host: a non-empty server string of printable ASCII
    characters (from "!" to "~") without any of those that delimit the
    parts of a URL. *)
Definition bare_char (c : ascii) : bool :=
  Str.in_range "!" "~" c && negb (Str.mem c ":/?#;[]").

Definition bare_host (s : string) : Prop :=
  s <> EmptyString /\ Str.all bare_char s = true.

Definition canonical (host : string) : string :=
  ("https://" ++ host ++ "/apiv1")%string.

(** A key in snake case: each underscore is followed by a letter or a
    digit. *)
Fixpoint snake (s : string) : bool :=
  match s with
  | EmptyString => true
  | String c t =>
      if Ascii.eqb c "_" then
        match t with
        | EmptyString => false
        | String d u => (Str.is_alpha d || Str.is_digit d) && snake u
        end
      else snake t
  end.

(** A mapping can be converted without loss when its keys are in snake
    case and stay distinct once converted. *)
Definition convertible (d : dict) : Prop :=
  Forall (fun k => snake k = true) (keys d) /\ NoDup (List.map camel (keys d)).

(** No key has an underscore, in the mapping and in the mappings nested
    as its values. *)
Fixpoint plain (v : value) : bool :=
  match v with
  | VDict d => forallb (fun kv => negb (Str.mem "_" (fst kv)) && plain (snd kv)) d
  | _ => true
  end.

(** No key is repeated, in the mapping and in the mappings nested as
    its values. *)
Fixpoint valid (v : value) : Prop :=
  match v with
  | VDict d =>
      valid_dict d
      /\ (fix each (l : dict) : Prop :=
            match l with
            | [] => True
            | kv :: t => valid (snd kv) /\ each t
            end) d
  | _ => True
  end.

(** The observable steps, counted. *)
Definition is_call (ev : event) : bool :=
  match ev with EvCall _ _ => true | _ => false end.

Definition is_authenticate (ev : event) : bool :=
  match ev with EvAuthenticate => true | _ => false end.

Definition calls (tr : list event) : nat := List.length (List.filter is_call tr).

Definition authentications (tr : list event) : nat :=
  List.length (List.filter is_authenticate tr).

(** A remote error classified "InvalidUserException", as the handlers
    of [call] and [authenticate] test it, and a reply that makes
    [_query] raise one. *)
Definition invalid_user_exn (e : exn) : bool :=
  match e with
  | MyGeotabException _ => eq_str (exn_name e) "InvalidUserException"
  | _ => false
  end.

Definition invalid_user (reply : http_reply) : bool :=
  match reply with
  | HttpJson doc =>
      match _process doc with
      | Raise e => invalid_user_exn e
      | _ => false
      end
  | _ => false
  end.

Definition is_failure (ev : event) : bool :=
  match ev with
  | EvQuery _ _ _ reply => invalid_user reply
  | _ => false
  end.

(** The error [call] and [authenticate] raise for credentials [c]: it
    is made of the user name, the database and the server. *)
Definition authentication_error (c : Credentials) : exn :=
  AuthenticationException (username c) (database c) (server c).

(** What [_query] makes of a reply. *)
Definition reply_outcome (server : value) (reply : http_reply) : outcome value :=
  match reply with
  | HttpTimeout => Raise (TimeoutException server)
  | HttpError kind => Raise (PyException kind)
  | HttpText text => Return (VStr text)
  | HttpJson doc => _process doc
  end.

Definition envelope (method : value) (parameters : dict) : value :=
  VDict [("id", VInt (-1)); ("method", method); ("params", VDict parameters)].

Definition verify_of (url : string) : bool :=
  negb (existsb (fun marker => Str.contains marker url) ["127.0.0.1"; "localhost"]).

(** The credentials once [_server] has been read: an absent server has
    become the default one. *)
Definition default_server (c : Credentials) : Credentials :=
  if truthy (server c) then c
  else mkCredentials (username c) (session_id c) (database c)
         (VStr "my.geotab.com") (password c).

(** The credentials [authenticate] builds from a result of the
    "Authenticate" method, [current] being the server it is talking
    to. *)
Definition decode_credentials (result current : value) : outcome Credentials :=
  match subscript result "path" with
  | Return new_server =>
      match subscript result "credentials" with
      | Return credentials =>
          match subscript credentials "userName" with
          | Return user_name =>
              match subscript credentials "sessionId" with
              | Return session =>
                  match subscript credentials "database" with
                  | Return db =>
                      Return
                        (Credentials_init user_name session db
                           (if negb (eq_str new_server "ThisServer")
                            then new_server else current)
                           None)
                  | Raise e => Raise e
                  | Diverge => Diverge
                  end
              | Raise e => Raise e
              | Diverge => Diverge
              end
          | Raise e => Raise e
          | Diverge => Diverge
          end
      | Raise e => Raise e
      | Diverge => Diverge
      end
  | Raise e => Raise e
  | Diverge => Diverge
  end.

Definition auth_data (is_global : bool) (c : Credentials) : dict :=
  [("database", database c); ("userName", username c);
   ("password", password c); ("global", VBool is_global)].

(** The parameters [call] sends: the normalised ones, with the session
    credentials unless the caller gave some or there is no session. *)
Definition wire_params (parameters : dict) (c : Credentials) : dict :=
  let params := process_parameters (Some parameters) in
  if negb (dict_mem "credentials" params) && truthy (session_id c)
  then dict_set "credentials" (get_param c) params
  else params.

Definition is_query (ev : event) : bool :=
  match ev with EvQuery _ _ _ _ => true | _ => false end.

(** [after_each P Q tr]: whenever an event of [tr] satisfies [P], the
    events that follow it satisfy [Q]. *)
Fixpoint after_each (P : event -> bool) (Q : list event -> Prop)
  (tr : list event) : Prop :=
  match tr with
  | [] => True
  | ev :: rest => (P ev = true -> Q rest) /\ after_each P Q rest
  end.

(** Every entry of [call] in the trace is the call of [method] with
    [parameters]. *)
Definition same_call (method : value) (parameters : dict) (tr : list event) : Prop :=
  Forall (fun ev => is_call ev = true -> ev = EvCall method parameters) tr.

(** The entry [multi_call] makes for a call tuple: its first component
    as the method, its second as the parameters, an empty mapping when
    there is no second. *)
Definition format_call (c : list value) : value :=
  VDict [("method", List.nth 0 c VNone);
         ("params", match c with _ :: params :: _ => params | _ => VDict [] end)].

(** A store grows from [h] when nothing that was in [h] has changed. *)
Definition extends (h h' : Store.store) : Prop := exists ext, h' = h ++ ext.

Definition agree_from (b : nat) (h h2 : Store.store) : Prop :=
  forall c, (b <= c)%nat -> (c < List.length h)%nat -> nth_error h2 c = nth_error h c.

(** The mapping read at [b] depends on the objects from [b] on only. *)
Definition range_stable (m : nat) (h : Store.store) (b : nat) (x : dict) : Prop :=
  forall h2, agree_from b h h2 -> Store.read m h2 b = Some x.

Definition is_dict (v : value) : bool :=
  match v with VDict _ => true | _ => false end.

(** How the copy on the store stands for the copy in the values while
    the loop runs: same keys in the same order; a value that is not a
    mapping is itself; a reference is either an old one, to a mapping of
    the argument under a key the loop has yet to reach, or a new one, to
    the normalised mapping the recursive call has built. *)
Definition slot_rel (m p : nat) (todo : list string) (h : Store.store)
  (ks : string * Store.slot) (kv : string * value) : Prop :=
  fst ks = fst kv
  /\ match snd ks with
     | Store.Atom v => v = snd kv /\ is_dict (snd kv) = false
     | Store.Ref b =>
         ((b < p)%nat /\ In (fst ks) todo)
         \/ ((p < b)%nat /\ exists x, snd kv = VDict x /\ range_stable m h b x)
     end.

(** A later store: it may have grown, and the object at [p] may have
    been rewritten; every other object is what it was. *)
Definition later (p : nat) (h h' : Store.store) : Prop :=
  (List.length h <= List.length h')%nat
  /\ forall c, c <> p -> (c < List.length h)%nat -> nth_error h' c = nth_error h c.

Section Vocabulary.

Context {T : Transport}.

(** The state once [_server] has been read. *)
Definition settled (st : State) : State :=
  if truthy (server (credentials (api st))) then st
  else mkState (mkAPI (default_server (credentials (api st)))
                  (timeout (api st)) (reauthorize_count (api st)))
         (world st) (trace st).

Definition with_credentials (st : State) (c : Credentials) : State :=
  mkState (mkAPI c (timeout (api st)) (reauthorize_count (api st)))
    (world st) (trace st).

Definition logged (st : State) (ev : event) : State :=
  mkState (api st) (world st) (trace st ++ [ev]).

Definition with_count (st : State) (n : Z) : State :=
  mkState (mkAPI (credentials (api st)) (timeout (api st)) n) (world st) (trace st).

(** The request of [call] and what follows it, from the state [st2]
    in which it is sent: a result resets the counter; an invalid-user
    error leads to one [authenticate] and the retry when the counter is
    0 and a password is there, and to an authentication error
    otherwise. *)
Definition dispatch (self_call : value -> dict -> M value)
  (method : value) (parameters : dict) (st2 : State) : outcome value * State :=
  let '(qo, st3) :=
    query_self method (wire_params parameters (credentials (api st2))) st2 in
  match qo with
  | Return result =>
      (Return result, if negb (is_none result) then with_count st3 0 else st3)
  | Raise e =>
      if invalid_user_exn e then
        if Z.eqb (reauthorize_count (api st3)) 0
           && truthy (password (credentials (api st3)))
        then
          let '(ao, st4) :=
            authenticate true (with_count st3 (reauthorize_count (api st3) + 1)) in
          match ao with
          | Return _ => self_call method parameters st4
          | Raise e' => (Raise e', st4)
          | Diverge => (Diverge, st4)
          end
        else (Raise (authentication_error (credentials (api st3))), st3)
      else (Raise e, st3)
  | Diverge => (Diverge, st3)
  end.

(** What a run of [authenticate] leaves behind. *)
Record authenticate_post (st : State) (out : outcome (option Credentials))
  (st' : State) : Prop := mkAuthenticatePost
  { auth_count : reauthorize_count (api st') = reauthorize_count (api st);
    auth_returns : out <> Diverge;
    auth_password :
      password (credentials (api st')) = VNone
      \/ password (credentials (api st')) = password (credentials (api st));
    auth_success :
      forall c, out = Return (Some c) ->
                credentials (api st') = c /\ password c = VNone;
    auth_trace :
      exists aq,
        trace st' = trace st ++ EvAuthenticate :: aq
        /\ ((aq = [] /\ exists e, out = Raise e)
            \/ exists url env v reply,
                aq = [EvQuery url env v reply]
                /\ (invalid_user reply = true ->
                    out = Raise (authentication_error (credentials (api st'))))) }.

(** No retry can start from a state: the counter is not 0 or there is
    no password. *)
Definition no_retry (st : State) : Prop :=
  reauthorize_count (api st) <> 0%Z
  \/ truthy (password (credentials (api st))) = false.

(** A run of [dispatch] either settles at its own request, or goes
    through the re-authentication: an invalid-user reply, the counter
    at 0 and a password make it raise the counter to 1 and call
    [authenticate], whose return is followed by the retry. *)
Definition dispatch_settles (st2 : State) (out : outcome value) (st' : State)
  : Prop :=
  out <> Diverge
  /\ exists q,
       trace st' = trace st2 ++ q
       /\ ((q = [] /\ exists e, out = Raise e)
           \/ exists url env v reply,
               q = [EvQuery url env v reply]
               /\ (invalid_user reply = true ->
                   no_retry st2
                   /\ out = Raise (authentication_error (credentials (api st'))))).

Definition dispatch_reauthenticates (self_call : value -> dict -> M value)
  (method : value) (parameters : dict)
  (st2 : State) (out : outcome value) (st' : State) : Prop :=
  exists url env v reply st3 ao st4,
    invalid_user reply = true
    /\ reauthorize_count (api st2) = 0%Z
    /\ truthy (password (credentials (api st2))) = true
    /\ trace st3 = trace st2 ++ [EvQuery url env v reply]
    /\ reauthorize_count (api st3) = 1%Z
    /\ authenticate true st3 = (ao, st4)
    /\ match ao with
       | Return _ => self_call method parameters st4 = (out, st')
       | Raise e => out = Raise e /\ st' = st4
       | Diverge => False
       end.

(** What one pass through [call] that cannot retry leaves behind: after
    the entry, at most the authentication of a call without session and
    one request; no further entry of [call]; no authentication after a
    request; and an invalid-user reply is the last thing that happens,
    the authentication error coming out. *)
Record attempt_post (method : value) (parameters : dict)
  (st : State) (out : outcome value) (st' : State) : Prop := mkAttemptPost
  { attempt_returns : out <> Diverge;
    attempt_trace :
      exists tr,
        trace st' = trace st ++ EvCall method parameters :: tr
        /\ calls tr = 0%nat
        /\ (authentications tr <= 1)%nat
        /\ (truthy (session_id (credentials (api st))) = true ->
            authentications tr = 0%nat)
        /\ after_each is_query (fun rest => authentications rest = 0%nat) tr
        /\ after_each is_failure
             (fun rest =>
                rest = []
                /\ out = Raise (authentication_error (credentials (api st'))))
             tr }.

(** What follows the first request of a call when it is answered with
    an invalid-user error, the counter being 0 and a password at hand:
    one authentication, with its own request [aq]; then nothing more if
    the authentication raises, and otherwise one retry, the same call
    entered again, inside which [call] is not entered any more, no
    authentication follows a request, and an invalid-user reply ends the
    run with the authentication error. *)
Definition retry_post (method : value) (parameters : dict)
  (rest : list event) (out : outcome value) (st' : State) : Prop :=
  exists aq,
    calls aq = 0%nat /\ authentications aq = 0%nat
    /\ ((rest = EvAuthenticate :: aq /\ exists e, out = Raise e)
        \/ exists tr2,
            rest = EvAuthenticate :: aq ++ EvCall method parameters :: tr2
            /\ calls tr2 = 0%nat
            /\ (authentications tr2 <= 1)%nat
            /\ after_each is_query (fun after => authentications after = 0%nat) tr2
            /\ after_each is_failure
                 (fun after =>
                    after = []
                    /\ out = Raise (authentication_error (credentials (api st'))))
                 tr2).

(** A call is refused at once: [call] is entered once; no authentication
    follows a request, and none happens at all when a session is there;
    an invalid-user reply is the last thing that happens, and the error
    raised is the authentication error of the credentials, made of user
    name, database and server. *)
Definition refused_at_once (method : value) (parameters : dict)
  (st : State) (out : outcome value) (st' : State) : Prop :=
  out <> Diverge
  /\ exists tr,
       trace st' = trace st ++ EvCall method parameters :: tr
       /\ calls tr = 0%nat
       /\ (truthy (session_id (credentials (api st))) = true ->
           authentications tr = 0%nat)
       /\ (forall before ev after,
             tr = before ++ ev :: after -> is_query ev = true ->
             authentications after = 0%nat)
       /\ (forall before ev after,
             tr = before ++ ev :: after -> is_failure ev = true ->
             after = []
             /\ out = Raise (AuthenticationException
                               (username (credentials (api st')))
                               (database (credentials (api st')))
                               (server (credentials (api st'))))).

End Vocabulary.

(** Replies and states to run the client on. *)
Definition invalid_user_reply_doc : http_reply :=
  HttpJson
    (VDict [("error", VDict [("name", VStr "InvalidUserException");
                             ("message", VStr "Invalid user")])]).

Definition authenticated_reply_doc (session : string) : http_reply :=
  HttpJson
    (VDict [("result",
             VDict [("path", VStr "ThisServer");
                    ("credentials",
                     VDict [("userName", VStr "user@example.com");
                            ("sessionId", VStr session);
                            ("database", VStr "db")])])]).

(** The reply to "Authenticate" that names the server [path]. *)
Definition authenticated_at (path session : string) : http_reply :=
  HttpJson
    (VDict [("result",
             VDict [("path", VStr path);
                    ("credentials",
                     VDict [("userName", VStr "user@example.com");
                            ("sessionId", VStr session);
                            ("database", VStr "db")])])]).

Definition result_reply_doc (result : value) : http_reply :=
  HttpJson (VDict [("result", result)]).

Definition client (session password : value) (count : Z)
  (script : list http_reply) : @State scripted :=
  @mkState scripted
    (mkAPI (mkCredentials (VStr "user@example.com") session (VStr "db")
              (VStr "my.geotab.com") password)
       DEFAULT_TIMEOUT count)
    script [].

(** The events a run added to the trace. *)
Definition new_events {T : Transport} (st st' : State) : list event :=
  List.skipn (List.length (trace st)) (trace st').

(** An entry as [process_parameters] converts it. *)
Definition converted (kv : string * value) : string * value :=
  (camel (fst kv), process_value (snd kv)).

(** The mapping and the mappings nested as its values are all
    convertible. *)
Fixpoint convertible_deep (v : value) : Prop :=
  match v with
  | VDict d =>
      convertible d
      /\ (fix each (l : dict) : Prop :=
            match l with
            | [] => True
            | kv :: t => convertible_deep (snd kv) /\ each t
            end) d
  | _ => True
  end.

(** The authority of a URL, as [urlparse] reads it: a non-empty text
    without the characters that end it and without square brackets;
    user information and a port may be part of it. *)
Definition authority_char (c : ascii) : bool := negb (Str.mem c "/?#[]").

Definition authority (s : string) : Prop :=
  s <> EmptyString /\ Str.all authority_char s = true.

(** What may follow the authority: nothing, or a path, a query or a
    fragment. *)
Definition url_tail (s : string) : Prop :=
  match s with
  | EmptyString => True
  | String c _ => netloc_delim c = true
  end.

Section Invariants.

Context {T : Transport}.

(** What a run of [call] keeps of the client: the timeout; a
    reauthorization counter that is 0 or 1; and the counter at 0 after
    a result that is not [None]. *)
Definition counter_kept (st : State) (out : outcome value) (st' : State) : Prop :=
  timeout (api st') = timeout (api st)
  /\ ((reauthorize_count (api st) = 0 \/ reauthorize_count (api st) = 1)%Z ->
      (reauthorize_count (api st') = 0 \/ reauthorize_count (api st') = 1)%Z)
  /\ (forall r, out = Return r -> is_none r = false ->
                reauthorize_count (api st') = 0%Z).

(** The counter after a request that was answered with [out]. *)
Definition count_after (out : outcome value) (count : Z) : Z :=
  match out with
  | Return r => if is_none r then count else 0%Z
  | _ => count
  end.

(** A call that was one request: the outcome is what the reply comes
    to, and the client has read its server, counted, and logged the
    entry of [call] and the request. *)
Definition answered (st : State) (method : value) (kwargs sent : dict)
  (url : string) (reply : http_reply) (w : World) : outcome value * State :=
  let c := default_server (credentials (api st)) in
  (reply_outcome (server c) reply,
   mkState
     (mkAPI c (timeout (api st))
        (count_after (reply_outcome (server c) reply) (reauthorize_count (api st))))
     w
     (trace st ++ [EvCall method kwargs; EvQuery url (envelope method sent)
                                           (verify_of url) reply])).

End Invariants.

(** ** Tactics *)

(** Unfold the operations of the monad of the client. *)
Ltac run_monad :=
  unfold bind, catch, ret, raise, lift, log, get_credentials, set_credentials,
    get_count, set_count, get_timeout, authentication_failure, diverge.

(** Split a statement about a concrete trace and close what computes. *)
Ltac trace_facts :=
  cbn [calls authentications after_each is_call is_authenticate is_query
       is_failure List.filter List.length List.app];
  repeat match goal with
         | |- _ /\ _ => split
         | |- _ -> _ => intro
         | |- True => exact I
         end;
  try reflexivity; try lia; try discriminate.

(** * Facts *)

(** ** Strings *)

#[local] Arguments Ascii.eqb : simpl never.
#[local] Arguments String.eqb : simpl never.
#[local] Arguments get_api_url : simpl never.

Lemma all_weaken (p q : ascii -> bool) (s : string) :
  (forall c, p c = true -> q c = true) ->
  Str.all p s = true -> Str.all q s = true.
Proof.
  intros Hpq. induction s as [|c t IH]; simpl; auto.
  intros H. apply andb_true_iff in H. destruct H as [Hc Ht].
  rewrite (Hpq c Hc), (IH Ht). reflexivity.
Qed.

Lemma break_none (p : ascii -> bool) (s : string) :
  Str.all (fun c => negb (p c)) s = true -> Str.break p s = (s, EmptyString).
Proof.
  induction s as [|c t IH]; simpl; auto.
  intros H. apply andb_true_iff in H. destruct H as [Hc Ht].
  apply negb_true_iff in Hc. rewrite Hc, (IH Ht). reflexivity.
Qed.

Lemma break_at_delim (p : ascii -> bool) (s : string) (c : ascii) (t : string) :
  Str.all (fun c => negb (p c)) s = true -> p c = true ->
  Str.break p (s ++ String c t) = (s, String c t).
Proof.
  intros Hs Hc. induction s as [|d u IH]; simpl.
  - rewrite Hc. reflexivity.
  - simpl in Hs. apply andb_true_iff in Hs. destruct Hs as [Hd Hu].
    apply negb_true_iff in Hd. rewrite Hd, (IH Hu). reflexivity.
Qed.

Lemma mem_all_false (c : ascii) (s : string) :
  Str.all (fun d => negb (Ascii.eqb c d)) s = true -> Str.mem c s = false.
Proof.
  induction s as [|d t IH]; simpl; auto.
  intros H. apply andb_true_iff in H. destruct H as [Hd Ht].
  apply negb_true_iff in Hd. rewrite Hd, (IH Ht). reflexivity.
Qed.

Lemma append_assoc (a b c : string) : ((a ++ b) ++ c = a ++ (b ++ c))%string.
Proof. induction a as [|x a IH]; simpl; [reflexivity | now rewrite IH]. Qed.

Lemma starts_spec (p s : string) :
  Str.starts p s = true <-> exists t, s = (p ++ t)%string.
Proof.
  revert s. induction p as [|a p IH]; intros s; simpl.
  - split; [intros _; now exists s | reflexivity].
  - destruct s as [|b s].
    + split; [discriminate | intros [t Ht]; discriminate].
    + rewrite andb_true_iff, IH. split.
      * intros [Hab [t Ht]]. apply Ascii.eqb_eq in Hab. subst. now exists t.
      * intros [t Ht]. injection Ht as -> ->. split; [apply Ascii.eqb_refl | now exists t].
Qed.

Lemma contains_spec (sub s : string) :
  Str.contains sub s = true <-> occurs sub s.
Proof.
  unfold occurs. induction s as [|c s IH]; simpl.
  - rewrite starts_spec. split.
    + intros [t Ht]. exists EmptyString, t. exact Ht.
    + intros [b [a H]]. destruct b; simpl in H; [now exists a | discriminate].
  - rewrite orb_true_iff, starts_spec, IH. split.
    + intros [[t Ht] | [b [a H]]].
      * exists EmptyString, t. exact Ht.
      * exists (String c b), a. simpl. now rewrite H.
    + intros [b [a H]]. destruct b as [|x b]; simpl in H.
      * left. now exists a.
      * right. injection H as _ H. now exists b, a.
Qed.

Lemma starts_before_slash (m s r : string) :
  Str.mem "/" m = false ->
  Str.starts m (s ++ String "/" r) = Str.starts m s.
Proof.
  revert s. induction m as [|a m IH]; intros s Hm; simpl; auto.
  simpl in Hm. apply orb_false_iff in Hm. destruct Hm as [Ha Hm].
  destruct s as [|b s]; simpl.
  - rewrite Ascii.eqb_sym, Ha. reflexivity.
  - rewrite (IH s Hm). reflexivity.
Qed.

Lemma contains_before_slash (m s r : string) :
  Str.mem "/" m = false ->
  Str.contains m (String "/" r) = false ->
  Str.contains m (s ++ String "/" r) = Str.contains m s.
Proof.
  intros Hm Hr. induction s as [|b s IH].
  - simpl (_ ++ _)%string. rewrite Hr. simpl.
    destruct m; [simpl in Hr; discriminate | reflexivity].
  - change (String b s ++ String "/" r)%string with (String b (s ++ String "/" r)).
    cbn [Str.contains]. rewrite IH.
    change (String b (s ++ String "/" r)) with (String b s ++ String "/" r)%string.
    rewrite (starts_before_slash m (String b s) r Hm). reflexivity.
Qed.

(** ** URL resolution *)

Lemma bare_char_not (c d : ascii) :
  Str.mem d ":/?#;[]" = true -> bare_char c = true -> negb (Ascii.eqb d c) = true.
Proof.
  unfold bare_char. intros Hd Hc. apply andb_true_iff in Hc.
  destruct Hc as [_ Hc]. apply negb_true_iff in Hc.
  apply negb_true_iff. destruct (Ascii.eqb_spec d c) as [->|]; [congruence | reflexivity].
Qed.

Lemma bare_no_char (d : ascii) (s : string) :
  Str.mem d ":/?#;[]" = true -> Str.all bare_char s = true -> Str.mem d s = false.
Proof.
  intros Hd Hs. apply mem_all_false.
  apply (all_weaken bare_char); [intros c; apply bare_char_not; exact Hd | exact Hs].
Qed.

Lemma bare_no_delim (s : string) :
  Str.all bare_char s = true ->
  Str.all (fun c => negb (netloc_delim c)) s = true.
Proof.
  apply all_weaken. intros c Hc. unfold netloc_delim. simpl.
  pose proof (bare_char_not c "/" eq_refl Hc) as H1.
  pose proof (bare_char_not c "?" eq_refl Hc) as H2.
  pose proof (bare_char_not c "#" eq_refl Hc) as H3.
  apply negb_true_iff in H1, H2, H3.
  rewrite (Ascii.eqb_sym c "/"), (Ascii.eqb_sym c "?"), (Ascii.eqb_sym c "#").
  rewrite H1, H2, H3. reflexivity.
Qed.

Lemma break_bare (d : ascii) (s : string) :
  Str.mem d ":/?#;[]" = true -> Str.all bare_char s = true ->
  Str.break (Ascii.eqb d) s = (s, EmptyString).
Proof.
  intros Hd Hs. apply break_none.
  apply (all_weaken bare_char); [intros c; apply bare_char_not; exact Hd | exact Hs].
Qed.

Lemma starts_slashes_bare (s t : string) :
  Str.all bare_char s = true -> s <> EmptyString ->
  Str.starts "//" (s ++ t) = false.
Proof.
  intros Hs Hne. destruct s as [|c s]; [congruence|].
  simpl in Hs. apply andb_true_iff in Hs. destruct Hs as [Hc _].
  pose proof (bare_char_not c "/" eq_refl Hc) as H. apply negb_true_iff in H.
  simpl. rewrite H. reflexivity.
Qed.

Lemma append_empty (s : string) : (s ++ "")%string = s.
Proof. induction s as [|c s IH]; simpl; [reflexivity | now rewrite IH]. Qed.

(** A bare host is read as a path, without scheme or network
    location. *)
Lemma urlparse_bare (s : string) :
  bare_host s -> urlparse s = Return (mkParseResult "" "" s).
Proof.
  intros [Hne Hs]. unfold urlparse, split_scheme, split_netloc.
  rewrite (break_bare ":" s eq_refl Hs).
  pose proof (starts_slashes_bare s "" Hs Hne) as Hst.
  rewrite append_empty in Hst. rewrite Hst.
  change (unbalanced_brackets "") with false. cbv iota.
  rewrite (break_bare "#" s eq_refl Hs). cbn [fst].
  rewrite (break_bare "?" s eq_refl Hs). cbn [fst].
  rewrite (bare_no_char ";" s eq_refl Hs), andb_false_r. reflexivity.
Qed.

(** The canonical endpoint of a bare host is read back as that host
    under the scheme https. *)
Lemma urlparse_canonical (s : string) :
  bare_host s -> urlparse (canonical s) = Return (mkParseResult "https" s "/apiv1").
Proof.
  intros [Hne Hs]. unfold urlparse, canonical.
  change (split_scheme ("https://" ++ s ++ "/apiv1"))
    with ("https", ("//" ++ s ++ "/apiv1")%string).
  cbv iota. unfold split_netloc.
  change (Str.starts "//" ("//" ++ s ++ "/apiv1")) with true. cbv iota.
  change (Str.drop 2 ("//" ++ s ++ "/apiv1")) with (s ++ "/apiv1")%string.
  rewrite (break_at_delim netloc_delim s "/" "apiv1" (bare_no_delim s Hs) eq_refl).
  unfold unbalanced_brackets.
  rewrite (bare_no_char "[" s eq_refl Hs), (bare_no_char "]" s eq_refl Hs).
  reflexivity.
Qed.

Lemma get_api_url_bare (s : string) :
  bare_host s -> get_api_url (VStr s) = Return (canonical s).
Proof.
  intros H. unfold get_api_url. rewrite (urlparse_bare s H).
  cbn [netloc path]. destruct H as [Hne _].
  destruct s as [|c s]; [congruence | reflexivity].
Qed.

Lemma get_api_url_canonical (s : string) :
  bare_host s -> get_api_url (VStr (canonical s)) = Return (canonical s).
Proof.
  intros H. unfold get_api_url. rewrite (urlparse_canonical s H).
  cbn [netloc path]. destruct H as [Hne _].
  destruct s as [|c s]; [congruence | reflexivity].
Qed.

(** C6. On a server string without scheme the whole text is taken as
    the base of the endpoint, slashes and path included: the trailing
    slash of "my.geotab.com/" and the path of "my.geotab.com/some/path"
    stay in the endpoint, where a host alone was to remain. *)
Theorem get_api_url_keeps_path :
  get_api_url (VStr "my.geotab.com/") = Return "https://my.geotab.com//apiv1"
  /\ get_api_url (VStr "my.geotab.com/some/path")
     = Return "https://my.geotab.com/some/path/apiv1"
  /\ get_api_url (VStr "https://my.geotab.com/some/path")
     = Return "https://my.geotab.com/apiv1".
Proof. repeat split; reflexivity. Qed.

(** C7, as stated, fails: resolving the empty server string gives
    "https:///apiv1", and resolving that gives another endpoint. *)
Lemma get_api_url_not_idempotent :
  ~ (forall s url : string,
        get_api_url (VStr s) = Return url ->
        get_api_url (VStr url) = Return url).
Proof.
  intros H. specialize (H "" "https:///apiv1" eq_refl).
  vm_compute in H. discriminate H.
Qed.

(** C7, amended.  On every bare host, and on "my23.geotab.com" in
    particular, [get_api_url] returns the canonical endpoint of the
    host, and resolving that endpoint again returns it unchanged. *)
Theorem get_api_url_idempotent_on_hosts :
  forall s : string,
    bare_host s ->
    exists url,
      get_api_url (VStr s) = Return url
      /\ url = canonical s
      /\ get_api_url (VStr url) = Return url.
Proof.
  intros s H. exists (canonical s).
  split; [apply get_api_url_bare; exact H|].
  split; [reflexivity | apply get_api_url_canonical; exact H].
Qed.

Lemma get_api_url_idempotent_my23 :
  bare_host "my23.geotab.com"
  /\ exists url,
       get_api_url (VStr "my23.geotab.com") = Return url
       /\ url = "https://my23.geotab.com/apiv1"
       /\ get_api_url (VStr url) = Return url.
Proof.
  assert (H : bare_host "my23.geotab.com") by (split; [discriminate | reflexivity]).
  split; [exact H | exact (get_api_url_idempotent_on_hosts "my23.geotab.com" H)].
Defined.

(** ** TLS verification *)

Lemma starts_mismatch (a b : ascii) (m t : string) :
  Ascii.eqb a b = false -> Str.starts (String a m) (String b t) = false.
Proof. intros H. simpl. rewrite H. reflexivity. Qed.

Lemma contains_skip (a b : ascii) (m t : string) :
  Ascii.eqb a b = false ->
  Str.contains (String a m) (String b t) = Str.contains (String a m) t.
Proof.
  intros H. cbn [Str.contains]. rewrite (starts_mismatch a b m t H). reflexivity.
Qed.

(** Neither marker can begin inside "https://" or reach into "/apiv1":
    it occurs in the canonical endpoint of a host exactly when it
    occurs in the host. *)
Lemma contains_canonical (m s : string) :
  m = "127.0.0.1" \/ m = "localhost" ->
  Str.contains m (canonical s) = Str.contains m s.
Proof.
  intros Hm. unfold canonical.
  assert (Hin : Str.contains m ("https://" ++ s ++ "/apiv1")
                = Str.contains m (s ++ "/apiv1")).
  { destruct Hm as [-> | ->]; cbn [String.append];
      repeat (rewrite contains_skip by reflexivity); reflexivity. }
  rewrite Hin.
  destruct Hm as [-> | ->]; apply contains_before_slash; reflexivity.
Qed.

(** C8, as stated, fails: [notlocalhost.example.com] is neither
    127.0.0.1 nor localhost, and certificate verification is off for
    it. *)
Lemma verify_ssl_off_for_remote_host :
  let st := @mkState scripted
              (mkAPI (mkCredentials (VStr "user") (VStr "sid") VNone
                        (VStr "notlocalhost.example.com") VNone)
                 DEFAULT_TIMEOUT 0) [] [] in
  get_api_url (VStr "notlocalhost.example.com")
    = Return "https://notlocalhost.example.com/apiv1"
  /\ "notlocalhost.example.com" <> "localhost"
  /\ "notlocalhost.example.com" <> "127.0.0.1"
  /\ fst (_is_verify_ssl st) = Return false.
Proof. repeat split; try discriminate; reflexivity. Qed.

#[local] Arguments Str.contains : simpl never.
#[local] Arguments canonical : simpl never.

Section VerifySsl.

Context {T : Transport}.

Lemma is_verify_ssl_value (st : State) (b : bool) (st' : State) :
  _is_verify_ssl st = (Return b, st') ->
  exists url,
    get_api_url (server (credentials (api st'))) = Return url
    /\ b = negb (Str.contains "127.0.0.1" url || Str.contains "localhost" url).
Proof.
  unfold _is_verify_ssl, _server, bind, get_credentials, set_credentials, ret, lift.
  destruct (truthy (server (credentials (api st)))) eqn:Htr; cbn.
  - destruct (get_api_url (server (credentials (api st)))) as [url| |] eqn:Hu;
      cbn; intros H; inversion H; subst.
    exists url. rewrite Hu, orb_false_r. split; reflexivity.
  - intros H. inversion H; subst. cbn. exists (canonical "my.geotab.com").
    split; reflexivity.
Qed.

(** C8, amended.  Certificate verification is off exactly when the
    resolved endpoint URL contains the text 127.0.0.1 or localhost.  For
    a server that is a bare host this is when the host itself contains
    one of the two: verification is off for 127.0.0.1 and localhost and
    on for every host that contains neither; an absent server stands for
    my.geotab.com, with verification on. *)
Theorem verify_ssl_unless_marker_in_url :
  (forall (st : State) (b : bool) (st' : State),
      _is_verify_ssl st = (Return b, st') ->
      exists url,
        get_api_url (server (credentials (api st'))) = Return url
        /\ (b = false <-> occurs "127.0.0.1" url \/ occurs "localhost" url))
  /\ (forall (st : State) (s : string),
        server (credentials (api st)) = VStr s ->
        bare_host s ->
        exists b,
          _is_verify_ssl st = (Return b, st)
          /\ (b = false <-> occurs "127.0.0.1" s \/ occurs "localhost" s))
  /\ (forall st : State,
        truthy (server (credentials (api st))) = false ->
        fst (_is_verify_ssl st) = Return true).
Proof.
  split; [|split].
  - intros st b st' H. destruct (is_verify_ssl_value st b st' H) as [url [Hu Hb]].
    exists url. split; [exact Hu|]. subst b.
    rewrite negb_false_iff, orb_true_iff, !contains_spec. reflexivity.
  - intros st s Hs Hbare.
    exists (negb (Str.contains "127.0.0.1" s || Str.contains "localhost" s)).
    split.
    + unfold _is_verify_ssl, _server, bind, get_credentials, ret, lift.
      rewrite Hs. destruct Hbare as [Hne Hall].
      assert (Htr : truthy (VStr s) = true).
      { simpl. destruct s; [congruence | reflexivity]. }
      rewrite Htr. cbn. rewrite (get_api_url_bare s (conj Hne Hall)). cbn.
      rewrite !contains_canonical by auto. rewrite orb_false_r. reflexivity.
    + rewrite negb_false_iff, orb_true_iff, !contains_spec. reflexivity.
  - intros st Htr.
    unfold _is_verify_ssl, _server, bind, get_credentials, set_credentials, ret, lift.
    rewrite Htr. reflexivity.
Qed.

End VerifySsl.

Lemma verify_ssl_localhost_and_remote :
  let st (host : string) :=
    @mkState scripted
      (mkAPI (mkCredentials (VStr "user") (VStr "sid") VNone (VStr host) VNone)
         DEFAULT_TIMEOUT 0) [] [] in
  (bare_host "localhost" /\ fst (_is_verify_ssl (st "localhost")) = Return false)
  /\ (bare_host "my23.geotab.com"
      /\ exists b, _is_verify_ssl (st "my23.geotab.com") = (Return b, st "my23.geotab.com")
                   /\ (b = false <-> occurs "127.0.0.1" "my23.geotab.com"
                                     \/ occurs "localhost" "my23.geotab.com")).
Proof.
  intros st.
  assert (H1 : bare_host "localhost") by (split; [discriminate | reflexivity]).
  assert (H2 : bare_host "my23.geotab.com") by (split; [discriminate | reflexivity]).
  destruct (@verify_ssl_unless_marker_in_url scripted) as [_ [Hbare _]].
  split; split; [exact H1 | reflexivity | exact H2 |].
  exact (Hbare (st "my23.geotab.com") "my23.geotab.com" eq_refl H2).
Defined.

(** ** Response processing *)

(** C3, as stated, fails.  A document need not be a mapping: the
    number 5 and [true] are not empty and hold no "error" and no
    "result", and they are not returned, the membership test raises
    [TypeError]; so does the subscript for a text that mentions
    "error" and for a list that holds "result". *)
Lemma process_document_not_a_mapping :
  truthy (VInt 5) = true
  /\ _process (VInt 5) = Raise (PyException "TypeError")
  /\ _process (VBool true) = Raise (PyException "TypeError")
  /\ _process (VStr "error: timeout") = Raise (PyException "TypeError")
  /\ _process (VList [VStr "result"]) = Raise (PyException "TypeError").
Proof. repeat split. Qed.

(** C3, amended.  [_process] returns an absent or empty document (any
    falsy one) unchanged.  For a mapping: it raises the remote error of
    the "error" entry whenever there is one, whatever else the mapping
    holds, and that error carries the name and message of the entry; it
    returns the "result" entry of a mapping without "error"; and it
    returns any other mapping unchanged.  A document that is no mapping
    and not empty: a text or a list is returned unchanged unless it
    contains "error" or "result" (as a part of the text, as an element
    of the list), and then [TypeError] is raised; a number and [true]
    raise [TypeError]. *)
Theorem process_document :
  (forall data : value, truthy data = false -> _process data = Return data)
  /\ _process VNone = Return VNone
  /\ _process (VDict []) = Return (VDict [])
  /\ (forall (d : dict) (e : value),
        dict_get "error" d = Some e ->
        _process (VDict d) = Raise (MyGeotabException e))
  /\ (forall (fields : dict) (name message : value),
        dict_get "name" fields = Some name ->
        dict_get "message" fields = Some message ->
        exn_name (MyGeotabException (VDict fields)) = name
        /\ exn_message (MyGeotabException (VDict fields)) = message)
  /\ (forall (d : dict) (r : value),
        dict_get "error" d = None ->
        dict_get "result" d = Some r ->
        _process (VDict d) = Return r)
  /\ (forall d : dict,
        dict_get "error" d = None ->
        dict_get "result" d = None ->
        _process (VDict d) = Return (VDict d))
  /\ (forall s : string,
        truthy (VStr s) = true ->
        _process (VStr s)
        = if Str.contains "error" s || Str.contains "result" s
          then Raise (PyException "TypeError")
          else Return (VStr s))
  /\ (forall l : list value,
        truthy (VList l) = true ->
        _process (VList l)
        = if existsb (fun x => eq_str x "error") l
             || existsb (fun x => eq_str x "result") l
          then Raise (PyException "TypeError")
          else Return (VList l))
  /\ (forall n : Z,
        truthy (VInt n) = true ->
        _process (VInt n) = Raise (PyException "TypeError"))
  /\ _process (VBool true) = Raise (PyException "TypeError").
Proof.
  split; [intros data H; unfold _process; rewrite H; reflexivity|].
  split; [reflexivity|]. split; [reflexivity|].
  split; [|split; [|split; [|split; [|split; [|split; [|split]]]]]].
  - intros d e He. destruct d as [|kv d]; [discriminate|].
    unfold _process, py_in, dict_mem, subscript. rewrite He. reflexivity.
  - intros fields name message Hn Hm.
    unfold exn_name, exn_message, payload_field. rewrite Hn, Hm. split; reflexivity.
  - intros d r He Hr. destruct d as [|kv d]; [discriminate|].
    unfold _process, py_in, dict_mem, subscript. rewrite He, Hr. reflexivity.
  - intros d He Hr. destruct d as [|kv d]; [reflexivity|].
    unfold _process, py_in, dict_mem. rewrite He, Hr. reflexivity.
  - intros s Hs. unfold _process. rewrite Hs. unfold py_in, subscript.
    destruct (Str.contains "error" s); [reflexivity|].
    destruct (Str.contains "result" s); reflexivity.
  - intros l Hl. unfold _process. rewrite Hl. unfold py_in, subscript.
    destruct (existsb (fun x => eq_str x "error") l); [reflexivity|].
    destruct (existsb (fun x => eq_str x "result") l); reflexivity.
  - intros n Hn. unfold _process. rewrite Hn. reflexivity.
  - reflexivity.
Qed.

Lemma process_document_some_fault :
  let error := VDict [("name", VStr "SomeFault"); ("message", VStr "boom")] in
  _process (VDict [("result", VInt 1); ("error", error)])
    = Raise (MyGeotabException error)
  /\ exn_name (MyGeotabException error) = VStr "SomeFault"
  /\ exn_message (MyGeotabException error) = VStr "boom"
  /\ _process (VDict [("result", VList [VInt 1])]) = Return (VList [VInt 1])
  /\ _process (VDict [("id", VInt 7)]) = Return (VDict [("id", VInt 7)])
  /\ _process (VStr "pong") = Return (VStr "pong")
  /\ _process (VList [VInt 1; VInt 2]) = Return (VList [VInt 1; VInt 2])
  /\ _process (VInt 5) = Raise (PyException "TypeError").
Proof.
  intros error.
  destruct process_document
    as [_ [_ [_ [Herr [Hname [Hres [Hother [Htext [Hlist [Hnumber _]]]]]]]]]].
  split; [apply Herr; reflexivity|].
  destruct (Hname [("name", VStr "SomeFault"); ("message", VStr "boom")]
              (VStr "SomeFault") (VStr "boom") eq_refl eq_refl) as [Hn Hm].
  split; [exact Hn|]. split; [exact Hm|].
  split; [apply Hres; reflexivity|]. split; [apply Hother; reflexivity|].
  split; [exact (Htext "pong" eq_refl)|].
  split; [exact (Hlist [VInt 1; VInt 2] eq_refl)|].
  exact (Hnumber 5%Z eq_refl).
Defined.

(** ** Dictionaries *)

Section DictFacts.

Context {V : Type}.
Implicit Types (d : list (string * V)) (k x : string) (v : V).

Lemma dict_get_set x k v d :
  dict_get x (dict_set k v d) = if String.eqb x k then Some v else dict_get x d.
Proof.
  induction d as [|[k' v'] t IH]; simpl.
  - destruct (String.eqb x k); reflexivity.
  - destruct (String.eqb_spec k k') as [->|Hne]; simpl.
    + destruct (String.eqb x k'); reflexivity.
    + rewrite IH. destruct (String.eqb_spec x k') as [->|]; [|reflexivity].
      destruct (String.eqb_spec k' k); [congruence | reflexivity].
Qed.

Lemma dict_get_del x k d :
  dict_get x (dict_del k d) = if String.eqb x k then None else dict_get x d.
Proof.
  unfold dict_del. induction d as [|[k' v'] t IH]; simpl.
  - destruct (String.eqb x k); reflexivity.
  - destruct (String.eqb_spec k k') as [->|Hne]; simpl.
    + rewrite IH. destruct (String.eqb_spec x k'); reflexivity.
    + rewrite IH. destruct (String.eqb_spec x k') as [->|]; [|reflexivity].
      destruct (String.eqb_spec k' k); [congruence | reflexivity].
Qed.

Lemma dict_get_in x v d : dict_get x d = Some v -> In (x, v) d.
Proof.
  induction d as [|[k' v'] t IH]; simpl; [discriminate|].
  destruct (String.eqb_spec x k') as [->|].
  - intros H. injection H as ->. now left.
  - intros H. right. auto.
Qed.

Lemma dict_get_keys x d : dict_get x d <> None -> In x (keys d).
Proof.
  induction d as [|[k' v'] t IH]; simpl; [congruence|].
  destruct (String.eqb_spec x k') as [->|]; [now left | right; auto].
Qed.

Lemma in_keys x v d : In (x, v) d -> In x (keys d).
Proof. intros H. apply (in_map fst) in H. exact H. Qed.

Lemma dict_set_same k v d : NoDup (keys d) -> In (k, v) d -> dict_set k v d = d.
Proof.
  induction d as [|[k' v'] t IH]; simpl; [contradiction|].
  intros Hnd Hin. apply NoDup_cons_iff in Hnd. destruct Hnd as [Hk' Hnd].
  destruct Hin as [Heq | Hin].
  - injection Heq as -> ->. rewrite String.eqb_refl. reflexivity.
  - destruct (String.eqb_spec k k') as [->|Hne].
    + exfalso. apply Hk'. exact (in_keys _ _ _ Hin).
    + rewrite (IH Hnd Hin). reflexivity.
Qed.

End DictFacts.

(** ** Parameter normalisation *)

#[local] Arguments camel : simpl never.

Lemma camel_cons2 (c d : ascii) (u : string) :
  camel (String c (String d u))
  = if Ascii.eqb c "_" && Str.is_word d
    then String (Str.upper d) (camel u)
    else String c (camel (String d u)).
Proof. reflexivity. Qed.

Lemma alnum_upper_not_underscore (d : ascii) :
  Str.is_alpha d || Str.is_digit d = true -> Ascii.eqb "_" (Str.upper d) = false.
Proof.
  destruct d as [b0 b1 b2 b3 b4 b5 b6 b7].
  destruct b0, b1, b2, b3, b4, b5, b6, b7; vm_compute; intros H;
    first [reflexivity | discriminate H].
Qed.

Lemma alnum_is_word (d : ascii) :
  Str.is_alpha d || Str.is_digit d = true -> Str.is_word d = true.
Proof. unfold Str.is_word. intros ->. reflexivity. Qed.

(** A key without underscore is its own conversion. *)
Lemma camel_plain (s : string) : Str.mem "_" s = false -> camel s = s.
Proof.
  induction s as [|c t IH]; [reflexivity|].
  simpl. intros H. apply orb_false_iff in H. destruct H as [Hc Ht].
  destruct t as [|d u]; [reflexivity|].
  rewrite camel_cons2, (Ascii.eqb_sym c "_"), Hc. simpl.
  rewrite (IH Ht). reflexivity.
Qed.

(** The conversion of a key in snake case has no underscore left. *)
Lemma camel_snake_bounded (n : nat) :
  forall s, (String.length s <= n)%nat -> snake s = true -> Str.mem "_" (camel s) = false.
Proof.
  induction n as [|n IH]; intros s Hlen Hs.
  - destruct s; [reflexivity | simpl in Hlen; lia].
  - destruct s as [|c t]; [reflexivity|].
    simpl in Hlen. simpl in Hs.
    destruct (Ascii.eqb_spec c "_") as [->|Hc].
    + destruct t as [|d u]; [discriminate|].
      apply andb_true_iff in Hs. destruct Hs as [Hd Hu].
      rewrite camel_cons2, Ascii.eqb_refl, (alnum_is_word d Hd). simpl.
      rewrite (alnum_upper_not_underscore d Hd). simpl in Hlen.
      apply IH; [lia | exact Hu].
    + assert (Hne : Ascii.eqb "_" c = false).
      { destruct (Ascii.eqb_spec "_" c); [congruence | reflexivity]. }
      assert (Ht : Str.mem "_" (camel t) = false) by (apply IH; [lia | exact Hs]).
      destruct t as [|d u].
      * change (camel (String c "")) with (String c ""). simpl. now rewrite Hne.
      * rewrite camel_cons2.
        destruct (Ascii.eqb_spec c "_"); [congruence|]. simpl.
        rewrite Hne. exact Ht.
Qed.

Lemma camel_snake (s : string) : snake s = true -> Str.mem "_" (camel s) = false.
Proof. apply (camel_snake_bounded (String.length s)). lia. Qed.

Lemma camel_idempotent (s : string) : snake s = true -> camel (camel s) = camel s.
Proof. intros H. apply camel_plain, camel_snake, H. Qed.

Lemma process_value_unfold (v : value) :
  process_value v
  = match v with
    | VDict d => VDict (process_parameters (Some d))
    | _ => v
    end.
Proof. destruct v; reflexivity. Qed.

Lemma process_parameters_fold (d : dict) :
  process_parameters (Some d) = List.fold_left (process_entry process_value) d d.
Proof. destruct d; reflexivity. Qed.

Lemma process_entry_value (v : value) :
  match v with VDict _ => process_value v | _ => v end = process_value v.
Proof. destruct v; reflexivity. Qed.

#[local] Arguments process_value : simpl never.

Lemma process_entry_get (x : string) (params : dict) (k : string) (v : value) :
  dict_get x (process_entry process_value params (k, v))
  = if String.eqb x (camel k) then Some (process_value v)
    else if String.eqb (camel k) k then dict_get x params
    else if String.eqb x k then None
    else dict_get x params.
Proof.
  unfold process_entry. rewrite process_entry_value.
  destruct (String.eqb_spec (camel k) k) as [Heq|Hne].
  - rewrite dict_get_set. reflexivity.
  - rewrite dict_get_del, dict_get_set.
    destruct (String.eqb_spec x k) as [->|Hx].
    + destruct (String.eqb_spec k (camel k)); [congruence | reflexivity].
    + reflexivity.
Qed.

#[local] Arguments process_entry : simpl never.

(** An entry of the copy survives the rest of the loop when no later
    key is it or is converted to it. *)
Lemma fold_keeps_entry (todo params : dict) (x : string) (y : value) :
  dict_get x params = Some y ->
  (forall k, In k (keys todo) -> camel k <> x /\ k <> x) ->
  dict_get x (List.fold_left (process_entry process_value) todo params) = Some y.
Proof.
  revert params. induction todo as [|[k v] rest IH]; intros params Hget Hkeys.
  - exact Hget.
  - simpl. apply IH.
    + rewrite process_entry_get.
      destruct (Hkeys k (or_introl eq_refl)) as [H1 H2].
      destruct (String.eqb_spec x (camel k)); [congruence|].
      destruct (String.eqb_spec x k); [congruence|].
      destruct (String.eqb (camel k) k); exact Hget.
    + intros k' Hk'. apply Hkeys. right. exact Hk'.
Qed.

(** Every entry of the argument is in the result, under its converted
    key and with its processed value. *)
Lemma fold_converts_entry (todo params : dict) (k : string) (v : value) :
  convertible todo ->
  In (k, v) todo ->
  dict_get (camel k) (List.fold_left (process_entry process_value) todo params)
  = Some (process_value v).
Proof.
  revert params. induction todo as [|[k0 v0] rest IH]; intros params [Hsn Hnd] Hin.
  - contradiction.
  - simpl in Hsn, Hnd. apply Forall_cons_iff in Hsn. destruct Hsn as [Hs0 Hsn].
    apply NoDup_cons_iff in Hnd. destruct Hnd as [Hfresh Hnd].
    destruct Hin as [Heq | Hin].
    + injection Heq as -> ->. simpl. apply fold_keeps_entry.
      * rewrite process_entry_get, String.eqb_refl. reflexivity.
      * intros k' Hk'.
        assert (Hck : camel k' <> camel k).
        { intros E. apply Hfresh. rewrite <- E. apply in_map. exact Hk'. }
        split; [exact Hck|].
        intros E. apply Hck. rewrite E. apply camel_idempotent. exact Hs0.
    + simpl. apply IH; [split; assumption | exact Hin].
Qed.

(** Every key of the result is the conversion of a key of the
    argument. *)
Lemma fold_keys_converted (todo params : dict) (x : string) :
  dict_get x (List.fold_left (process_entry process_value) todo params) <> None ->
  (exists k, In k (keys todo) /\ x = camel k)
  \/ (dict_get x params <> None
      /\ forall k, In k (keys todo) -> x = k -> camel k = k).
Proof.
  revert params. induction todo as [|[k0 v0] rest IH]; intros params H.
  - right. split; [exact H | intros k []].
  - simpl in H. destruct (IH _ H) as [[k [Hk Hx]] | [Hget Hrest]].
    + left. exists k. split; [right; exact Hk | exact Hx].
    + rewrite process_entry_get in Hget.
      destruct (String.eqb_spec x (camel k0)) as [Hx|Hx].
      * left. exists k0. split; [left; reflexivity | exact Hx].
      * right. destruct (String.eqb_spec (camel k0) k0) as [Hc|Hc].
        -- split; [exact Hget|]. intros k Hin E. simpl in Hin.
           destruct Hin as [<-|Hk]; [exact Hc | exact (Hrest k Hk E)].
        -- destruct (String.eqb_spec x k0) as [Hk0|Hk0]; [now elim Hget|].
           split; [exact Hget|]. intros k Hin E. simpl in Hin.
           destruct Hin as [<-|Hk]; [contradiction | exact (Hrest k Hk E)].
Qed.

Lemma fold_fixed (todo d : dict) :
  (forall kv, In kv todo -> process_entry process_value d kv = d) ->
  List.fold_left (process_entry process_value) todo d = d.
Proof.
  induction todo as [|kv rest IH]; intros H; [reflexivity|].
  simpl. rewrite (H kv (or_introl eq_refl)). apply IH.
  intros kv' Hin. apply H. right. exact Hin.
Qed.

(** Induction on values that reaches the values of a mapping. *)
Lemma value_dict_ind (P : value -> Prop) :
  P VNone ->
  (forall b, P (VBool b)) ->
  (forall z, P (VInt z)) ->
  (forall s, P (VStr s)) ->
  (forall l, P (VList l)) ->
  (forall d, Forall (fun kv => P (snd kv)) d -> P (VDict d)) ->
  forall v, P v.
Proof.
  intros HNone HBool HInt HStr HList HDict.
  fix IH 1. intros [|b|z|s|l|d].
  - exact HNone.
  - apply HBool.
  - apply HInt.
  - apply HStr.
  - apply HList.
  - apply HDict.
    refine ((fix each (l : dict) : Forall (fun kv => P (snd kv)) l :=
               match l with
               | [] => Forall_nil _
               | kv :: t => Forall_cons kv (IH (snd kv)) (each t)
               end) d).
Qed.

Lemma valid_entries (d : dict) :
  valid (VDict d) -> valid_dict d /\ Forall (fun kv => valid (snd kv)) d.
Proof.
  simpl. intros [Hd Heach]. split; [exact Hd|].
  clear Hd. induction d as [|kv t IH]; [constructor|].
  destruct Heach as [Hkv Ht]. constructor; [exact Hkv | exact (IH Ht)].
Qed.

(** A mapping whose keys are converted already is returned as it is. *)
Lemma process_value_plain (v : value) :
  valid v -> plain v = true -> process_value v = v.
Proof.
  induction v as [| | | | |d IH] using value_dict_ind; try reflexivity.
  intros Hvalid Hplain. rewrite process_value_unfold, process_parameters_fold.
  f_equal. destruct (valid_entries d Hvalid) as [Hnd Hvs].
  simpl in Hplain. rewrite forallb_forall in Hplain.
  rewrite Forall_forall in IH, Hvs.
  apply fold_fixed. intros [k v] Hin.
  specialize (Hplain (k, v) Hin). simpl in Hplain.
  apply andb_true_iff in Hplain. destruct Hplain as [Hk Hv].
  apply negb_true_iff in Hk.
  unfold process_entry. rewrite process_entry_value, (camel_plain k Hk), String.eqb_refl.
  pose proof (IH (k, v) Hin (Hvs (k, v) Hin) Hv) as Hfix. simpl in Hfix.
  rewrite Hfix. apply dict_set_same; assumption.
Qed.

(** ** Parameter normalisation on the object store *)

Lemma modify_beyond (h ext : Store.store) (a : nat) (f : Store.object -> Store.object) :
  (List.length h <= a)%nat ->
  Store.modify a f (h ++ ext) = h ++ Store.modify (a - List.length h) f ext.
Proof.
  revert a. induction h as [|o h IH]; intros a Hle; simpl.
  - rewrite Nat.sub_0_r. reflexivity.
  - destruct a as [|a]; simpl in Hle; [lia|].
    simpl. rewrite IH by lia. reflexivity.
Qed.

Lemma modify_length (a : nat) (f : Store.object -> Store.object) (h : Store.store) :
  List.length (Store.modify a f h) = List.length h.
Proof.
  revert a. induction h as [|o h IH]; intros a; destruct a; simpl;
    try reflexivity.
  now rewrite IH.
Qed.

Lemma extends_refl (h : Store.store) : extends h h.
Proof. exists []. now rewrite app_nil_r. Qed.

Lemma extends_trans (h1 h2 h3 : Store.store) :
  extends h1 h2 -> extends h2 h3 -> extends h1 h3.
Proof.
  intros [e1 ->] [e2 ->]. exists (e1 ++ e2). now rewrite app_assoc.
Qed.

Section StoreFrame.

Variable recur : Store.store -> nat -> Store.store * option nat.
Hypothesis recur_frame : forall h a, extends h (fst (recur h a)).

Variables (parameters params : nat) (h0 : Store.store).
Hypothesis params_new : (List.length h0 <= params)%nat.

Lemma modify_params_frame (h : Store.store) (f : Store.object -> Store.object) :
  extends h0 h -> extends h0 (Store.modify params f h).
Proof.
  intros [ext ->]. rewrite modify_beyond by exact params_new.
  eexists. reflexivity.
Qed.

Lemma round_frame (h : Store.store) (name : string) :
  extends h0 h -> extends h0 (fst (Store.round recur parameters params h name)).
Proof.
  intros Hext. unfold Store.round.
  destruct (nth_error h parameters) as [current|]; [|exact Hext].
  destruct (dict_get name current) as [value|]; [|exact Hext].
  destruct value as [nested|v].
  - pose proof (recur_frame h nested) as Hrec.
    destruct (recur h nested) as [h1 [r|]]; simpl in *.
    + assert (H1 : extends h0 h1) by (eapply extends_trans; eassumption).
      destruct (String.eqb (camel name) name); simpl;
        repeat apply modify_params_frame; exact H1.
    + eapply extends_trans; eassumption.
  - destruct (String.eqb (camel name) name); simpl;
      repeat apply modify_params_frame; exact Hext.
Qed.

Lemma rounds_frame (names : list string) (h : Store.store) :
  extends h0 h -> extends h0 (fst (Store.rounds recur parameters params names h)).
Proof.
  revert h. induction names as [|name rest IH]; intros h Hext; [exact Hext|].
  simpl. pose proof (round_frame h name Hext) as Hr.
  destruct (Store.round recur parameters params h name) as [h1 [u|]]; simpl in Hr.
  - apply IH. exact Hr.
  - exact Hr.
Qed.

End StoreFrame.

(** Whatever [process_parameters] does, the objects of the store it
    was given are in the store it leaves, unchanged and in their
    places. *)
Lemma store_process_parameters_frame (fuel : nat) :
  forall (h : Store.store) (a : nat),
    extends h (fst (Store.process_parameters fuel h a)).
Proof.
  induction fuel as [|fuel IH]; intros h a; simpl; [apply extends_refl|].
  destruct (nth_error h a) as [[|entry entries]|]; try apply extends_refl.
  - simpl. exists [[]]. reflexivity.
  - unfold Store.alloc.
    match goal with
    | |- context [Store.rounds ?r ?x ?y ?names ?start] =>
        pose proof (rounds_frame r IH x y h (Nat.le_refl _) names start
                      (ex_intro _ [entry :: entries] eq_refl)) as H;
        destruct (Store.rounds r x y names start) as [h1 [u|]]
    end; exact H.
Qed.

(** The object returned is a new one. *)
Lemma store_process_parameters_fresh (fuel : nat) (h : Store.store) (a r : nat) :
  snd (Store.process_parameters fuel h a) = Some r -> r = List.length h.
Proof.
  destruct fuel as [|fuel]; simpl; [discriminate|].
  destruct (nth_error h a) as [[|entry entries]|]; try discriminate.
  - simpl. intros H. now injection H as <-.
  - unfold Store.alloc.
    match goal with
    | |- context [Store.rounds ?r ?x ?y ?names ?start] =>
        destruct (Store.rounds r x y names start) as [h1 [u|]]
    end; simpl; [|discriminate].
    intros H. now injection H as <-.
Qed.

(** ** The client: one request *)

Section Request.

Context {T : Transport}.

Lemma settled_trace st : trace (settled st) = trace st.
Proof. unfold settled. destruct (truthy _); reflexivity. Qed.

Lemma settled_world st : world (settled st) = world st.
Proof. unfold settled. destruct (truthy _); reflexivity. Qed.

Lemma settled_count st :
  reauthorize_count (api (settled st)) = reauthorize_count (api st).
Proof. unfold settled. destruct (truthy _); reflexivity. Qed.

Lemma settled_timeout st : timeout (api (settled st)) = timeout (api st).
Proof. unfold settled. destruct (truthy _); reflexivity. Qed.

Lemma settled_credentials st :
  credentials (api (settled st)) = default_server (credentials (api st)).
Proof.
  unfold settled, default_server.
  destruct (truthy (server (credentials (api st)))) eqn:E; reflexivity.
Qed.

Lemma default_server_truthy c : truthy (server (default_server c)) = true.
Proof.
  unfold default_server. destruct (truthy (server c)) eqn:E; [exact E | reflexivity].
Qed.

Lemma default_server_password c : password (default_server c) = password c.
Proof. unfold default_server. destruct (truthy (server c)); reflexivity. Qed.

Lemma default_server_session c : session_id (default_server c) = session_id c.
Proof. unfold default_server. destruct (truthy (server c)); reflexivity. Qed.

Lemma default_server_username c : username (default_server c) = username c.
Proof. unfold default_server. destruct (truthy (server c)); reflexivity. Qed.

Lemma default_server_database c : database (default_server c) = database c.
Proof. unfold default_server. destruct (truthy (server c)); reflexivity. Qed.

Lemma settled_idempotent st : settled (settled st) = settled st.
Proof.
  unfold settled at 1. rewrite settled_credentials, default_server_truthy.
  reflexivity.
Qed.

Lemma server_run st :
  _server st = (Return (server (credentials (api (settled st)))), settled st).
Proof.
  unfold _server, settled, default_server, bind, get_credentials, set_credentials, ret.
  destruct (truthy (server (credentials (api st)))) eqn:E; reflexivity.
Qed.

Lemma get_api_url_returns (v : value) : get_api_url v <> Diverge.
Proof.
  unfold get_api_url.
  destruct v as [|b|z|s|l|d];
    try (match goal with |- context [truthy ?x] => destruct (truthy x) end;
         discriminate).
  unfold urlparse. destruct (split_scheme s) as [sch rest].
  destruct (split_netloc rest) as [nl rest'].
  destruct (unbalanced_brackets nl); discriminate.
Qed.

Lemma get_api_url_raises (v : value) (e : exn) :
  get_api_url v = Raise e -> exists kind, e = PyException kind.
Proof.
  unfold get_api_url.
  destruct v as [|b|z|s|l|d];
    try (match goal with |- context [truthy ?x] => destruct (truthy x) end;
         intros H; injection H as <-; eexists; reflexivity).
  unfold urlparse. destruct (split_scheme s) as [sch rest].
  destruct (split_netloc rest) as [nl rest'].
  destruct (unbalanced_brackets nl); [|discriminate].
  intros H; injection H as <-; eexists; reflexivity.
Qed.

Lemma is_verify_ssl_run st :
  _is_verify_ssl st
  = (match get_api_url (server (credentials (api (settled st)))) with
     | Return url => Return (verify_of url)
     | Raise e => Raise e
     | Diverge => Diverge
     end, settled st).
Proof.
  unfold _is_verify_ssl, bind. rewrite server_run. unfold lift, ret.
  destruct (get_api_url (server (credentials (api (settled st))))); reflexivity.
Qed.

(** [query_self] resolves the endpoint and, unless that raises, posts
    one request; the reply decides how it ends. *)
Lemma query_self_run (method : value) (params : dict) (st : State) :
  query_self method params st
  = match get_api_url (server (credentials (api (settled st)))) with
    | Return url =>
        let '(reply, w) :=
          post url (envelope method params) (timeout (api st)) (verify_of url)
            (world st) in
        (reply_outcome (server (credentials (api (settled st)))) reply,
         mkState (api (settled st)) w
           (trace st ++ [EvQuery url (envelope method params) (verify_of url) reply]))
    | Raise e => (Raise e, settled st)
    | Diverge => (Diverge, settled st)
    end.
Proof.
  unfold query_self, bind. rewrite server_run. unfold get_timeout.
  rewrite is_verify_ssl_run, settled_idempotent, settled_timeout.
  destruct (get_api_url (server (credentials (api (settled st))))) as [url|e|] eqn:Hu;
    try reflexivity.
  unfold _query, bind, lift. rewrite Hu. unfold do_post, envelope.
  rewrite settled_world, settled_trace.
  destruct (post url _ (timeout (api st)) (verify_of url) (world st)) as [reply w].
  destruct reply; reflexivity.
Qed.

Lemma settled_api (st : State) :
  api (settled st)
  = mkAPI (default_server (credentials (api st))) (timeout (api st))
      (reauthorize_count (api st)).
Proof.
  unfold settled, default_server. destruct st as [[c t n] w tr]. cbn [api credentials
    timeout reauthorize_count].
  destruct (truthy (server c)); reflexivity.
Qed.

Lemma query_self_api (method : value) (params : dict) (st : State)
  (o : outcome value) (st2 : State) :
  query_self method params st = (o, st2) -> api st2 = api (settled st).
Proof.
  rewrite query_self_run.
  destruct (get_api_url _) as [url|e|].
  - destruct (post url _ _ _ _) as [reply w]. intros H; injection H as _ <-. reflexivity.
  - intros H; injection H as _ <-. reflexivity.
  - intros H; injection H as _ <-. reflexivity.
Qed.

End Request.

(** ** The client: authentication *)

Lemma subscript_raises (v : value) (k : string) (e : exn) :
  subscript v k = Raise e -> exists kind, e = PyException kind.
Proof.
  unfold subscript. destruct v; try (intros H; injection H as <-; eexists; reflexivity).
  destruct (dict_get k d); [discriminate|].
  intros H; injection H as <-; eexists; reflexivity.
Qed.

Lemma subscript_returns (v : value) (k : string) : subscript v k <> Diverge.
Proof. unfold subscript. destruct v; try discriminate. destruct (dict_get k d); discriminate. Qed.

Lemma decode_credentials_raises (result current : value) (e : exn) :
  decode_credentials result current = Raise e -> exists kind, e = PyException kind.
Proof.
  unfold decode_credentials.
  repeat match goal with
         | |- context [match subscript ?v ?k with _ => _ end] =>
             let H := fresh "H" in
             destruct (subscript v k) eqn:H;
             [ | intros E; injection E as <-; exact (subscript_raises _ _ _ H)
               | discriminate ]
         end.
  discriminate.
Qed.

Lemma decode_credentials_returns (result current : value) :
  decode_credentials result current <> Diverge.
Proof.
  unfold decode_credentials.
  repeat match goal with
         | |- context [match subscript ?v ?k with _ => _ end] =>
             let H := fresh "H" in
             destruct (subscript v k) eqn:H;
             [ | discriminate | exact (fun _ => subscript_returns _ _ H) ]
         end.
  discriminate.
Qed.

Lemma decode_credentials_password (result current : value) (c : Credentials) :
  decode_credentials result current = Return c -> password c = VNone.
Proof.
  unfold decode_credentials.
  repeat match goal with
         | |- context [match subscript ?v ?k with _ => _ end] =>
             destruct (subscript v k); try discriminate
         end.
  intros H. injection H as <-. reflexivity.
Qed.

Section Authentication.

Context {T : Transport}.

(** [authenticate] logs its entry, sends the "Authenticate" request,
    and then: stores and returns new credentials when the result
    decodes, returns nothing on a falsy result, turns an invalid-user
    error into an authentication error, and passes on anything else. *)
Lemma authenticate_run (is_global : bool) (st : State) :
  authenticate is_global st
  = let '(o, st2) :=
      query_self (VStr "Authenticate") (auth_data is_global (credentials (api st)))
        (logged st EvAuthenticate) in
    match o with
    | Return result =>
        if truthy result then
          match decode_credentials result (server (credentials (api st2))) with
          | Return c => (Return (Some c), with_credentials st2 c)
          | Raise e => (Raise e, st2)
          | Diverge => (Diverge, st2)
          end
        else (Return None, st2)
    | Raise e =>
        if invalid_user_exn e
        then (Raise (authentication_error (credentials (api st2))), st2)
        else (Raise e, st2)
    | Diverge => (Diverge, st2)
    end.
Proof.
  unfold authenticate. run_monad. unfold logged, auth_data. cbn [api world trace].
  destruct (query_self _ _ _) as [o st2].
  destruct o as [result|e|].
  - destruct (truthy result); [|reflexivity].
    unfold decode_credentials, with_credentials.
    repeat match goal with
           | |- context [match subscript ?v ?k with _ => _ end] =>
               let H := fresh "H" in
               destruct (subscript v k) eqn:H;
               [ | destruct (subscript_raises _ _ _ H) as [kind ->]; reflexivity
                 | reflexivity ]
           end.
    reflexivity.
  - unfold invalid_user_exn, authentication_error. destruct e; try reflexivity.
    destruct (eq_str _ _); reflexivity.
  - reflexivity.
Qed.

Lemma invalid_user_reply (s : value) (reply : http_reply) :
  invalid_user reply
  = match reply_outcome s reply with
    | Raise e => invalid_user_exn e
    | _ => false
    end.
Proof. destruct reply; reflexivity. Qed.

Lemma authenticate_spec (is_global : bool) (st : State)
  (out : outcome (option Credentials)) (st' : State) :
  authenticate is_global st = (out, st') -> authenticate_post st out st'.
Proof.
  rewrite authenticate_run, query_self_run.
  set (st1 := logged st EvAuthenticate).
  assert (Hc1 : reauthorize_count (api (settled st1)) = reauthorize_count (api st))
    by (rewrite settled_count; reflexivity).
  assert (Hp1 : password (credentials (api (settled st1)))
                = password (credentials (api st)))
    by (rewrite settled_credentials, default_server_password; reflexivity).
  assert (Ht1 : trace (settled st1) = trace st ++ [EvAuthenticate])
    by (rewrite settled_trace; reflexivity).
  destruct (get_api_url (server (credentials (api (settled st1))))) as [url|e|] eqn:Hu.
  - destruct (post url _ _ _ _) as [reply w].
    set (st2 := mkState (api (settled st1)) w _).
    pose proof (invalid_user_reply (server (credentials (api (settled st1)))) reply)
      as Hinv.
    assert (Htr : exists aq,
               trace st2 = trace st ++ EvAuthenticate :: aq
               /\ aq = [EvQuery url
                          (envelope (VStr "Authenticate")
                             (auth_data is_global (credentials (api st))))
                          (verify_of url) reply]).
    { eexists. split; [|reflexivity]. unfold st2. cbn [trace].
      change (trace st1) with (trace st ++ [EvAuthenticate]).
      rewrite <- app_assoc. reflexivity. }
    destruct Htr as [aq [Htr Haq]].
    destruct (reply_outcome _ reply) as [result|e|] eqn:Hr.
    + destruct (truthy result).
      * pose proof (decode_credentials_password result
                      (server (credentials (api st2)))) as Hpw.
        pose proof (decode_credentials_returns result
                      (server (credentials (api st2)))) as Hret.
        destruct (decode_credentials result (server (credentials (api st2))))
          as [c|e|]; intros H; injection H as <- <-.
        -- constructor; cbn [api credentials reauthorize_count with_credentials trace].
           ++ exact Hc1.
           ++ discriminate.
           ++ left. apply Hpw. reflexivity.
           ++ intros c' Hc'. injection Hc' as <-. split; [reflexivity | now apply Hpw].
           ++ exists aq. split; [exact Htr|]. right. subst aq.
              do 4 eexists. split; [reflexivity|]. rewrite Hinv. discriminate.
        -- constructor; cbn [api credentials reauthorize_count trace st2].
           ++ exact Hc1.
           ++ discriminate.
           ++ right. exact Hp1.
           ++ discriminate.
           ++ exists aq. split; [exact Htr|]. right. subst aq.
              do 4 eexists. split; [reflexivity|]. rewrite Hinv. discriminate.
        -- congruence.
      * intros H; injection H as <- <-.
        constructor; cbn [api credentials reauthorize_count trace st2].
        -- exact Hc1.
        -- discriminate.
        -- right. exact Hp1.
        -- discriminate.
        -- exists aq. split; [exact Htr|]. right. subst aq.
           do 4 eexists. split; [reflexivity|]. rewrite Hinv. discriminate.
    + destruct (invalid_user_exn e) eqn:He; intros H; injection H as <- <-;
        (constructor; cbn [api credentials reauthorize_count trace st2];
         [ exact Hc1 | discriminate | right; exact Hp1 | discriminate
         | exists aq; split; [exact Htr|]; right; subst aq;
           do 4 eexists; split; [reflexivity|]; rewrite Hinv;
           first [ reflexivity | discriminate ] ]).
    + intros H; injection H as <- <-. exfalso.
      destruct reply; try discriminate. simpl in Hr.
      unfold _process in Hr.
      destruct (truthy doc); [|discriminate].
      destruct (py_in "error" doc) as [[|]|]; try discriminate.
      * destruct (subscript doc "error") eqn:Hs; try discriminate.
        exact (subscript_returns _ _ Hs).
      * destruct (py_in "result" doc) as [[|]|]; try discriminate.
        exact (subscript_returns _ _ Hr).
  - destruct (invalid_user_exn e); intros H; injection H as <- <-;
      (constructor;
       [ exact Hc1 | discriminate | right; exact Hp1 | discriminate
       | exists []; split; [exact Ht1|]; left; split; [reflexivity|];
         eexists; reflexivity ]).
  - exfalso. exact (get_api_url_returns _ Hu).
Qed.

(** [authenticate] touches the credentials only. *)
Lemma authenticate_api (is_global : bool) (st : State)
  (out : outcome (option Credentials)) (st' : State) :
  authenticate is_global st = (out, st') ->
  timeout (api st') = timeout (api st)
  /\ reauthorize_count (api st') = reauthorize_count (api st)
  /\ match out with
     | Return (Some c) => credentials (api st') = c
     | _ => credentials (api st') = default_server (credentials (api st))
     end.
Proof.
  rewrite authenticate_run.
  destruct (query_self _ _ _) as [o st2] eqn:Hq.
  pose proof (query_self_api _ _ _ _ _ Hq) as Hapi. rewrite settled_api in Hapi.
  cbn [logged api] in Hapi.
  destruct o as [result|e|].
  - destruct (truthy result).
    + destruct (decode_credentials _ _) as [c|e|]; intros H; injection H as <- <-;
        unfold with_credentials; cbn [api timeout reauthorize_count credentials];
        rewrite Hapi; repeat split.
    + intros H; injection H as <- <-. rewrite Hapi. repeat split.
  - destruct (invalid_user_exn e); intros H; injection H as <- <-;
      rewrite Hapi; repeat split.
  - intros H; injection H as <- <-. rewrite Hapi. repeat split.
Qed.

End Authentication.

(** ** The client: calls *)

Lemma calls_app (a b : list event) : calls (a ++ b) = (calls a + calls b)%nat.
Proof. unfold calls. rewrite filter_app, length_app. reflexivity. Qed.

Lemma authentications_app (a b : list event) :
  authentications (a ++ b) = (authentications a + authentications b)%nat.
Proof. unfold authentications. rewrite filter_app, length_app. reflexivity. Qed.

Lemma no_calls_same_call (method : value) (parameters : dict) (tr : list event) :
  calls tr = 0%nat -> same_call method parameters tr.
Proof.
  unfold calls, same_call. induction tr as [|ev tr IH]; [constructor|].
  simpl. destruct (is_call ev) eqn:E; simpl; [discriminate|].
  intros H. constructor; [congruence | exact (IH H)].
Qed.

Lemma same_call_app (method : value) (parameters : dict) (a b : list event) :
  same_call method parameters a -> same_call method parameters b ->
  same_call method parameters (a ++ b).
Proof. unfold same_call. intros Ha Hb. apply Forall_app. split; assumption. Qed.

Lemma after_each_split (P : event -> bool) (Q : list event -> Prop)
  (before : list event) (ev : event) (after : list event) :
  after_each P Q (before ++ ev :: after) -> P ev = true -> Q after.
Proof.
  induction before as [|x before IH]; simpl.
  - intros [H _]. exact H.
  - intros [_ H]. exact (IH H).
Qed.

Lemma process_returns (doc : value) : _process doc <> Diverge.
Proof.
  unfold _process. destruct (truthy doc); [|discriminate].
  destruct (py_in "error" doc) as [[|]|]; try discriminate.
  - destruct (subscript doc "error") eqn:Hs; try discriminate.
    intros _. exact (subscript_returns _ _ Hs).
  - destruct (py_in "result" doc) as [[|]|]; try discriminate.
    apply subscript_returns.
Qed.

Lemma reply_outcome_returns (s : value) (reply : http_reply) :
  reply_outcome s reply <> Diverge.
Proof. destruct reply; try discriminate. apply process_returns. Qed.

Section Calls.

Context {T : Transport}.

(** [call], step by step: the entry is logged; a missing method name
    raises; without a session [authenticate] runs first; then the
    request is dispatched. *)
Lemma call_body_run (self_call : value -> dict -> M value)
  (method : value) (parameters : dict) (st : State) :
  call_body self_call method parameters st
  = let st1 := logged st (EvCall method parameters) in
    if is_none method then (Raise (PyException "Exception"), st1)
    else if truthy (session_id (credentials (api st1)))
    then dispatch self_call method parameters st1
    else
      let '(lo, st2) := authenticate true st1 in
      match lo with
      | Return _ => dispatch self_call method parameters st2
      | Raise e => (Raise e, st2)
      | Diverge => (Diverge, st2)
      end.
Proof.
  unfold call_body, dispatch. run_monad. unfold logged, with_count, wire_params.
  cbv beta iota zeta.
  destruct (is_none method); [reflexivity|].
  match goal with
  | |- context [negb (truthy (session_id ?c))] =>
      destruct (truthy (session_id c)) eqn:Hs
  end; cbv beta iota delta [negb]; rewrite ?Hs.
  - destruct (query_self _ _ _) as [qo st3]. destruct qo as [result|e|]; try reflexivity.
    + destruct (is_none result); reflexivity.
    + unfold invalid_user_exn, authentication_error. destruct e; try reflexivity.
      destruct (eq_str _ _); [|reflexivity].
      destruct (_ && _); [|reflexivity].
      destruct (authenticate true _) as [ao st4]. destruct ao; reflexivity.
  - destruct (authenticate true _) as [lo st2]. destruct lo as [r|e|]; try reflexivity.
    destruct (query_self _ _ _) as [qo st3]. destruct qo as [result|e|]; try reflexivity.
    + destruct (is_none result); reflexivity.
    + unfold invalid_user_exn, authentication_error. destruct e; try reflexivity.
      destruct (eq_str _ _); [|reflexivity].
      destruct (_ && _); [|reflexivity].
      destruct (authenticate true _) as [ao st4]. destruct ao; reflexivity.
Qed.

Lemma dispatch_spec (self_call : value -> dict -> M value)
  (method : value) (parameters : dict) (st2 : State)
  (out : outcome value) (st' : State) :
  dispatch self_call method parameters st2 = (out, st') ->
  dispatch_settles st2 out st'
  \/ dispatch_reauthenticates self_call method parameters st2 out st'.
Proof.
  unfold dispatch. rewrite query_self_run.
  destruct (get_api_url (server (credentials (api (settled st2))))) as [url|e|] eqn:Hu.
  - destruct (post url _ _ _ _) as [reply w].
    pose proof (invalid_user_reply (server (credentials (api (settled st2)))) reply)
      as Hinv.
    pose proof (reply_outcome_returns (server (credentials (api (settled st2)))) reply)
      as Hret.
    set (st3 := mkState (api (settled st2)) w _).
    assert (Hc3 : reauthorize_count (api st3) = reauthorize_count (api st2))
      by (unfold st3; cbn [api]; apply settled_count).
    assert (Hp3 : password (credentials (api st3)) = password (credentials (api st2)))
      by (unfold st3; cbn [api];
          rewrite settled_credentials; apply default_server_password).
    destruct (reply_outcome _ reply) as [result|e|].
    + intros H; injection H as <- <-. left. split; [discriminate|].
      eexists. split.
      * instantiate (1 := [EvQuery url _ (verify_of url) reply]).
        destruct (negb (is_none result)); reflexivity.
      * right. do 4 eexists. split; [reflexivity|]. rewrite Hinv. discriminate.
    + destruct (invalid_user_exn e) eqn:He.
      * destruct (Z.eqb_spec (reauthorize_count (api st3)) 0) as [Hz|Hz].
        -- destruct (truthy (password (credentials (api st3)))) eqn:Hpw; cbn [andb].
           ++ destruct (authenticate true _) as [ao st4] eqn:Ha.
              intros H. right.
              exists url, (envelope method
                             (wire_params parameters (credentials (api st2)))),
                (verify_of url), reply,
                (with_count st3 (reauthorize_count (api st3) + 1)), ao, st4.
              split; [exact Hinv|]. split; [congruence|]. split; [congruence|].
              split; [reflexivity|].
              split; [unfold with_count; cbn [api reauthorize_count];
                      rewrite Hz; reflexivity|].
              split; [exact Ha|].
              destruct ao; [exact H | injection H as <- <-; split; reflexivity|].
              pose proof (authenticate_spec _ _ _ _ Ha) as Hs.
              apply (auth_returns _ _ _ Hs). reflexivity.
           ++ intros H; injection H as <- <-. left. split; [discriminate|].
              eexists. split; [reflexivity|]. right. do 4 eexists.
              split; [reflexivity|]. intros _. split; [|reflexivity].
              right. congruence.
        -- cbn [andb]. intros H; injection H as <- <-. left. split; [discriminate|].
           eexists. split; [reflexivity|]. right. do 4 eexists.
           split; [reflexivity|]. intros _. split; [|reflexivity].
           left. congruence.
      * intros H; injection H as <- <-. left. split; [discriminate|].
        eexists. split; [reflexivity|]. right. do 4 eexists.
        split; [reflexivity|]. rewrite Hinv. discriminate.
    + congruence.
  - destruct (get_api_url_raises _ _ Hu) as [kind ->]. cbn [invalid_user_exn].
    intros H; injection H as <- <-. left. split; [discriminate|].
    exists []. split; [rewrite settled_trace, app_nil_r; reflexivity|].
    left. split; [reflexivity | eexists; reflexivity].
  - exfalso. exact (get_api_url_returns _ Hu).
Qed.

Lemma no_retry_settles (self_call : value -> dict -> M value)
  (method : value) (parameters : dict) (st2 : State)
  (out : outcome value) (st' : State) :
  no_retry st2 ->
  dispatch self_call method parameters st2 = (out, st') ->
  dispatch_settles st2 out st'.
Proof.
  intros Hno Hd. destruct (dispatch_spec _ _ _ _ _ _ Hd) as [H|H]; [exact H|].
  destruct H as (url & env & v & reply & st3 & ao & st4 & _ & Hc & Hp & _).
  destruct Hno as [Hno|Hno]; congruence.
Qed.

Lemma attempt_spec (self_call : value -> dict -> M value)
  (method : value) (parameters : dict) (st : State)
  (out : outcome value) (st' : State) :
  no_retry st ->
  call_body self_call method parameters st = (out, st') ->
  attempt_post method parameters st out st'.
Proof.
  intros Hno. rewrite call_body_run. cbv zeta.
  set (st1 := logged st (EvCall method parameters)).
  assert (Hno1 : no_retry st1) by exact Hno.
  assert (Ht1 : trace st1 = trace st ++ [EvCall method parameters]) by reflexivity.
  destruct (is_none method).
  { intros H; injection H as <- <-. constructor; [discriminate|].
    exists []. rewrite Ht1. trace_facts. }
  change (credentials (api st1)) with (credentials (api st)).
  destruct (truthy (session_id (credentials (api st)))) eqn:Hs.
  - intros Hd. destruct (no_retry_settles _ _ _ _ _ _ Hno1 Hd) as [Hret [q [Htr Hq]]].
    constructor; [exact Hret|]. exists q.
    rewrite Htr, Ht1, <- app_assoc. split; [reflexivity|].
    destruct Hq as [[-> _] | (url & env & v & reply & -> & Hfail)]; trace_facts.
    apply Hfail. assumption.
  - destruct (authenticate true st1) as [lo st2] eqn:Ha.
    pose proof (authenticate_spec _ _ _ _ Ha) as [Hcnt Hlret Hpw _ [aq [Hatr Haq]]].
    assert (Hno2 : no_retry st2).
    { destruct Hno1 as [Hc|Hp]; [left; congruence|].
      right. destruct Hpw as [-> | ->]; [reflexivity | exact Hp]. }
    destruct lo as [r|e|].
    + intros Hd.
      destruct (no_retry_settles _ _ _ _ _ _ Hno2 Hd) as [Hret [q [Htr Hq]]].
      constructor; [exact Hret|]. exists (EvAuthenticate :: aq ++ q).
      split; [rewrite Htr, Hatr, Ht1, <- !app_assoc; reflexivity|].
      destruct Haq as [[-> [e He]] | (url & env & v & reply & -> & Hfail)];
        [discriminate He|].
      assert (Hnot : invalid_user reply = false).
      { destruct (invalid_user reply); [|reflexivity].
        specialize (Hfail eq_refl). discriminate Hfail. }
      destruct Hq as [[-> _] | (url' & env' & v' & reply' & -> & Hfail')];
        trace_facts; try congruence.
      apply Hfail'. assumption.
    + intros H; injection H as <- <-.
      constructor; [discriminate|]. exists (EvAuthenticate :: aq).
      split; [rewrite Hatr, Ht1, <- app_assoc; reflexivity|].
      destruct Haq as [[-> _] | (url & env & v & reply & -> & Hfail)];
        trace_facts; try congruence.
      match goal with
      | Hi : invalid_user reply = true |- _ =>
          specialize (Hfail Hi); injection Hfail as ->; reflexivity
      end.
    + congruence.
Qed.

(** The retry is reached with the counter at 1 only: two versions of
    the recursive call that agree there give the same [call]. *)
Lemma dispatch_ext (f g : value -> dict -> M value)
  (method : value) (parameters : dict) (st2 : State) :
  (forall st4, reauthorize_count (api st4) = 1%Z ->
               f method parameters st4 = g method parameters st4) ->
  dispatch f method parameters st2 = dispatch g method parameters st2.
Proof.
  intros Hfg. unfold dispatch.
  destruct (query_self _ _ _) as [qo st3]. destruct qo as [result|e|]; try reflexivity.
  destruct (invalid_user_exn e); [|reflexivity].
  destruct (Z.eqb_spec (reauthorize_count (api st3)) 0) as [Hz|Hz]; [|reflexivity].
  destruct (truthy (password (credentials (api st3)))); [|reflexivity].
  cbn [andb]. destruct (authenticate true _) as [ao st4] eqn:Ha.
  destruct ao; try reflexivity.
  apply Hfg. rewrite (auth_count _ _ _ (authenticate_spec _ _ _ _ Ha)).
  unfold with_count. cbn [api reauthorize_count]. rewrite Hz. reflexivity.
Qed.

Lemma call_body_ext (f g : value -> dict -> M value)
  (method : value) (parameters : dict) (st : State) :
  (forall st4, reauthorize_count (api st4) = 1%Z ->
               f method parameters st4 = g method parameters st4) ->
  call_body f method parameters st = call_body g method parameters st.
Proof.
  intros Hfg. rewrite !call_body_run. cbv zeta.
  destruct (is_none method); [reflexivity|].
  destruct (truthy _); [apply dispatch_ext; exact Hfg|].
  destruct (authenticate true _) as [lo st2]. destruct lo; try reflexivity.
  apply dispatch_ext; exact Hfg.
Qed.

(** A pass that cannot retry does not look at the recursive call. *)
Lemma call_body_no_retry (f g : value -> dict -> M value)
  (method : value) (parameters : dict) (st : State) :
  no_retry st ->
  call_body f method parameters st = call_body g method parameters st.
Proof.
  intros Hno.
  destruct (call_body f method parameters st) as [out st'] eqn:Hf.
  symmetry. revert Hf. rewrite !call_body_run. cbv zeta.
  destruct (is_none method); [auto|].
  assert (Hd : forall st2, no_retry st2 ->
                 dispatch f method parameters st2 = (out, st') ->
                 dispatch g method parameters st2 = (out, st')).
  { intros st2 Hno2 Hrun. rewrite <- Hrun. unfold dispatch.
    rewrite query_self_run.
    destruct (get_api_url _) as [url|e|]; try reflexivity.
    - destruct (post url _ _ _ _) as [reply w].
      destruct (reply_outcome _ reply) as [result|e|]; try reflexivity.
      destruct (invalid_user_exn e); [|reflexivity].
      cbn [api]. rewrite settled_count, settled_credentials, default_server_password.
      destruct Hno2 as [Hc|Hp].
      + destruct (Z.eqb_spec (reauthorize_count (api st2)) 0); [congruence|reflexivity].
      + rewrite Hp, andb_false_r. reflexivity.
    - destruct (invalid_user_exn e); [|reflexivity].
      rewrite settled_count, settled_credentials, default_server_password.
      destruct Hno2 as [Hc|Hp].
      + destruct (Z.eqb_spec (reauthorize_count (api st2)) 0); [congruence|reflexivity].
      + rewrite Hp, andb_false_r. reflexivity. }
  destruct (truthy _).
  - apply Hd. exact Hno.
  - destruct (authenticate true _) as [lo st2] eqn:Ha.
    pose proof (authenticate_spec _ _ _ _ Ha) as [Hcnt _ Hpw _ _].
    destruct lo; auto. apply Hd.
    destruct Hno as [Hc|Hp]; [left; rewrite Hcnt; exact Hc|].
    right. destruct Hpw as [-> | ->]; [reflexivity | exact Hp].
Qed.

(** Two rounds of fuel are all a call can use: more fuel changes
    nothing, and the call does not run out of it. *)
Lemma call_fuel_enough (n : nat) (method : value) (parameters : dict) (st : State) :
  call_fuel (S (S n)) method parameters st = call method parameters st.
Proof.
  unfold call. cbn [call_fuel]. apply call_body_ext.
  intros st4 Hc. apply call_body_no_retry. left. rewrite Hc. discriminate.
Qed.

Lemma dispatch_call_spec (method : value) (parameters : dict) (st2 : State)
  (out : outcome value) (st' : State) :
  dispatch (call_fuel 1) method parameters st2 = (out, st') ->
  out <> Diverge
  /\ exists tr,
       trace st' = trace st2 ++ tr
       /\ (calls tr <= 1)%nat
       /\ same_call method parameters tr
       /\ (tr = []
           \/ exists url env v reply rest,
               tr = EvQuery url env v reply :: rest
               /\ (invalid_user reply = true ->
                   reauthorize_count (api st2) = 0%Z ->
                   truthy (password (credentials (api st2))) = true ->
                   retry_post method parameters rest out st')).
Proof.
  intros Hd. destruct (dispatch_spec _ _ _ _ _ _ Hd) as [Hs|Hr].
  - destruct Hs as [Hret [q [Htr Hq]]]. split; [exact Hret|].
    exists q. split; [exact Htr|].
    destruct Hq as [[-> _] | (url & env & v & reply & -> & Hfail)].
    + split; [cbn; lia|]. split; [constructor|]. left. reflexivity.
    + split; [cbn; lia|]. split; [apply no_calls_same_call; reflexivity|].
      right. exists url, env, v, reply, []. split; [reflexivity|].
      intros Hi Hc Hp. destruct (Hfail Hi) as [[Hno|Hno] _]; congruence.
  - destruct Hr as (url & env & v & reply & st3 & ao & st4
                    & Hi & Hc & Hp & Ht3 & Hc3 & Ha & Hao).
    pose proof (authenticate_spec _ _ _ _ Ha) as [Hcnt Haret _ _ [aq [Hatr Haq]]].
    assert (Haq0 : calls aq = 0%nat /\ authentications aq = 0%nat).
    { destruct Haq as [[-> _] | (u & e & b & r & -> & _)]; split; reflexivity. }
    destruct Haq0 as [Hcalls Hauths].
    destruct ao as [r|e|]; [|destruct Hao as [-> ->]|contradiction].
    + assert (Hno4 : no_retry st4) by (left; rewrite Hcnt, Hc3; discriminate).
      cbn [call_fuel] in Hao.
      destruct (attempt_spec _ _ _ _ _ _ Hno4 Hao)
        as [Hret [tr2 (Htr & Hc2 & Ha2 & _ & Hq2 & Hf2)]].
      split; [exact Hret|].
      exists (EvQuery url env v reply
              :: EvAuthenticate :: aq ++ EvCall method parameters :: tr2).
      split; [rewrite Htr, Hatr, Ht3, <- !app_assoc; reflexivity|].
      split.
      { change (calls (EvAuthenticate :: aq ++ EvCall method parameters :: tr2)
                <= 1)%nat.
        change (calls (aq ++ EvCall method parameters :: tr2) <= 1)%nat.
        rewrite calls_app. change (calls aq + S (calls tr2) <= 1)%nat. lia. }
      split.
      { constructor; [discriminate|]. constructor; [discriminate|].
        apply same_call_app; [apply no_calls_same_call; exact Hcalls|].
        constructor; [reflexivity | apply no_calls_same_call; exact Hc2]. }
      right. exists url, env, v, reply,
               (EvAuthenticate :: aq ++ EvCall method parameters :: tr2).
      split; [reflexivity|]. intros _ _ _.
      exists aq. split; [exact Hcalls|]. split; [exact Hauths|].
      right. exists tr2. repeat split; assumption.
    + split; [discriminate|].
      exists (EvQuery url env v reply :: EvAuthenticate :: aq).
      split; [rewrite Hatr, Ht3, <- !app_assoc; reflexivity|].
      split; [change (calls aq <= 1)%nat; lia|].
      split.
      { constructor; [discriminate|]. constructor; [discriminate|].
        apply no_calls_same_call; exact Hcalls. }
      right. exists url, env, v, reply, (EvAuthenticate :: aq).
      split; [reflexivity|]. intros _ _ _.
      exists aq. split; [exact Hcalls|]. split; [exact Hauths|].
      left. split; [reflexivity | eexists; reflexivity].
Qed.

(** Every run of [call]: it comes to an end; [call] is entered once
    more at most, for the same call; and a first request answered with
    an invalid-user error goes through [retry_post]. *)
Lemma call_spec (method : value) (parameters : dict) (st : State)
  (out : outcome value) (st' : State) :
  call method parameters st = (out, st') ->
  out <> Diverge
  /\ exists tr,
       trace st' = trace st ++ EvCall method parameters :: tr
       /\ (calls tr <= 1)%nat
       /\ same_call method parameters tr
       /\ (forall url env v reply rest,
             tr = EvQuery url env v reply :: rest ->
             invalid_user reply = true ->
             reauthorize_count (api st) = 0%Z ->
             truthy (password (credentials (api st))) = true ->
             retry_post method parameters rest out st').
Proof.
  unfold call. cbn [call_fuel]. rewrite call_body_run. cbv zeta.
  set (st1 := logged st (EvCall method parameters)).
  assert (Ht1 : trace st1 = trace st ++ [EvCall method parameters]) by reflexivity.
  destruct (is_none method).
  { intros H; injection H as <- <-. split; [discriminate|].
    exists []. rewrite Ht1. split; [reflexivity|]. split; [cbn; lia|].
    split; [constructor|]. discriminate. }
  destruct (truthy (session_id (credentials (api st1)))).
  - intros Hd.
    destruct (dispatch_call_spec _ _ _ _ _ Hd) as [Hret [tr (Htr & Hc & Hsame & Hshape)]].
    split; [exact Hret|]. exists tr.
    split; [rewrite Htr, Ht1, <- app_assoc; reflexivity|].
    split; [exact Hc|]. split; [exact Hsame|].
    intros url env v reply rest -> Hi Hz Hp.
    destruct Hshape as [Hnil | (url' & env' & v' & reply' & rest' & Heq & Hretry)];
      [discriminate Hnil|].
    injection Heq as <- <- <- <- <-. exact (Hretry Hi Hz Hp).
  - destruct (authenticate true st1) as [lo st2] eqn:Ha.
    pose proof (authenticate_spec _ _ _ _ Ha) as [_ Haret _ _ [aq [Hatr Haq]]].
    assert (Hcalls : calls aq = 0%nat).
    { destruct Haq as [[-> _] | (u & e & b & r & -> & _)]; reflexivity. }
    destruct lo as [r|e|].
    + intros Hd.
      destruct (dispatch_call_spec _ _ _ _ _ Hd) as [Hret [tr (Htr & Hc & Hsame & _)]].
      split; [exact Hret|]. exists (EvAuthenticate :: aq ++ tr).
      split; [rewrite Htr, Hatr, Ht1, <- !app_assoc; reflexivity|].
      split; [change (calls (aq ++ tr) <= 1)%nat; rewrite calls_app; lia|].
      split; [|discriminate].
      constructor; [discriminate|].
      apply same_call_app; [apply no_calls_same_call; exact Hcalls | exact Hsame].
    + intros H; injection H as <- <-. split; [discriminate|].
      exists (EvAuthenticate :: aq).
      split; [rewrite Hatr, Ht1, <- app_assoc; reflexivity|].
      split; [change (calls aq <= 1)%nat; lia|].
      split; [|discriminate].
      constructor; [discriminate|]. apply no_calls_same_call; exact Hcalls.
    + congruence.
Qed.

End Calls.

(** ** The client: the claims about [call] *)

Section CallClaims.

Context {T : Transport}.

Lemma attempt_refused (method : value) (parameters : dict) (st : State)
  (out : outcome value) (st' : State) :
  attempt_post method parameters st out st' ->
  refused_at_once method parameters st out st'.
Proof.
  intros [Hret [tr (Htr & Hc & _ & Hs & Hq & Hf)]].
  split; [exact Hret|]. exists tr.
  split; [exact Htr|]. split; [exact Hc|]. split; [exact Hs|]. split.
  - intros before ev after -> Hev. exact (after_each_split _ _ _ _ _ Hq Hev).
  - intros before ev after -> Hev. exact (after_each_split _ _ _ _ _ Hf Hev).
Qed.

Lemma call_refused_without_password (method : value) (parameters : dict)
  (st : State) (out : outcome value) (st' : State) :
  truthy (password (credentials (api st))) = false ->
  call method parameters st = (out, st') ->
  refused_at_once method parameters st out st'.
Proof.
  intros Hp Hcall. apply attempt_refused.
  unfold call in Hcall. cbn [call_fuel] in Hcall.
  apply (attempt_spec _ _ _ _ _ _ (or_intror Hp) Hcall).
Qed.




(** C2.  When the credentials hold no password, a call whose request is
    answered with an invalid-user error is refused at once: [call] is
    not entered again, no authentication follows the request, the
    invalid-user reply is the last event, and the error raised is the
    authentication error made of user name, database and server. *)
Theorem call_without_password_raises_at_once :
  forall (st : State) (method : value) (parameters : dict)
         (out : outcome value) (st' : State),
    truthy (password (credentials (api st))) = false ->
    call method parameters st = (out, st') ->
    refused_at_once method parameters st out st'.
Proof.
  intros st method parameters out st' Hp Hcall.
  exact (call_refused_without_password method parameters st out st' Hp Hcall).
Qed.

(** C10.  The credentials a successful [authenticate] stores and
    returns have no password, whatever the password was before; and
    every later call made under these credentials that meets an
    invalid-user error is refused at once. *)
Theorem authenticate_drops_password :
  forall (is_global : bool) (st : State) (c : Credentials) (st1 : State),
    authenticate is_global st = (Return (Some c), st1) ->
    credentials (api st1) = c
    /\ password c = VNone
    /\ forall (st2 : State) (method : value) (parameters : dict)
              (out : outcome value) (st' : State),
         credentials (api st2) = c ->
         call method parameters st2 = (out, st') ->
         refused_at_once method parameters st2 out st'.
Proof.
  intros is_global st c st1 Ha.
  destruct (auth_success _ _ _ (authenticate_spec _ _ _ _ Ha) c eq_refl) as [Hc Hp].
  split; [exact Hc|]. split; [exact Hp|].
  intros st2 method parameters out st' Hc2 Hcall.
  apply call_refused_without_password; [|exact Hcall].
  rewrite Hc2, Hp. reflexivity.
Qed.

End CallClaims.



(** A new client, with a password and no session: the call
    authenticates first, the credentials it gets have no password, and
    the invalid-user reply to its request raises the authentication
    error at once, with no second authentication and no retry. *)
Lemma call_new_client_refused :
  let st := client VNone (VStr "pw") 0
              [authenticated_reply_doc "s1"; invalid_user_reply_doc] in
  let r := call (VStr "Get") [("type_name", VStr "Device")] st in
  reauthorize_count (api st) = 0%Z
  /\ truthy (password (credentials (api st))) = true
  /\ List.map is_failure (new_events st (snd r)) = [false; false; false; true]
  /\ List.map is_authenticate (new_events st (snd r)) = [false; true; false; false]
  /\ calls (new_events st (snd r)) = 1%nat
  /\ password (credentials (api (snd r))) = VNone
  /\ fst r = Raise (AuthenticationException (VStr "user@example.com")
                      (VStr "db") (VStr "my.geotab.com")).
Proof. vm_compute. repeat split. Qed.

Lemma call_without_password_run :
  let st := client (VStr "s1") VNone 0 [invalid_user_reply_doc] in
  let method := VStr "Get" in
  let parameters := [("type_name", VStr "Device")] in
  let r := call method parameters st in
  truthy (password (credentials (api st))) = false
  /\ call method parameters st = (fst r, snd r)
  /\ List.map is_failure (new_events st (snd r)) = [false; true]
  /\ fst r = Raise (AuthenticationException (VStr "user@example.com") (VStr "db")
                      (VStr "my.geotab.com"))
  /\ refused_at_once method parameters st (fst r) (snd r).
Proof.
  intros st method parameters r.
  assert (Hrun : call method parameters st = (fst r, snd r))
    by (unfold r; destruct (call method parameters st); reflexivity).
  split; [reflexivity|]. split; [exact Hrun|].
  split; [reflexivity|]. split; [reflexivity|].
  exact (@call_without_password_raises_at_once scripted st method parameters
           (fst r) (snd r) eq_refl Hrun).
Defined.

Lemma authenticate_drops_password_run :
  let st := client VNone (VStr "pw") 0 [authenticated_reply_doc "s2"] in
  let c := mkCredentials (VStr "user@example.com") (VStr "s2") (VStr "db")
             (VStr "my.geotab.com") VNone in
  let st1 := snd (authenticate true st) in
  password (credentials (api st)) = VStr "pw"
  /\ authenticate true st = (Return (Some c), st1)
  /\ credentials (api st1) = c
  /\ password c = VNone
  /\ forall (st2 : @State scripted) (method : value) (parameters : dict)
            (out : outcome value) (st' : State),
       credentials (api st2) = c ->
       call method parameters st2 = (out, st') ->
       refused_at_once method parameters st2 out st'.
Proof.
  intros st c st1.
  assert (Hrun : authenticate true st = (Return (Some c), st1)) by reflexivity.
  split; [reflexivity|]. split; [exact Hrun|].
  exact (@authenticate_drops_password scripted true st c st1 Hrun).
Defined.

(** ** Batches and [get] *)

Lemma format_calls_tuples (tuples : list (list value)) :
  Forall (fun c => c <> []) tuples ->
  format_calls tuples = Return (List.map format_call tuples).
Proof.
  induction tuples as [|c rest IH]; intros H; [reflexivity|].
  apply Forall_cons_iff in H. destruct H as [Hc Hrest].
  destruct c as [|method tail]; [congruence|].
  cbn [format_calls List.map]. rewrite (IH Hrest).
  destruct tail; reflexivity.
Qed.

Section Batch.

Context {T : Transport}.

(** C9.  For call tuples (each with its method at least),
    [multi_call] builds one entry [{method, params}] per tuple, in the
    order of the tuples, with an empty mapping for omitted parameters;
    it makes one call of [call], for the method "ExecuteMultiCall" with
    this list as the parameter "calls", which normalisation leaves as
    it is; every entry of [call] in the run is that call. *)
Theorem multi_call_delegates :
  forall (tuples : list (list value)) (st : State),
    Forall (fun c => c <> []) tuples ->
    let formatted := List.map format_call tuples in
    format_calls tuples = Return formatted
    /\ List.length formatted = List.length tuples
    /\ (forall i, nth_error formatted i = option_map format_call (nth_error tuples i))
    /\ multi_call tuples st
       = call (VStr "ExecuteMultiCall") [("calls", VList formatted)] st
    /\ process_parameters (Some [("calls", VList formatted)])
       = [("calls", VList formatted)]
    /\ forall out st',
         multi_call tuples st = (out, st') ->
         out <> Diverge
         /\ exists tr,
              trace st' = trace st
                          ++ EvCall (VStr "ExecuteMultiCall")
                               [("calls", VList formatted)] :: tr
              /\ (calls tr <= 1)%nat
              /\ same_call (VStr "ExecuteMultiCall")
                   [("calls", VList formatted)] tr.
Proof.
  intros tuples st Hne formatted.
  pose proof (format_calls_tuples tuples Hne) as Hf.
  assert (Hrun : multi_call tuples st
                 = call (VStr "ExecuteMultiCall") [("calls", VList formatted)] st).
  { unfold multi_call, bind, lift. rewrite Hf. reflexivity. }
  split; [exact Hf|].
  split; [apply length_map|].
  split; [intros i; apply nth_error_map|].
  split; [exact Hrun|].
  split; [reflexivity|].
  intros out st' H. rewrite Hrun in H.
  destruct (call_spec _ _ _ _ _ H) as [Hret [tr (Htr & Hc & Hsame & _)]].
  split; [exact Hret|]. exists tr. repeat split; assumption.
Qed.

End Batch.

Lemma multi_call_delegates_run :
  let tuples :=
    [[VStr "Get"; VDict [("typeName", VStr "Trip")]];
     [VStr "Get"; VDict [("typeName", VStr "Device")]];
     [VStr "GetVersion"]] in
  let formatted :=
    [VDict [("method", VStr "Get"); ("params", VDict [("typeName", VStr "Trip")])];
     VDict [("method", VStr "Get"); ("params", VDict [("typeName", VStr "Device")])];
     VDict [("method", VStr "GetVersion"); ("params", VDict [])]] in
  let st := client (VStr "s1") VNone 0 [result_reply_doc (VList [VInt 1; VInt 2; VInt 3])] in
  Forall (fun c : list value => c <> []) tuples
  /\ format_calls tuples = Return formatted
  /\ multi_call tuples st
     = call (VStr "ExecuteMultiCall") [("calls", VList formatted)] st
  /\ new_events st (snd (multi_call tuples st))
     = [EvCall (VStr "ExecuteMultiCall") [("calls", VList formatted)];
        EvQuery "https://my.geotab.com/apiv1"
          (envelope (VStr "ExecuteMultiCall")
             [("calls", VList formatted);
              ("credentials",
               VDict [("userName", VStr "user@example.com");
                      ("sessionId", VStr "s1"); ("database", VStr "db")])])
          true (result_reply_doc (VList [VInt 1; VInt 2; VInt 3]))]
  /\ fst (multi_call tuples st) = Return (VList [VInt 1; VInt 2; VInt 3]).
Proof.
  intros tuples formatted st.
  assert (Hne : Forall (fun c : list value => c <> []) tuples)
    by (repeat constructor; discriminate).
  destruct (@multi_call_delegates scripted tuples st Hne)
    as (Hf & _ & _ & Hrun & _).
  split; [exact Hne|]. split; [exact Hf|]. split; [exact Hrun|].
  split; reflexivity.
Defined.

(** C5.  [get] lifts "resultsLimit" out of the keyword arguments and
    merges the entries of a nested "search" mapping into them, but the
    "search" entry itself stays: the search criteria handed to [call],
    and posted, hold the caller's nested mapping under the key "search"
    next to its merged entries. *)
Theorem get_keeps_nested_search_key :
  let nested := VDict [("id", VStr "b1")] in
  let parameters := [("search", nested); ("resultsLimit", VInt 10)] in
  let st := client (VStr "s1") VNone 0 [result_reply_doc (VList [])] in
  get_parameters (VStr "Device") parameters
  = Return [("type_name", VStr "Device");
            ("search", VDict [("search", nested); ("id", VStr "b1")]);
            ("resultsLimit", VInt 10)]
  /\ new_events st (snd (get (VStr "Device") parameters st))
     = [EvCall (VStr "Get")
          [("type_name", VStr "Device");
           ("search", VDict [("search", nested); ("id", VStr "b1")]);
           ("resultsLimit", VInt 10)];
        EvQuery "https://my.geotab.com/apiv1"
          (envelope (VStr "Get")
             [("search", VDict [("search", nested); ("id", VStr "b1")]);
              ("resultsLimit", VInt 10);
              ("typeName", VStr "Device");
              ("credentials",
               VDict [("userName", VStr "user@example.com");
                      ("sessionId", VStr "s1"); ("database", VStr "db")])])
          true (result_reply_doc (VList []))]
  /\ fst (get (VStr "Device") parameters st)
     = Return (mkEntityList [] (VStr "Device")).
Proof. repeat split. Qed.

(** ** The object store and the values agree *)

Lemma read_object_mono (f g : nat -> option dict) (o : Store.object) (d : dict) :
  (forall b x, f b = Some x -> g b = Some x) ->
  Store.read_object f o = Some d -> Store.read_object g o = Some d.
Proof.
  intros Hfg. revert d. induction o as [|[k s] o IH]; intros d; [exact (fun H => H)|].
  cbn [Store.read_object]. unfold Store.read_slot. cbn [fst snd].
  destruct s as [b|v].
  - destruct (f b) as [x|] eqn:Hf; [|discriminate]. rewrite (Hfg b x Hf). cbn.
    destruct (Store.read_object f o) as [d'|]; [|discriminate].
    rewrite (IH d' eq_refl). exact (fun H => H).
  - destruct v; cbn; try discriminate;
      (destruct (Store.read_object f o) as [d'|]; [|discriminate];
       rewrite (IH d' eq_refl); exact (fun H => H)).
Qed.

Lemma read_extends (m : nat) :
  forall (h h' : Store.store) (b : nat) (x : dict),
    extends h h' -> Store.read m h b = Some x -> Store.read m h' b = Some x.
Proof.
  induction m as [|m IH]; intros h h' b x Hext; [discriminate|].
  cbn [Store.read]. destruct (nth_error h b) as [o|] eqn:Hb; [|discriminate].
  destruct Hext as [ext ->].
  rewrite nth_error_app1 by (apply nth_error_Some; congruence). rewrite Hb.
  apply read_object_mono. intros b' x'. apply IH. eexists; reflexivity.
Qed.

Lemma nth_error_modify_same (p : nat) (f : Store.object -> Store.object)
  (h : Store.store) (P : Store.object) :
  nth_error h p = Some P -> nth_error (Store.modify p f h) p = Some (f P).
Proof.
  revert p. induction h as [|o h IH]; intros p; destruct p; simpl; try discriminate.
  - intros H; injection H as ->. reflexivity.
  - apply IH.
Qed.

Lemma nth_error_modify_other (p c : nat) (f : Store.object -> Store.object)
  (h : Store.store) :
  c <> p -> nth_error (Store.modify p f h) c = nth_error h c.
Proof.
  revert p c. induction h as [|o h IH]; intros p c Hne; destruct p; simpl;
    try reflexivity.
  - destruct c; [congruence | reflexivity].
  - destruct c; [reflexivity|]. simpl. apply IH. congruence.
Qed.

Lemma range_stable_mono (m : nat) (h h' : Store.store) (b : nat) (x : dict) :
  agree_from b h h' -> (List.length h <= List.length h')%nat ->
  range_stable m h b x -> range_stable m h' b x.
Proof.
  intros Hagree Hlen Hst h2 H2. apply Hst. intros c Hb Hc.
  rewrite (H2 c Hb) by lia. apply Hagree; assumption.
Qed.

Lemma extends_length (h h' : Store.store) :
  extends h h' -> (List.length h <= List.length h')%nat.
Proof. intros [ext ->]. rewrite length_app. lia. Qed.

Lemma extends_nth (h h' : Store.store) (c : nat) :
  extends h h' -> (c < List.length h)%nat -> nth_error h' c = nth_error h c.
Proof. intros [ext ->] Hc. apply nth_error_app1. exact Hc. Qed.

Section DictShape.

Context {A B : Type}.
Variable R : string * A -> string * B -> Prop.
Hypothesis R_key : forall e e', R e e' -> fst e = fst e'.

Lemma forall2_dict_set (k : string) (s : A) (v : B) P Q :
  Forall2 R P Q -> R (k, s) (k, v) ->
  Forall2 R (dict_set k s P) (dict_set k v Q).
Proof.
  intros H Hnew. induction H as [|[k1 s1] [k1' v1] P Q Hhd Htl IH]; cbn [dict_set].
  - constructor; [exact Hnew | constructor].
  - pose proof (R_key _ _ Hhd) as Hk. cbn in Hk. subst k1'.
    destruct (String.eqb_spec k k1) as [->|Hne].
    + constructor; [exact Hnew | exact Htl].
    + constructor; [exact Hhd | exact IH].
Qed.

Lemma forall2_dict_del (k : string) P Q :
  Forall2 R P Q -> Forall2 R (dict_del k P) (dict_del k Q).
Proof.
  unfold dict_del. intros H.
  induction H as [|[k1 s1] [k1' v1] P Q Hhd Htl IH]; cbn [List.filter fst].
  - constructor.
  - pose proof (R_key _ _ Hhd) as Hk. cbn in Hk. subst k1'.
    destruct (negb (String.eqb k k1)); [constructor; assumption | exact IH].
Qed.

End DictShape.

Lemma in_keys_dict_set {V : Type} (k : string) (v : V) (d : list (string * V))
  (x : string) :
  In x (keys (dict_set k v d)) -> x = k \/ In x (keys d).
Proof.
  induction d as [|[k1 v1] d IH]; cbn [dict_set keys List.map fst].
  - intros [<-|[]]. now left.
  - destruct (String.eqb_spec k k1) as [->|Hne]; cbn [List.map fst In].
    + intros [<-|H]; right; [now left | now right].
    + intros [<-|H]; [right; now left|].
      destruct (IH H) as [->|H']; [now left | right; now right].
Qed.

Lemma keys_dict_set {V : Type} (k : string) (v : V) (d : list (string * V)) :
  NoDup (keys d) -> NoDup (keys (dict_set k v d)).
Proof.
  induction d as [|[k1 v1] d IH]; intros Hnd; cbn [dict_set].
  - repeat constructor. intros [].
  - cbn [keys List.map fst] in Hnd. apply NoDup_cons_iff in Hnd.
    destruct Hnd as [H1 Hnd].
    destruct (String.eqb_spec k k1) as [->|Hne].
    + constructor; assumption.
    + cbn [keys List.map fst]. constructor; [|exact (IH Hnd)].
      intros H. destruct (in_keys_dict_set k v d k1 H) as [->|H'];
        [congruence | contradiction].
Qed.

Lemma keys_dict_del {V : Type} (k : string) (d : list (string * V)) :
  NoDup (keys d) -> NoDup (keys (dict_del k d)).
Proof.
  unfold dict_del, keys. induction d as [|[k1 v1] d IH]; cbn [List.filter List.map fst].
  - constructor.
  - intros Hnd. apply NoDup_cons_iff in Hnd. destruct Hnd as [H1 Hnd].
    destruct (negb (String.eqb k k1)); [|exact (IH Hnd)].
    cbn [List.map fst]. constructor; [|exact (IH Hnd)].
    intros H. apply H1. apply in_map_iff in H. destruct H as [[k2 v2] [<- H]].
    apply filter_In in H. destruct H as [H _]. apply (in_map fst) in H. exact H.
Qed.

Lemma slot_rel_key m p todo h e e' : slot_rel m p todo h e e' -> fst e = fst e'.
Proof. intros [H _]. exact H. Qed.

Lemma slot_rel_store m p todo h h' P Q :
  (forall b x, (p < b)%nat -> range_stable m h b x -> range_stable m h' b x) ->
  Forall2 (slot_rel m p todo h) P Q -> Forall2 (slot_rel m p todo h') P Q.
Proof.
  intros Hst H. induction H as [|[k s] [k' v] P Q Hhd Htl IH]; constructor;
    [|exact IH].
  destruct Hhd as [Hk Hs]. split; [exact Hk|]. cbn [snd fst] in *.
  destruct s as [b|v0]; [|exact Hs].
  destruct Hs as [Hold | [Hb [x [Hv Hx]]]]; [left; exact Hold|].
  right. split; [exact Hb|]. exists x. split; [exact Hv | exact (Hst b x Hb Hx)].
Qed.

(** Once the key [k] has its new value, or is gone, the rest of the
    loop has no old reference under [k] to care for. *)
Lemma slot_rel_forget m p k rest h P Q :
  Forall2 (slot_rel m p (k :: rest) h) P Q ->
  ~ In k (keys P) ->
  Forall2 (slot_rel m p rest h) P Q.
Proof.
  intros H. induction H as [|[k1 s] [k1' v] P Q Hhd Htl IH]; intros Hk;
    constructor.
  - destruct Hhd as [Hkey Hs]. split; [exact Hkey|]. cbn [snd fst] in *.
    destruct s as [b|v0]; [|exact Hs].
    destruct Hs as [[Hb [Heq|Hin]] | Hnew]; [|left; split; assumption|right; exact Hnew].
    exfalso. apply Hk. left. symmetry. exact Heq.
  - apply IH. intros Hin. apply Hk. right. exact Hin.
Qed.

Lemma slot_rel_set_same m p k rest h P Q s v :
  Forall2 (slot_rel m p (k :: rest) h) P Q ->
  NoDup (keys P) ->
  slot_rel m p rest h (k, s) (k, v) ->
  Forall2 (slot_rel m p rest h) (dict_set k s P) (dict_set k v Q).
Proof.
  intros H. induction H as [|[k1 s1] [k1' v1] P Q Hhd Htl IH]; intros Hnd Hnew;
    cbn [dict_set].
  - constructor; [exact Hnew | constructor].
  - pose proof (slot_rel_key _ _ _ _ _ _ Hhd) as Hk. cbn in Hk. subst k1'.
    cbn [keys List.map fst] in Hnd. apply NoDup_cons_iff in Hnd.
    destruct Hnd as [Hfresh Hnd].
    destruct (String.eqb_spec k k1) as [->|Hne].
    + constructor; [exact Hnew|]. eapply slot_rel_forget; eassumption.
    + constructor; [|exact (IH Hnd Hnew)].
      destruct Hhd as [Hkey Hs]. split; [exact Hkey|]. cbn [snd fst] in *.
      destruct s1 as [b|v0]; [|exact Hs].
      destruct Hs as [[Hb [Heq|Hin]] | Hnw];
        [congruence | left; split; assumption | right; exact Hnw].
Qed.

Lemma not_in_keys_del {V : Type} (k : string) (d : list (string * V)) :
  ~ In k (keys (dict_del k d)).
Proof.
  unfold dict_del, keys. intros H. apply in_map_iff in H.
  destruct H as [[k1 v1] [Hk H]]. apply filter_In in H. destruct H as [_ H].
  cbn in Hk, H. subst k1. rewrite String.eqb_refl in H. discriminate H.
Qed.

Lemma later_refl p h : later p h h.
Proof. split; [lia | reflexivity]. Qed.

Lemma later_trans p h1 h2 h3 : later p h1 h2 -> later p h2 h3 -> later p h1 h3.
Proof.
  intros [L1 A1] [L2 A2]. split; [lia|].
  intros c Hc Hlt. rewrite A2 by (auto; lia). apply A1; assumption.
Qed.

Lemma later_extends p h h' : extends h h' -> later p h h'.
Proof.
  intros Hext. split; [apply extends_length; exact Hext|].
  intros c _ Hc. apply extends_nth; assumption.
Qed.

Lemma later_modify p f h : later p h (Store.modify p f h).
Proof.
  split; [rewrite modify_length; lia|].
  intros c Hc _. apply nth_error_modify_other. exact Hc.
Qed.

Lemma later_stable m p h h' b x :
  later p h h' -> (p < b)%nat -> range_stable m h b x -> range_stable m h' b x.
Proof.
  intros [Hlen Hag] Hb. apply range_stable_mono; [|exact Hlen].
  intros c Hbc Hc. apply Hag; [lia | exact Hc].
Qed.

Section StoreAgrees.

Variable m : nat.

Hypothesis recur_agrees :
  forall (h : Store.store) (a : nat) (d : dict),
    valid (VDict d) ->
    Store.read m h a = Some d ->
    exists h',
      Store.process_parameters m h a = (h', Some (List.length h))
      /\ extends h h'
      /\ range_stable m h' (List.length h) (process_parameters (Some d)).

Variables (h0 : Store.store) (a : nat) (o : Store.object).
Hypothesis argument : nth_error h0 a = Some o.

Let p := List.length h0.

Lemma round_agrees (k : string) (s : Store.slot) (v : value) (rest : list string)
  (hcur : Store.store) (P : Store.object) (Q : dict) :
  dict_get k o = Some s ->
  Store.read_slot (Store.read m h0) (k, s) = Some (k, v) ->
  valid v ->
  extends h0 hcur ->
  nth_error hcur p = Some P ->
  NoDup (keys P) ->
  Forall2 (slot_rel m p (k :: rest) hcur) P Q ->
  exists h' P',
    Store.round (Store.process_parameters m) a p hcur k = (h', Some tt)
    /\ extends h0 h'
    /\ nth_error h' p = Some P'
    /\ NoDup (keys P')
    /\ Forall2 (slot_rel m p rest h') P' (process_entry process_value Q (k, v)).
Proof.
  intros Hget Hread Hvalid Hext Hp Hnd Hrel.
  assert (Ha : nth_error hcur a = Some o).
  { rewrite (extends_nth h0 hcur a Hext); [exact argument|].
    apply nth_error_Some. rewrite argument. discriminate. }
  unfold Store.round. rewrite Ha, Hget.
  (* the value of the entry, and the store it leaves *)
  assert (Hvalue :
    exists hi snew,
      (match s with
       | Store.Ref nested =>
           let '(h, r) := Store.process_parameters m hcur nested in
           (h, option_map Store.Ref r)
       | Store.Atom _ => (hcur, Some s)
       end) = (hi, Some snew)
      /\ extends hcur hi
      /\ forall h', later p hi h' ->
           slot_rel m p rest h' (camel k, snew) (camel k, process_value v)).
  { destruct s as [b|v0].
    - unfold Store.read_slot in Hread. cbn [fst snd] in Hread.
      destruct (Store.read m h0 b) as [x|] eqn:Hb; [|discriminate].
      cbn in Hread. injection Hread as <-.
      assert (Hvx : valid (VDict x)) by exact Hvalid.
      destruct (recur_agrees hcur b x Hvx (read_extends m h0 hcur b x Hext Hb))
        as [hi (Hrun & Hexti & Hst)].
      exists hi, (Store.Ref (List.length hcur)). rewrite Hrun.
      split; [reflexivity|]. split; [exact Hexti|].
      intros h' Hlater. split; [reflexivity|]. cbn [snd fst].
      assert (Hlt : (p < List.length hcur)%nat).
      { apply nth_error_Some. rewrite Hp. discriminate. }
      right. split; [exact Hlt|].
      exists (process_parameters (Some x)).
      split; [apply process_value_unfold|].
      exact (later_stable m p hi h' _ _ Hlater Hlt Hst).
    - exists hcur, (Store.Atom v0). split; [reflexivity|].
      split; [apply extends_refl|].
      intros h' _. unfold Store.read_slot in Hread. cbn [fst snd] in Hread.
      assert (Hv : v = v0 /\ is_dict v0 = false).
      { destruct v0; try discriminate; injection Hread as <-; split; reflexivity. }
      destruct Hv as [-> Hnd0]. split; [reflexivity|]. cbn [snd fst].
      assert (Hpv : process_value v0 = v0) by (destruct v0; try reflexivity; discriminate).
      rewrite Hpv. split; [reflexivity | exact Hnd0]. }
  destruct Hvalue as (hi & snew & -> & Hexti & Hnew).
  assert (Hpi : nth_error hi p = Some P).
  { rewrite (extends_nth hcur hi p Hexti); [exact Hp|].
    apply nth_error_Some. rewrite Hp. discriminate. }
  assert (Hext0 : extends h0 hi) by (eapply extends_trans; eassumption).
  assert (Hreli : forall h', later p hi h' ->
                    Forall2 (slot_rel m p (k :: rest) h') P Q).
  { intros h' Hl. apply (slot_rel_store m p (k :: rest) hcur h'); [|exact Hrel].
    intros b x Hb. apply (later_stable m p hcur h' b x); [|exact Hb].
    eapply later_trans; [apply later_extends; exact Hexti | exact Hl]. }
  unfold process_entry. rewrite process_entry_value.
  set (h1 := Store.modify p (dict_set (camel k) snew) hi).
  assert (Hl1 : later p hi h1) by apply later_modify.
  assert (Hp1 : nth_error h1 p = Some (dict_set (camel k) snew P))
    by (apply nth_error_modify_same; exact Hpi).
  assert (Hext1 : extends h0 h1)
    by (apply (modify_params_frame p h0 (Nat.le_refl _)); exact Hext0).
  destruct (String.eqb_spec (camel k) k) as [Heq|Hne].
  - exists h1, (dict_set (camel k) snew P).
    split; [reflexivity|]. split; [exact Hext1|]. split; [exact Hp1|].
    split; [apply keys_dict_set; exact Hnd|].
    pose proof (Hnew h1 Hl1) as Hn. rewrite Heq in *.
    apply slot_rel_set_same; [exact (Hreli h1 Hl1) | exact Hnd | exact Hn].
  - set (h2 := Store.modify p (dict_del k) h1).
    assert (Hl2 : later p hi h2)
      by (eapply later_trans; [exact Hl1 | apply later_modify]).
    exists h2, (dict_del k (dict_set (camel k) snew P)).
    split; [reflexivity|].
    split; [apply (modify_params_frame p h0 (Nat.le_refl _)); exact Hext1|].
    split; [apply nth_error_modify_same; exact Hp1|].
    split; [apply keys_dict_del, keys_dict_set; exact Hnd|].
    apply (slot_rel_forget m p k rest h2); [|apply not_in_keys_del].
    apply forall2_dict_del; [apply slot_rel_key|].
    apply forall2_dict_set; [apply slot_rel_key | exact (Hreli h2 Hl2) |].
    destruct (Hnew h2 Hl2) as [Hk Hs]. split; [exact Hk|].
    cbn [snd fst] in *. destruct snew as [b|v0]; [|exact Hs].
    destruct Hs as [[Hb Hin] | Hnw]; [|right; exact Hnw].
    left. split; [exact Hb | right; exact Hin].
Qed.

Lemma read_slot_key (f : nat -> option dict) (ks : string * Store.slot)
  (kv : string * value) :
  Store.read_slot f ks = Some kv -> fst kv = fst ks.
Proof.
  unfold Store.read_slot. destruct (snd ks) as [b|v].
  - destruct (f b); [|discriminate]. cbn. intros H; injection H as <-. reflexivity.
  - destruct v; try discriminate; intros H; injection H as <-; reflexivity.
Qed.

Lemma rounds_agrees (todo_o : Store.object) (todo_d : dict) :
  Forall2 (fun ks kv => Store.read_slot (Store.read m h0) ks = Some kv)
    todo_o todo_d ->
  (forall k s, In (k, s) todo_o -> dict_get k o = Some s) ->
  Forall (fun kv => valid (snd kv)) todo_d ->
  forall (hcur : Store.store) (P : Store.object) (Q : dict),
    extends h0 hcur ->
    nth_error hcur p = Some P ->
    NoDup (keys P) ->
    Forall2 (slot_rel m p (keys todo_o) hcur) P Q ->
    exists h' P',
      Store.rounds (Store.process_parameters m) a p (keys todo_o) hcur
      = (h', Some tt)
      /\ extends h0 h'
      /\ nth_error h' p = Some P'
      /\ NoDup (keys P')
      /\ Forall2 (slot_rel m p [] h') P'
           (List.fold_left (process_entry process_value) todo_d Q).
Proof.
  intros H. induction H as [|[k s] [k' v] todo_o todo_d Hhd Htl IH];
    intros Hlook Hvalid hcur P Q Hext Hp Hnd Hrel.
  - exists hcur, P. repeat split; assumption.
  - pose proof (read_slot_key _ _ _ Hhd) as Hk. cbn in Hk. subst k'.
    apply Forall_cons_iff in Hvalid. destruct Hvalid as [Hv Hvalid].
    cbn [keys List.map fst] in Hrel.
    destruct (round_agrees k s v (keys todo_o) hcur P Q
                (Hlook k s (or_introl eq_refl)) Hhd Hv Hext Hp Hnd Hrel)
      as (h1 & P1 & Hround & Hext1 & Hp1 & Hnd1 & Hrel1).
    cbn [keys List.map fst Store.rounds List.fold_left]. rewrite Hround.
    apply (IH (fun k2 s2 Hin => Hlook k2 s2 (or_intror Hin)) Hvalid h1 P1);
      assumption.
Qed.

End StoreAgrees.

Lemma dict_get_nodup {V : Type} (d : list (string * V)) (k : string) (v : V) :
  NoDup (keys d) -> In (k, v) d -> dict_get k d = Some v.
Proof.
  induction d as [|[k1 v1] d IH]; [intros _ []|].
  cbn [keys List.map fst]. intros Hnd Hin. apply NoDup_cons_iff in Hnd.
  destruct Hnd as [Hfresh Hnd]. cbn [dict_get].
  destruct Hin as [Heq|Hin].
  - injection Heq as -> ->. rewrite String.eqb_refl. reflexivity.
  - destruct (String.eqb_spec k k1) as [->|Hne]; [|exact (IH Hnd Hin)].
    exfalso. apply Hfresh. exact (in_keys _ _ _ Hin).
Qed.

Lemma read_object_forall2 (f : nat -> option dict) (o : Store.object) (d : dict) :
  Store.read_object f o = Some d ->
  Forall2 (fun ks kv => Store.read_slot f ks = Some kv) o d.
Proof.
  revert d. induction o as [|ks o IH]; intros d; cbn [Store.read_object].
  - intros H; injection H as <-. constructor.
  - destruct (Store.read_slot f ks) as [kv|] eqn:Hs; [|discriminate].
    destruct (Store.read_object f o) as [d'|]; [|discriminate].
    intros H; injection H as <-. constructor; [exact Hs | exact (IH d' eq_refl)].
Qed.

Lemma forall2_read_object (f : nat -> option dict) (o : Store.object) (d : dict) :
  Forall2 (fun ks kv => Store.read_slot f ks = Some kv) o d ->
  Store.read_object f o = Some d.
Proof.
  intros H. induction H as [|ks kv o d Hhd Htl IH]; [reflexivity|].
  cbn [Store.read_object]. rewrite Hhd, IH. reflexivity.
Qed.

Lemma forall2_keys {A B : Type} (R : string * A -> string * B -> Prop)
  (P : list (string * A)) (Q : list (string * B)) :
  (forall e e', R e e' -> fst e' = fst e) ->
  Forall2 R P Q -> keys Q = keys P.
Proof.
  intros HR H. induction H as [|e e' P Q Hhd Htl IH]; [reflexivity|].
  cbn [keys List.map]. rewrite (HR _ _ Hhd). f_equal. exact IH.
Qed.

(** The store and the values agree on [process_parameters]: where the
    store holds a well-formed mapping [d] at an address, down to [n]
    levels of nesting, the call with fuel [n] returns; the object it
    returns is new, the store has only grown, and the new object, read
    from the objects created by the call, is [process_parameters d]. *)
Lemma store_process_parameters_agrees (n : nat) :
  forall (h : Store.store) (a : nat) (d : dict),
    valid (VDict d) ->
    Store.read n h a = Some d ->
    exists h',
      Store.process_parameters n h a = (h', Some (List.length h))
      /\ extends h h'
      /\ range_stable n h' (List.length h) (process_parameters (Some d)).
Proof.
  induction n as [|m IH]; intros h a d Hvalid Hread; [discriminate|].
  cbn [Store.read] in Hread. cbn [Store.process_parameters].
  destruct (nth_error h a) as [o|] eqn:Ha; [|discriminate].
  pose proof (read_object_forall2 _ _ _ Hread) as Hall.
  destruct o as [|entry entries].
  - cbn in Hread. injection Hread as <-. exists (h ++ [[]]).
    split; [reflexivity|]. split; [eexists; reflexivity|].
    intros h2 Hag. cbn [Store.read].
    rewrite (Hag (List.length h) (Nat.le_refl _))
      by (rewrite length_app; cbn; lia).
    rewrite nth_error_app2, Nat.sub_diag by lia. reflexivity.
  - set (o := entry :: entries) in *.
    destruct (valid_entries d Hvalid) as [Hnd Hvs].
    assert (Hkeys : keys d = keys o)
      by (apply (forall2_keys _ _ _ (read_slot_key _) Hall)).
    assert (Hndo : NoDup (keys o)) by (rewrite <- Hkeys; exact Hnd).
    assert (Hp : nth_error (h ++ [o]) (List.length h) = Some o)
      by (rewrite nth_error_app2, Nat.sub_diag by lia; reflexivity).
    assert (Hinit : forall todo hs,
               (forall k, In k (keys o) -> In k todo) ->
               Forall2 (slot_rel m (List.length h) todo hs) o d).
    { intros todo hs. clear Hkeys Hndo Hp Hread. revert Hall.
      generalize o d. clear o d Hvalid Hnd Hvs Ha.
      intros o d Hall. induction Hall as [|[k s] [k' v] o d Hhd Htl IHl];
        intros Htodo; constructor.
      - pose proof (read_slot_key _ _ _ Hhd) as Hk. cbn in Hk. subst k'.
        split; [reflexivity|]. cbn [snd fst].
        unfold Store.read_slot in Hhd. cbn [snd fst] in Hhd.
        destruct s as [b|v0].
        + left. split; [|apply Htodo; left; reflexivity].
          destruct m as [|m']; [discriminate|]. cbn [Store.read] in Hhd.
          apply nth_error_Some. destruct (nth_error h b); discriminate.
        + destruct v0; try discriminate; injection Hhd as <-; split; reflexivity.
      - apply IHl. intros k0 Hin. apply Htodo. right. exact Hin. }
    unfold Store.alloc.
    destruct (rounds_agrees m IH h a o Ha o d Hall
                (fun k s Hin => dict_get_nodup o k s Hndo Hin) Hvs
                (h ++ [o]) o d (ex_intro _ [o] eq_refl) Hp Hndo
                (Hinit (keys o) (h ++ [o]) (fun k H => H)))
      as (h' & P' & Hrounds & Hext & Hp' & _ & Hrel).
    exists h'. split; [|split; [exact Hext|]].
    + cbv beta iota.
      match goal with
      | |- context [Store.rounds ?f ?x ?y ?z ?w] =>
          replace (Store.rounds f x y z w) with (h', Some tt)
            by (symmetry; exact Hrounds)
      end.
      reflexivity.
    + intros h2 Hag. cbn [Store.read].
      assert (Hlt : (List.length h < List.length h')%nat)
        by (apply nth_error_Some; rewrite Hp'; discriminate).
      rewrite (Hag (List.length h) (Nat.le_refl _) Hlt), Hp'.
      rewrite process_parameters_fold. apply forall2_read_object.
      revert Hrel. generalize (List.fold_left (process_entry process_value) d d).
      intros Q Hrel. clear Hp'.
      induction Hrel as [|[k s] [k' v] P Q' Hhd Htl IHl]; [constructor|].
      constructor; [|exact IHl].
      destruct Hhd as [Hk Hs]. cbn [fst snd] in *. subst k'.
      unfold Store.read_slot. cbn [fst snd].
      destruct s as [b|v0].
      * destruct Hs as [[_ []] | [Hb [x [-> Hx]]]].
        rewrite (Hx h2); [reflexivity|].
        intros c Hc Hlen. apply Hag; [lia | exact Hlen].
      * destruct Hs as [-> Hnd0]. destruct v; try reflexivity. discriminate Hnd0.
Qed.

(** ** Parameter normalisation: the claim *)

Lemma camel_other (c : ascii) (t : string) :
  Ascii.eqb c "_" = false -> camel (String c t) = String c (camel t).
Proof.
  intros H. destruct t as [|d u]; [reflexivity|].
  rewrite camel_cons2, H. reflexivity.
Qed.

(** The conversion removes an underscore that is followed by a letter or
    a digit, and puts that character in upper case. *)
Lemma camel_underscore (a : string) (c : ascii) (b : string) :
  Str.mem "_" a = false ->
  Str.is_alpha c || Str.is_digit c = true ->
  camel (a ++ String "_" (String c b)) = (a ++ String (Str.upper c) (camel b))%string.
Proof.
  intros Ha Hc. induction a as [|x a IH].
  - cbn [String.append]. rewrite camel_cons2, Ascii.eqb_refl, (alnum_is_word c Hc).
    reflexivity.
  - cbn [Str.mem] in Ha. apply orb_false_iff in Ha. destruct Ha as [Hx Ha].
    cbn [String.append]. rewrite camel_other by (rewrite Ascii.eqb_sym; exact Hx).
    rewrite (IH Ha). reflexivity.
Qed.

(** C4, as stated, fails: an underscore that is followed by another
    underscore, or by nothing, stays in the key; and of two keys with
    the same conversion one value is lost. *)
Lemma process_parameters_keeps_underscore :
  process_parameters (Some [("a__b", VInt 1); ("x_", VInt 2)])
  = [("x_", VInt 2); ("a_b", VInt 1)]
  /\ process_parameters (Some [("a_b", VInt 1); ("aB", VInt 2)]) = [("aB", VInt 2)]
  /\ ~ (forall (d : dict) (k : string),
           In k (keys (process_parameters (Some d))) -> Str.mem "_" k = false).
Proof.
  split; [reflexivity|]. split; [reflexivity|].
  intros H. specialize (H [("a__b", VInt 1)] "a_b" (or_introl eq_refl)).
  discriminate H.
Qed.

(** C4, amended.  The conversion of a key removes each underscore that
    a letter or digit follows and puts that character in upper case, so
    that a key in snake case is converted to a key without underscore.
    For a mapping whose keys are in snake case and distinct once
    converted, the result holds every entry of the argument under its
    converted key, and no other key; the value of an entry is unchanged
    when it is not a mapping, and is the result of the same
    normalisation when it is one.  An empty or absent mapping gives the
    empty mapping, and a mapping without any underscore in its keys,
    nested ones included, is returned as it is.  On the object store,
    the objects that were there before the call, the argument and the
    mappings nested in it among them, are there unchanged after it, and
    the result is a new object; where the store holds a well-formed
    mapping [d] as the argument, the call returns, and the new object
    reads as [process_parameters d]. *)
Theorem process_parameters_converts :
  (forall (a : string) (c : ascii) (b : string),
      Str.mem "_" a = false ->
      Str.is_alpha c || Str.is_digit c = true ->
      camel (a ++ String "_" (String c b))
      = (a ++ String (Str.upper c) (camel b))%string)
  /\ (forall k : string, snake k = true -> Str.mem "_" (camel k) = false)
  /\ (forall (d : dict) (k : string) (v : value),
        convertible d -> In (k, v) d ->
        dict_get (camel k) (process_parameters (Some d)) = Some (process_value v))
  /\ (forall (d : dict) (x : string),
        dict_mem x (process_parameters (Some d)) = true ->
        exists k, In k (keys d) /\ x = camel k)
  /\ (forall v : value,
        process_value v
        = match v with
          | VDict nested => VDict (process_parameters (Some nested))
          | _ => v
          end)
  /\ process_parameters None = []
  /\ process_parameters (Some []) = []
  /\ (forall d : dict,
        valid (VDict d) -> plain (VDict d) = true ->
        process_parameters (Some d) = d)
  /\ (forall (fuel : nat) (h : Store.store) (a : nat),
        extends h (fst (Store.process_parameters fuel h a))
        /\ forall r, snd (Store.process_parameters fuel h a) = Some r ->
                     r = List.length h)
  /\ (forall (n : nat) (h : Store.store) (a : nat) (d : dict),
        valid (VDict d) ->
        Store.read n h a = Some d ->
        exists h',
          Store.process_parameters n h a = (h', Some (List.length h))
          /\ extends h h'
          /\ Store.read n h' (List.length h) = Some (process_parameters (Some d))).
Proof.
  split; [exact camel_underscore|].
  split; [exact camel_snake|].
  split.
  { intros d k v Hd Hin. rewrite process_parameters_fold.
    apply fold_converts_entry; assumption. }
  split.
  { intros d x Hx. rewrite process_parameters_fold in Hx.
    assert (Hsome : dict_get x (List.fold_left (process_entry process_value) d d)
                    <> None).
    { unfold dict_mem in Hx. destruct (dict_get x _); [discriminate | discriminate Hx]. }
    destruct (fold_keys_converted d d x Hsome) as [Hk | [Hget Horig]]; [exact Hk|].
    exists x. pose proof (dict_get_keys x d Hget) as Hin.
    split; [exact Hin|]. symmetry. exact (Horig x Hin eq_refl). }
  split; [exact process_value_unfold|].
  split; [reflexivity|]. split; [reflexivity|].
  split.
  { intros d Hv Hp. pose proof (process_value_plain (VDict d) Hv Hp) as H.
    rewrite process_value_unfold in H. injection H as H. exact H. }
  split.
  { intros fuel h a. split.
    - apply store_process_parameters_frame.
    - intros r. apply store_process_parameters_fresh. }
  intros n h a d Hvalid Hread.
  destruct (store_process_parameters_agrees n h a d Hvalid Hread)
    as (h' & Hrun & Hext & Hstable).
  exists h'. split; [exact Hrun|]. split; [exact Hext|].
  apply Hstable. intros c _ _. reflexivity.
Qed.

Lemma process_parameters_converts_run :
  let nested := [("from_date", VInt 1); ("device_search", VDict [("id", VStr "b1")])] in
  let d := [("type_name", VStr "Device"); ("search", VDict nested)] in
  let h := [ [("type_name", Store.Atom (VStr "Device")); ("search", Store.Ref 1)];
             [("from_date", Store.Atom (VInt 1)); ("device_search", Store.Ref 2)];
             [("id", Store.Atom (VStr "b1"))] ] in
  convertible d
  /\ convertible nested
  /\ dict_get "typeName" (process_parameters (Some d)) = Some (VStr "Device")
  /\ dict_get "search" (process_parameters (Some d))
     = Some (VDict (process_parameters (Some nested)))
  /\ dict_get "deviceSearch" (process_parameters (Some nested))
     = Some (VDict [("id", VStr "b1")])
  /\ process_parameters (Some [("typeName", VStr "Device")])
     = [("typeName", VStr "Device")]
  /\ valid (VDict d)
  /\ Store.read 3 h 0 = Some d
  /\ extends h (fst (Store.process_parameters 3 h 0))
  /\ exists h',
       Store.process_parameters 3 h 0 = (h', Some 3%nat)
       /\ extends h h'
       /\ Store.read 3 h' 3 = Some (process_parameters (Some d)).
Proof.
  intros nested d h.
  destruct process_parameters_converts
    as (_ & _ & Hentry & _ & Hvalue & _ & _ & Hplain & Hstore & Hagree).
  assert (Hvalid : valid (VDict d)).
  { simpl. unfold valid_dict. simpl.
    repeat split; repeat constructor; simpl; intuition discriminate. }
  assert (Hd : convertible d).
  { split; [repeat constructor|]. repeat constructor; simpl; intuition discriminate. }
  assert (Hn : convertible nested).
  { split; [repeat constructor|]. repeat constructor; simpl; intuition discriminate. }
  split; [exact Hd|]. split; [exact Hn|].
  split; [exact (Hentry d "type_name" (VStr "Device") Hd (or_introl eq_refl))|].
  split.
  { pose proof (Hentry d "search" (VDict nested) Hd (or_intror (or_introl eq_refl))) as H.
    rewrite Hvalue in H. exact H. }
  split.
  { pose proof (Hentry nested "device_search" (VDict [("id", VStr "b1")]) Hn
                  (or_intror (or_introl eq_refl))) as H.
    exact H. }
  split.
  { apply Hplain; [|reflexivity].
    split; [repeat constructor; simpl; intuition | simpl; auto]. }
  split; [exact Hvalid|]. split; [reflexivity|].
  split; [exact (proj1 (Hstore 3%nat h 0%nat))|].
  exact (Hagree 3%nat h 0%nat d Hvalid eq_refl).
Defined.


(** * Further facts *)

(** ** Parameter normalisation *)

Lemma forall_dict_set {V : Type} (Q : V -> Prop) (k : string) (v : V)
  (d : list (string * V)) :
  Forall (fun kv => Q (snd kv)) d -> Q v ->
  Forall (fun kv => Q (snd kv)) (dict_set k v d).
Proof.
  intros Hd Hv. induction d as [|[k1 v1] d IH]; cbn [dict_set].
  - repeat constructor. exact Hv.
  - apply Forall_cons_iff in Hd. destruct Hd as [H1 Hd].
    destruct (String.eqb k k1); constructor; auto.
Qed.

Lemma forall_dict_del {V : Type} (Q : string * V -> Prop) (k : string)
  (d : list (string * V)) :
  Forall Q d -> Forall Q (dict_del k d).
Proof.
  unfold dict_del. rewrite !Forall_forall. intros H x Hx.
  apply filter_In in Hx. apply H. exact (proj1 Hx).
Qed.

Lemma valid_intro (d : dict) :
  valid_dict d -> Forall (fun kv => valid (snd kv)) d -> valid (VDict d).
Proof.
  intros Hd Hvs. simpl. split; [exact Hd|]. clear Hd.
  induction Hvs as [|kv t Hkv Ht IH]; [exact I | split; assumption].
Qed.

(** The loop keeps the copy a well-formed mapping. *)
Lemma fold_valid (todo params : dict) :
  (forall kv, In kv todo -> valid (process_value (snd kv))) ->
  NoDup (keys params) ->
  Forall (fun kv => valid (snd kv)) params ->
  NoDup (keys (List.fold_left (process_entry process_value) todo params))
  /\ Forall (fun kv => valid (snd kv))
       (List.fold_left (process_entry process_value) todo params).
Proof.
  revert params. induction todo as [|[k v] rest IH]; intros params Hnew Hnd Hvs.
  - split; assumption.
  - cbn [List.fold_left]. apply IH.
    + intros kv Hin. apply Hnew. right. exact Hin.
    + unfold process_entry. rewrite process_entry_value.
      destruct (String.eqb (camel k) k);
        [|apply keys_dict_del]; apply keys_dict_set; exact Hnd.
    + unfold process_entry. rewrite process_entry_value.
      pose proof (Hnew (k, v) (or_introl eq_refl)) as Hv. cbn [snd] in Hv.
      destruct (String.eqb (camel k) k);
        [|apply forall_dict_del];
        apply (forall_dict_set valid); assumption.
Qed.

(** X1.  [process_parameters] keeps mappings well formed: when no key
    is repeated in the argument and in the mappings nested in it, none
    is repeated in the result and in the mappings nested in it. *)
Theorem process_parameters_keeps_valid :
  forall v : value, valid v -> valid (process_value v).
Proof.
  induction v as [| | | | |d IH] using value_dict_ind; try (intros _; exact I).
  intros Hvalid. rewrite process_value_unfold, process_parameters_fold.
  destruct (valid_entries d Hvalid) as [Hnd Hvs].
  rewrite Forall_forall in IH, Hvs.
  destruct (fold_valid d d) as [Hk Hv].
  - intros kv Hin. apply IH; [exact Hin | apply Hvs; exact Hin].
  - exact Hnd.
  - apply Forall_forall. exact Hvs.
  - apply valid_intro; assumption.
Qed.

Lemma process_parameters_keeps_valid_run :
  let d := [("type_name", VStr "Device");
            ("search", VDict [("from_date", VInt 1); ("fromDate", VInt 2)])] in
  valid (VDict d) /\ valid (VDict (process_parameters (Some d))).
Proof.
  intros d.
  assert (Hvalid : valid (VDict d)).
  { simpl. unfold valid_dict. simpl.
    repeat split; repeat constructor; simpl; intuition discriminate. }
  split; [exact Hvalid|].
  exact (process_parameters_keeps_valid (VDict d) Hvalid).
Defined.

Lemma fold_keys_nodup (todo params : dict) :
  NoDup (keys params) ->
  NoDup (keys (List.fold_left (process_entry process_value) todo params)).
Proof.
  revert params. induction todo as [|[k v] rest IH]; intros params Hnd; [exact Hnd|].
  cbn [List.fold_left]. apply IH.
  unfold process_entry. rewrite process_entry_value.
  destruct (String.eqb (camel k) k);
    [|apply keys_dict_del]; apply keys_dict_set; exact Hnd.
Qed.

Lemma convertible_nodup (d : dict) : convertible d -> NoDup (keys d).
Proof. intros [_ H]. exact (NoDup_map_inv _ _ H). Qed.

Lemma in_keys_entry {V : Type} (k : string) (d : list (string * V)) :
  In k (keys d) -> exists v, In (k, v) d.
Proof.
  unfold keys. intros H. apply in_map_iff in H. destruct H as [[k' v] [Hk Hin]].
  cbn in Hk. subst k'. exists v. exact Hin.
Qed.

(** The result holds the converted entries of the argument, in some
    order. *)
Lemma process_parameters_permutation (d : dict) :
  convertible d ->
  Permutation (process_parameters (Some d)) (List.map converted d).
Proof.
  intros Hd.
  pose proof (convertible_nodup d Hd) as Hnd.
  assert (Hres : NoDup (keys (process_parameters (Some d))))
    by (rewrite process_parameters_fold; apply fold_keys_nodup; exact Hnd).
  apply NoDup_Permutation.
  - exact (NoDup_map_inv _ _ Hres).
  - apply (NoDup_map_inv fst). rewrite map_map.
    destruct Hd as [_ Hc]. unfold keys in Hc. rewrite map_map in Hc. exact Hc.
  - intros [x y]. split.
    + intros Hin. pose proof (dict_get_nodup _ x y Hres Hin) as Hget.
      rewrite process_parameters_fold in Hget.
      assert (Hsome : dict_get x (List.fold_left (process_entry process_value) d d)
                      <> None) by congruence.
      assert (Hk : exists k, In k (keys d) /\ x = camel k).
      { destruct (fold_keys_converted d d x Hsome) as [Hk | [Hg Horig]]; [exact Hk|].
        exists x. pose proof (dict_get_keys x d Hg) as Hin'.
        split; [exact Hin'|]. symmetry. exact (Horig x Hin' eq_refl). }
      destruct Hk as [k [Hkin ->]]. destruct (in_keys_entry k d Hkin) as [v Hv].
      rewrite (fold_converts_entry d d k v Hd Hv) in Hget.
      injection Hget as <-. apply in_map_iff. exists (k, v). split; [reflexivity|exact Hv].
    + intros Hin. apply in_map_iff in Hin. destruct Hin as [[k v] [Heq Hv]].
      unfold converted in Heq. cbn [fst snd] in Heq. injection Heq as <- <-.
      apply dict_get_in. rewrite process_parameters_fold.
      exact (fold_converts_entry d d k v Hd Hv).
Qed.

(** X2.  On a mapping whose keys are in snake case and distinct once
    converted, the result of [process_parameters] is, up to the order
    of its entries, the argument with every key converted and every
    value processed: nothing is lost and nothing is added. *)
Theorem process_parameters_permutes :
  forall d : dict,
    convertible d ->
    Permutation (process_parameters (Some d)) (List.map converted d)
    /\ List.length (process_parameters (Some d)) = List.length d.
Proof.
  intros d Hd. pose proof (process_parameters_permutation d Hd) as Hperm.
  split; [exact Hperm|].
  rewrite (Permutation_length Hperm). apply length_map.
Qed.

Lemma process_parameters_permutes_run :
  let d := [("type_name", VStr "Device"); ("results_limit", VInt 5);
            ("search", VDict [("from_date", VInt 1)])] in
  convertible d
  /\ Permutation (process_parameters (Some d))
       [("typeName", VStr "Device"); ("resultsLimit", VInt 5);
        ("search", VDict [("fromDate", VInt 1)])]
  /\ List.length (process_parameters (Some d)) = 3%nat.
Proof.
  intros d.
  assert (Hd : convertible d).
  { split; [repeat constructor|]. repeat constructor; simpl; intuition discriminate. }
  split; [exact Hd|]. exact (process_parameters_permutes d Hd).
Defined.

Lemma convertible_deep_entries (d : dict) :
  convertible_deep (VDict d) ->
  convertible d /\ Forall (fun kv => convertible_deep (snd kv)) d.
Proof.
  simpl. intros [Hd Heach]. split; [exact Hd|].
  clear Hd. induction d as [|kv t IH]; [constructor|].
  destruct Heach as [Hkv Ht]. constructor; [exact Hkv | exact (IH Ht)].
Qed.

(** The result of a deep-convertible mapping is well formed and has no
    underscore left in its keys. *)
Lemma process_value_settles (v : value) :
  convertible_deep v -> valid (process_value v) /\ plain (process_value v) = true.
Proof.
  induction v as [| | | | |d IH] using value_dict_ind;
    try (intros _; split; [exact I | reflexivity]).
  intros Hdeep. destruct (convertible_deep_entries d Hdeep) as [Hd Hvs].
  rewrite process_value_unfold.
  pose proof (process_parameters_permutation d Hd) as Hperm.
  rewrite Forall_forall in IH, Hvs.
  assert (Hin : forall kv, In kv (process_parameters (Some d)) ->
                  exists k v, In (k, v) d /\ kv = (camel k, process_value v)).
  { intros kv Hkv. apply (Permutation_in _ Hperm) in Hkv.
    apply in_map_iff in Hkv. destruct Hkv as [[k v] [Heq Hv]].
    exists k, v. split; [exact Hv | symmetry; exact Heq]. }
  split.
  - apply valid_intro.
    + unfold valid_dict. rewrite process_parameters_fold.
      apply fold_keys_nodup, convertible_nodup, Hd.
    + apply Forall_forall. intros kv Hkv.
      destruct (Hin kv Hkv) as (k & v & Hv & ->). cbn [snd].
      exact (proj1 (IH (k, v) Hv (Hvs (k, v) Hv))).
  - cbn [plain]. apply forallb_forall. intros kv Hkv.
    destruct (Hin kv Hkv) as (k & v & Hv & ->). cbn [fst snd].
    apply andb_true_iff. split.
    + apply negb_true_iff, camel_snake.
      destruct Hd as [Hsn _]. rewrite Forall_forall in Hsn.
      apply Hsn. exact (in_keys k v d Hv).
    + exact (proj2 (IH (k, v) Hv (Hvs (k, v) Hv))).
Qed.

(** X3.  [process_parameters] is idempotent on mappings that convert
    without loss: when the keys of the argument and of the mappings
    nested in it are in snake case and stay distinct once converted,
    normalising the result again changes nothing. *)
Theorem process_parameters_idempotent :
  forall d : dict,
    convertible_deep (VDict d) ->
    process_parameters (Some (process_parameters (Some d)))
    = process_parameters (Some d).
Proof.
  intros d Hdeep.
  destruct (process_value_settles (VDict d) Hdeep) as [Hvalid Hplain].
  pose proof (process_value_plain _ Hvalid Hplain) as Hfix.
  rewrite process_value_unfold in Hfix.
  rewrite (process_value_unfold (VDict d)) in Hfix.
  injection Hfix as Hfix. exact Hfix.
Qed.

Lemma process_parameters_idempotent_run :
  let d := [("type_name", VStr "Device");
            ("search", VDict [("from_date", VInt 1); ("device_search", VDict [("id", VStr "b1")])])] in
  convertible_deep (VDict d)
  /\ process_parameters (Some d)
     = [("search", VDict [("fromDate", VInt 1); ("deviceSearch", VDict [("id", VStr "b1")])]);
        ("typeName", VStr "Device")]
  /\ process_parameters (Some (process_parameters (Some d)))
     = process_parameters (Some d).
Proof.
  intros d.
  assert (Hd : convertible_deep (VDict d)).
  { simpl. unfold convertible. simpl.
    repeat split; repeat constructor; simpl; intuition discriminate. }
  split; [exact Hd|]. split; [reflexivity|].
  exact (process_parameters_idempotent d Hd).
Defined.

(** ** URL resolution with a scheme *)

Lemma authority_not_delim (c : ascii) :
  authority_char c = true -> netloc_delim c = false.
Proof.
  unfold authority_char, netloc_delim. cbn [Str.mem].
  intros H. apply negb_true_iff in H.
  repeat (apply orb_false_iff in H; let H1 := fresh in destruct H as [H1 H]; rewrite ?H1).
  reflexivity.
Qed.

Lemma authority_no_bracket (b : ascii) (s : string) :
  Str.mem b "[]" = true -> Str.all authority_char s = true -> Str.mem b s = false.
Proof.
  intros Hb. induction s as [|c t IH]; [reflexivity|].
  cbn [Str.all Str.mem]. intros H. apply andb_true_iff in H. destruct H as [Hc Ht].
  rewrite (IH Ht), orb_false_r.
  destruct (Ascii.eqb_spec b c) as [<-|]; [|reflexivity].
  unfold authority_char in Hc. apply negb_true_iff in Hc.
  cbn [Str.mem] in Hb, Hc.
  repeat (apply orb_false_iff in Hc; let H1 := fresh in destruct Hc as [H1 Hc]).
  repeat match goal with
         | E : Ascii.eqb b _ = false |- _ => rewrite E in Hb; clear E
         end.
  discriminate Hb.
Qed.

Lemma break_authority (host rest : string) :
  Str.all authority_char host = true -> url_tail rest ->
  Str.break netloc_delim (host ++ rest) = (host, rest).
Proof.
  intros Hhost Hrest. induction host as [|c t IH].
  - destruct rest as [|c t]; [reflexivity|].
    cbn [String.append Str.break]. cbn [url_tail] in Hrest. rewrite Hrest. reflexivity.
  - cbn [Str.all] in Hhost. apply andb_true_iff in Hhost. destruct Hhost as [Hc Ht].
    cbn [String.append Str.break]. rewrite (authority_not_delim c Hc), (IH Ht).
    reflexivity.
Qed.

Lemma split_scheme_web (scheme tail : string) :
  scheme = "http" \/ scheme = "https" ->
  split_scheme (scheme ++ "://" ++ tail) = (scheme, ("//" ++ tail)%string).
Proof. intros [-> | ->]; reflexivity. Qed.

(** X4.  For a server given as an http or https URL, [get_api_url]
    keeps the authority (host, with port if any) and nothing else: the
    scheme becomes https, and path, query and fragment are dropped. *)
Theorem get_api_url_keeps_authority :
  forall scheme host rest : string,
    scheme = "http" \/ scheme = "https" ->
    authority host ->
    url_tail rest ->
    get_api_url (VStr (scheme ++ "://" ++ host ++ rest)) = Return (canonical host).
Proof.
  intros scheme host rest Hscheme [Hne Hhost] Hrest.
  unfold get_api_url, urlparse.
  rewrite (split_scheme_web scheme (host ++ rest) Hscheme).
  unfold split_netloc.
  change (Str.starts "//" ("//" ++ host ++ rest)) with true.
  change (Str.drop 2 ("//" ++ host ++ rest)) with (host ++ rest)%string.
  cbv iota. rewrite (break_authority host rest Hhost Hrest).
  unfold unbalanced_brackets.
  rewrite (authority_no_bracket "[" host eq_refl Hhost).
  rewrite (authority_no_bracket "]" host eq_refl Hhost).
  cbn [andb orb negb netloc].
  destruct (String.eqb_spec host "") as [E|_]; [contradiction|].
  reflexivity.
Qed.

Lemma get_api_url_keeps_authority_run :
  authority "my3.geotab.com:8443"
  /\ url_tail "/some/path?x=1#top"
  /\ get_api_url (VStr "http://my3.geotab.com:8443/some/path?x=1#top")
     = Return "https://my3.geotab.com:8443/apiv1".
Proof.
  assert (Ha : authority "my3.geotab.com:8443") by (split; [discriminate | reflexivity]).
  assert (Ht : url_tail "/some/path?x=1#top") by reflexivity.
  split; [exact Ha|]. split; [exact Ht|].
  exact (get_api_url_keeps_authority "http" "my3.geotab.com:8443" "/some/path?x=1#top"
           (or_introl eq_refl) Ha Ht).
Defined.

(** ** Clients from credentials *)

(** X5.  [API.from_credentials] gives a client exactly when the
    credentials have a user name and a password or a session id; the
    client then holds these very credentials, with the default timeout
    and the reauthorization counter at 0.  Otherwise it raises. *)
Theorem from_credentials_round_trip :
  forall c : Credentials,
    if negb (is_none (username c))
       && (negb (is_none (password c)) || negb (is_none (session_id c)))
    then exists a, from_credentials c = Return a
                   /\ credentials a = c
                   /\ timeout a = DEFAULT_TIMEOUT
                   /\ reauthorize_count a = 0%Z
    else from_credentials c = Raise (PyException "Exception").
Proof.
  intros [u s d sv p]. unfold from_credentials, API_init. cbn [username password
    session_id database server].
  destruct (is_none u); [reflexivity|].
  destruct (is_none p); [destruct (is_none s); [reflexivity|]|];
    (eexists; split; [reflexivity|]; repeat split).
Qed.

(** ** Result lists *)

Lemma list_index_in_range (l : list value) (i : Z) :
  (0 <= i < Z.of_nat (List.length l))%Z ->
  list_index l i = Return (List.nth (Z.to_nat i) l VNone).
Proof.
  intros Hi. unfold list_index. cbv zeta.
  destruct (Z.ltb_spec i 0) as [H|_]; [lia|].
  destruct (Z.leb_spec 0 i) as [_|H]; [|lia].
  destruct (Z.ltb_spec i (Z.of_nat (List.length l))) as [_|H]; [|lia].
  cbn [andb].
  destruct (nth_error l (Z.to_nat i)) as [x|] eqn:E.
  - rewrite (nth_error_nth _ _ VNone E). reflexivity.
  - apply nth_error_None in E. lia.
Qed.

Lemma list_index_negative (l : list value) (i : Z) :
  (- Z.of_nat (List.length l) <= i < 0)%Z ->
  list_index l i = list_index l (i + Z.of_nat (List.length l)).
Proof.
  intros Hi. unfold list_index. cbv zeta.
  destruct (Z.ltb_spec i 0) as [_|H]; [|lia].
  destruct (Z.ltb_spec (i + Z.of_nat (List.length l)) 0) as [H|_]; [lia|].
  reflexivity.
Qed.

Lemma list_index_outside (l : list value) (i : Z) :
  (i < - Z.of_nat (List.length l) \/ Z.of_nat (List.length l) <= i)%Z ->
  list_index l i = Raise (PyException "IndexError").
Proof.
  intros Hi. unfold list_index. cbv zeta.
  destruct (Z.ltb_spec i 0) as [Hneg|Hpos].
  - destruct (Z.leb_spec 0 (i + Z.of_nat (List.length l))) as [H|_]; [lia|].
    reflexivity.
  - destruct (Z.ltb_spec i (Z.of_nat (List.length l))) as [H|_]; [lia|].
    rewrite andb_false_r. reflexivity.
Qed.

(** X6.  Indexing an [EntityList] with an integer: an index from 0 up
    to the length gives the element at that position, a negative index
    down to minus the length counts from the end, and every other index
    raises [IndexError]. *)
Theorem getitem_index :
  forall (e : EntityList) (i : Z),
    let n := Z.of_nat (List.length (data e)) in
    ((0 <= i < n)%Z ->
     getitem e (Index i) = Return (Element (List.nth (Z.to_nat i) (data e) VNone))
     /\ getitem e (Index (i - n)) = getitem e (Index i))
    /\ ((i < - n \/ n <= i)%Z ->
        getitem e (Index i) = Raise (PyException "IndexError")).
Proof.
  intros e i n. split.
  - intros Hi. unfold getitem.
    rewrite (list_index_negative (data e) (i - n)) by (fold n; lia).
    fold n. replace (i - n + n)%Z with i by lia.
    rewrite (list_index_in_range (data e) i Hi). split; reflexivity.
  - intros Hi. unfold getitem. rewrite (list_index_outside (data e) i Hi). reflexivity.
Qed.

Lemma getitem_index_run :
  let e := mkEntityList [VInt 10; VInt 20; VInt 30] (VStr "Device") in
  getitem e (Index 1) = Return (Element (VInt 20))
  /\ getitem e (Index (-2)) = Return (Element (VInt 20))
  /\ getitem e (Index 3) = Raise (PyException "IndexError")
  /\ getitem e (Index (-4)) = Raise (PyException "IndexError").
Proof.
  intros e.
  destruct (getitem_index e 1) as [Hin _].
  destruct (Hin ltac:(simpl; lia)) as [H1 H2].
  destruct (getitem_index e 3) as [_ Hhigh].
  destruct (getitem_index e (-4)) as [_ Hlow].
  split; [exact H1|]. split; [exact (eq_trans H2 H1)|].
  split; [apply Hhigh; simpl; lia | apply Hlow; simpl; lia].
Defined.

(** X7.  The properties [first] and [last] are the elements at the
    indices 0 and -1 of a list that is not empty; on an empty list they
    give [None], where indexing raises [IndexError]. *)
Theorem first_last_index :
  forall e : EntityList,
    match data e with
    | [] => first e = VNone /\ last e = Return VNone
            /\ getitem e (Index 0) = Raise (PyException "IndexError")
            /\ getitem e (Index (-1)) = Raise (PyException "IndexError")
    | x :: rest =>
        first e = x
        /\ last e = Return (List.last (data e) VNone)
        /\ getitem e (Index 0) = Return (Element (first e))
        /\ getitem e (Index (-1)) = Return (Element (List.last (data e) VNone))
    end.
Proof.
  intros [l tn]. cbn [data]. destruct l as [|x rest].
  - repeat split.
  - assert (Hlast : list_index (x :: rest) (-1)
                    = Return (List.last (x :: rest) VNone)).
    { rewrite list_index_negative by (cbn [List.length]; lia).
      rewrite list_index_in_range by (cbn [List.length]; lia).
      f_equal.
      replace (Z.to_nat (-1 + Z.of_nat (List.length (x :: rest))))
        with (List.length rest) by (cbn [List.length]; lia).
      clear tn. revert x. induction rest as [|y rest IH]; intros x; [reflexivity|].
      change (List.nth (List.length rest) (y :: rest) VNone
              = List.last (y :: rest) VNone).
      apply IH. }
    unfold first, last, getitem. cbn [data]. rewrite Hlast.
    repeat split.
Qed.

Lemma list_slice_prefix (l : list value) (c : nat) :
  list_slice l 0 (Z.of_nat c) = List.firstn c l.
Proof.
  unfold list_slice. rewrite Z.sub_0_r, Nat2Z.id. reflexivity.
Qed.

Lemma list_slice_suffix (l : list value) (c : nat) :
  (c <= List.length l)%nat ->
  list_slice l (Z.of_nat c) (Z.of_nat (List.length l)) = List.skipn c l.
Proof.
  intros Hc. unfold list_slice. rewrite Nat2Z.id.
  apply firstn_all2. rewrite length_skipn. lia.
Qed.

Lemma slice_bound_clipped (len : nat) (k : Z) (default : Z) :
  exists c, (c <= len)%nat /\ slice_bound (Z.of_nat len) (Some k) default = Z.of_nat c.
Proof.
  unfold slice_bound.
  set (b := if Z.ltb k 0 then (k + Z.of_nat len)%Z else k).
  destruct (Z.ltb_spec b 0) as [Hneg|Hpos].
  - exists 0%nat. split; [lia | reflexivity].
  - destruct (Z.ltb_spec (Z.of_nat len) b) as [Hbig|Hsmall].
    + exists len. split; [lia | reflexivity].
    + exists (Z.to_nat b). split; lia.
Qed.

(** X8.  Cutting an [EntityList] at any position and adding the two
    parts gives the list back: for every integer [k], negative or
    beyond the length included, [e[:k]] and [e[k:]] are lists of the
    type of [e] and [e[:k] + e[k:]] is [e]. *)
Theorem getitem_slice_split :
  forall (e : EntityList) (k : Z),
    exists a b,
      getitem e (Slice None (Some k)) = Return (Entities a)
      /\ getitem e (Slice (Some k) None) = Return (Entities b)
      /\ type_name a = type_name e
      /\ type_name b = type_name e
      /\ entity_add a (OUserList b) = Return e.
Proof.
  intros [l tn] k. unfold getitem. cbv zeta. cbn [data type_name].
  destruct (slice_bound_clipped (List.length l) k 0%Z) as [c [Hc Hk]].
  change (slice_bound (Z.of_nat (List.length l)) (Some k) (Z.of_nat (List.length l)))
    with (slice_bound (Z.of_nat (List.length l)) (Some k) 0%Z).
  change (slice_bound (Z.of_nat (List.length l)) None 0%Z) with 0%Z.
  change (slice_bound (Z.of_nat (List.length l)) None (Z.of_nat (List.length l)))
    with (Z.of_nat (List.length l)).
  rewrite Hk, list_slice_prefix, (list_slice_suffix l c Hc).
  do 2 eexists. split; [reflexivity|]. split; [reflexivity|].
  split; [reflexivity|]. split; [reflexivity|].
  unfold entity_add. cbn [operand_data data type_name].
  rewrite firstn_skipn. reflexivity.
Qed.

Lemma list_slice_clip (l : list value) (i j : nat) :
  list_slice l (Z.of_nat i) (Z.of_nat j)
  = list_slice l (Z.of_nat (Nat.min i (List.length l)))
      (Z.of_nat (Nat.min j (List.length l))).
Proof.
  unfold list_slice. rewrite !Nat2Z.id.
  destruct (Nat.le_gt_cases (List.length l) i) as [Hi|Hi].
  - rewrite (Nat.min_r i) by exact Hi.
    rewrite (skipn_all2 l Hi), (skipn_all2 l (Nat.le_refl _)), !firstn_nil.
    reflexivity.
  - rewrite (Nat.min_l i) by lia.
    destruct (Nat.le_gt_cases (List.length l) j) as [Hj|Hj].
    + rewrite (Nat.min_r j) by exact Hj.
      rewrite !firstn_all2; [reflexivity | | ]; rewrite length_skipn; lia.
    + rewrite (Nat.min_l j) by lia. reflexivity.
Qed.

Lemma slice_bound_nat (len c : nat) (default : Z) :
  slice_bound (Z.of_nat len) (Some (Z.of_nat c)) default
  = Z.of_nat (Nat.min c len).
Proof.
  unfold slice_bound. rewrite Nat2Z.inj_min.
  destruct (Z.ltb_spec (Z.of_nat c) 0) as [H|_]; [lia|].
  repeat match goal with
         | |- context [Z.ltb ?x ?y] => destruct (Z.ltb_spec x y)
         end; lia.
Qed.

(** X9.  [__getslice__] and [__getitem__] agree: for bounds that are
    not negative, [e.__getslice__(i, j)] is the list [e[i:j]] that
    [__getitem__] gives for the slice, and a negative bound of
    [__getslice__] stands for 0. *)
Theorem getslice_agrees :
  forall (e : EntityList) (i j : Z),
    getitem e (Slice (Some (Z.max i 0)) (Some (Z.max j 0)))
    = Return (Entities (getslice e i j)).
Proof.
  intros [l tn] i j. unfold getitem, getslice. cbn [data type_name]. cbv zeta.
  set (a := Z.max i 0). set (b := Z.max j 0).
  assert (Ha : (0 <= a)%Z) by (unfold a; lia).
  assert (Hb : (0 <= b)%Z) by (unfold b; lia).
  do 3 f_equal.
  rewrite <- (Z2Nat.id a Ha), <- (Z2Nat.id b Hb).
  rewrite (list_slice_clip l (Z.to_nat a) (Z.to_nat b)).
  f_equal.
  - apply slice_bound_nat.
  - apply slice_bound_nat.
Qed.

Lemma list_repeat_app (l : list value) (n m : nat) :
  list_repeat l (n + m) = list_repeat l n ++ list_repeat l m.
Proof.
  induction n as [|n IH]; [reflexivity|].
  cbn [Nat.add list_repeat]. rewrite IH, app_assoc. reflexivity.
Qed.

Lemma list_repeat_length (l : list value) (n : nat) :
  List.length (list_repeat l n) = (n * List.length l)%nat.
Proof.
  induction n as [|n IH]; [reflexivity|].
  cbn [list_repeat]. rewrite length_app, IH. reflexivity.
Qed.

(** X10.  Adding result lists is associative and keeps the type of the
    left operand; [__radd__] puts the other operand in front and keeps
    the type of the list itself; adding [None] raises [TypeError]. *)
Theorem entity_add_associative :
  forall a b c : EntityList,
    exists ab bc r,
      entity_add a (OUserList b) = Return ab
      /\ entity_add b (OUserList c) = Return bc
      /\ entity_add ab (OUserList c) = Return r
      /\ entity_add a (OUserList bc) = Return r
      /\ type_name r = type_name a
      /\ data r = data a ++ data b ++ data c
      /\ entity_radd b (OUserList a) = Return (mkEntityList (data ab) (type_name b))
      /\ entity_radd b (OValue (VList (data a)))
         = Return (mkEntityList (data ab) (type_name b))
      /\ entity_add a (OValue VNone) = Raise (PyException "TypeError").
Proof.
  intros a b c. unfold entity_add, entity_radd. cbn [operand_data py_list].
  do 3 eexists. split; [reflexivity|]. split; [reflexivity|].
  cbn [data type_name]. rewrite <- app_assoc.
  repeat split.
Qed.

(** X11.  [e * n] repeats the entities [n] times and keeps the type:
    its length is [n] times the length of [e], it is empty for [n] not
    above 0, and [e * (n + m)] holds the entities of [e * n] followed
    by those of [e * m]. *)
Theorem entity_mul_repeats :
  forall (e : EntityList) (n m : Z),
    type_name (entity_mul e n) = type_name e
    /\ List.length (data (entity_mul e n))
       = (Z.to_nat n * List.length (data e))%nat
    /\ ((n <= 0)%Z -> data (entity_mul e n) = [])
    /\ ((0 <= n)%Z -> (0 <= m)%Z ->
        entity_add (entity_mul e n) (OUserList (entity_mul e m))
        = Return (entity_mul e (n + m))).
Proof.
  intros e n m. unfold entity_mul, entity_add. cbn [data type_name operand_data].
  split; [reflexivity|]. split; [apply list_repeat_length|]. split.
  - intros Hn. replace (Z.to_nat n) with 0%nat by lia. reflexivity.
  - intros Hn Hm. rewrite (Z2Nat.inj_add n m Hn Hm), list_repeat_app. reflexivity.
Qed.

Lemma entity_mul_repeats_run :
  let e := mkEntityList [VInt 1; VInt 2] (VStr "Device") in
  data (entity_mul e (-3)) = []
  /\ entity_add (entity_mul e 1) (OUserList (entity_mul e 2))
     = Return (mkEntityList [VInt 1; VInt 2; VInt 1; VInt 2; VInt 1; VInt 2]
                 (VStr "Device")).
Proof.
  intros e. destruct (entity_mul_repeats e (-3) 0) as (_ & _ & Hempty & _).
  destruct (entity_mul_repeats e 1 2) as (_ & _ & _ & Hadd).
  split; [apply Hempty; lia|].
  exact (Hadd ltac:(lia) ltac:(lia)).
Defined.

(** X12.  The property [entity] gives the entity of a list that holds
    exactly one, which is then also its [first] and its [last]; on
    every other list, the empty one included, it raises
    [AssertionError]. *)
Theorem entity_exactly_one :
  forall e : EntityList,
    (forall x, entity e = Return x <-> data e = [x])
    /\ (forall x, entity e = Return x -> first e = x /\ last e = Return x)
    /\ (List.length (data e) <> 1%nat ->
        entity e = Raise (PyException "AssertionError")).
Proof.
  intros [l tn]. unfold entity, first, last. cbn [data].
  destruct l as [|x [|y rest]]; cbn [List.length Nat.eqb].
  - split; [intros x; split; discriminate|].
    split; [discriminate | reflexivity].
  - split; [intros z; split; intros H; injection H as <-; reflexivity|].
    split; [intros z H; injection H as <-; split; reflexivity|].
    intros H. now elim H.
  - split; [intros z; split; discriminate|].
    split; [discriminate | reflexivity].
Qed.

Lemma entity_exactly_one_run :
  entity (mkEntityList [VStr "b1"] (VStr "Device")) = Return (VStr "b1")
  /\ entity (mkEntityList [] (VStr "Device")) = Raise (PyException "AssertionError")
  /\ entity (mkEntityList [VStr "b1"; VStr "b2"] (VStr "Device"))
     = Raise (PyException "AssertionError").
Proof.
  split; [apply (proj1 (entity_exactly_one _)); reflexivity|].
  split; apply (proj2 (proj2 (entity_exactly_one _))); discriminate.
Defined.

(** ** The client: what a request leaves behind *)

Section ClientFacts.

Context {T : Transport}.

(** X13.  An [authenticate] that does not return credentials, because
    it raises or because the result is empty, leaves the client with
    the credentials it had (user name, session id, database and
    password; an absent server has become the default one); timeout
    and reauthorization counter are never touched. *)
Theorem authenticate_failure_keeps_credentials :
  forall (is_global : bool) (st : State) (out : outcome (option Credentials))
         (st' : State),
    authenticate is_global st = (out, st') ->
    timeout (api st') = timeout (api st)
    /\ reauthorize_count (api st') = reauthorize_count (api st)
    /\ ((forall c, out <> Return (Some c)) ->
        credentials (api st') = default_server (credentials (api st))
        /\ username (credentials (api st')) = username (credentials (api st))
        /\ session_id (credentials (api st')) = session_id (credentials (api st))
        /\ database (credentials (api st')) = database (credentials (api st))
        /\ password (credentials (api st')) = password (credentials (api st))).
Proof.
  intros is_global st out st' Ha.
  destruct (authenticate_api _ _ _ _ Ha) as (Ht & Hn & Hc).
  split; [exact Ht|]. split; [exact Hn|]. intros Hout.
  assert (Hcred : credentials (api st') = default_server (credentials (api st))).
  { destruct out as [[c|]|e|]; try exact Hc. now elim (Hout c). }
  rewrite Hcred. split; [reflexivity|].
  split; [apply default_server_username|].
  split; [apply default_server_session|].
  split; [apply default_server_database | apply default_server_password].
Qed.

(** X14.  What a successful [authenticate] has done: one request, the
    method "Authenticate" with database, user name, password and the
    global flag, sent to the server of the client; the credentials it
    stores and returns are read from the result (user name, session id
    and database of its "credentials"), the server is the "path" of the
    result unless that is "ThisServer", and there is no password. *)
Theorem authenticate_success_decodes :
  forall (is_global : bool) (st : State) (c : Credentials) (st' : State),
    authenticate is_global st = (Return (Some c), st') ->
    let current := server (default_server (credentials (api st))) in
    exists url reply result path creds,
      get_api_url current = Return url
      /\ trace st'
         = trace st
           ++ [EvAuthenticate;
               EvQuery url
                 (envelope (VStr "Authenticate")
                    [("database", database (credentials (api st)));
                     ("userName", username (credentials (api st)));
                     ("password", password (credentials (api st)));
                     ("global", VBool is_global)])
                 (verify_of url) reply]
      /\ reply_outcome current reply = Return result
      /\ subscript result "path" = Return path
      /\ subscript result "credentials" = Return creds
      /\ subscript creds "userName" = Return (username c)
      /\ subscript creds "sessionId" = Return (session_id c)
      /\ subscript creds "database" = Return (database c)
      /\ server c = (if eq_str path "ThisServer" then current else path)
      /\ password c = VNone
      /\ credentials (api st') = c.
Proof.
  intros is_global st c st'. rewrite authenticate_run, query_self_run.
  rewrite settled_api. cbn [logged api credentials server trace world timeout].
  set (current := server (default_server (credentials (api st)))).
  destruct (get_api_url current) as [url|e|] eqn:Hu.
  - destruct (post url _ _ _ _) as [reply w].
    destruct (reply_outcome current reply) as [result|e|] eqn:Hr.
    + destruct (truthy result); [|discriminate].
      unfold decode_credentials. cbn [api credentials server].
      destruct (subscript result "path") as [path| |] eqn:Hp; try discriminate.
      destruct (subscript result "credentials") as [creds| |] eqn:Hc; try discriminate.
      destruct (subscript creds "userName") as [u| |] eqn:Hn; try discriminate.
      destruct (subscript creds "sessionId") as [sid| |] eqn:Hs; try discriminate.
      destruct (subscript creds "database") as [db| |] eqn:Hd; try discriminate.
      intros H. injection H as <- <-.
      exists url, reply, result, path, creds.
      unfold auth_data. cbn [with_credentials trace api credentials Credentials_init
        username session_id database server password].
      rewrite <- app_assoc.
      repeat (split; [first [reflexivity | assumption]|]).
      split; [destruct (eq_str path "ThisServer"); reflexivity|].
      split; reflexivity.
    + destruct (invalid_user_exn e); discriminate.
    + discriminate.
  - destruct (invalid_user_exn e); discriminate.
  - discriminate.
Qed.

(** The request of [call], when its reply is no invalid-user error:
    nothing else happens. *)
Lemma dispatch_passes_reply (self_call : value -> dict -> M value)
  (method : value) (parameters : dict) (st2 : State)
  (url : string) (reply : http_reply) (w : World) :
  let c := default_server (credentials (api st2)) in
  let env := envelope method (wire_params parameters (credentials (api st2))) in
  get_api_url (server c) = Return url ->
  post url env (timeout (api st2)) (verify_of url) (world st2) = (reply, w) ->
  invalid_user reply = false ->
  dispatch self_call method parameters st2
  = (reply_outcome (server c) reply,
     mkState
       (mkAPI c (timeout (api st2))
          (count_after (reply_outcome (server c) reply) (reauthorize_count (api st2))))
       w (trace st2 ++ [EvQuery url env (verify_of url) reply])).
Proof.
  intros c env Hu Hpost Hinv. unfold dispatch. rewrite query_self_run, settled_api.
  cbn [api credentials]. fold c. rewrite Hu. fold env. rewrite Hpost.
  rewrite (invalid_user_reply (server c) reply) in Hinv.
  destruct (reply_outcome (server c) reply) as [r|e|]; cbn [count_after].
  - destruct (is_none r); reflexivity.
  - rewrite Hinv. reflexivity.
  - reflexivity.
Qed.

Lemma call_run_passes (method : value) (parameters : dict) (st : State)
  (url : string) (reply : http_reply) (w : World) :
  is_none method = false ->
  truthy (session_id (credentials (api st))) = true ->
  get_api_url (server (default_server (credentials (api st)))) = Return url ->
  post url (envelope method (wire_params parameters (credentials (api st))))
    (timeout (api st)) (verify_of url) (world st) = (reply, w) ->
  invalid_user reply = false ->
  call method parameters st
  = answered st method parameters (wire_params parameters (credentials (api st)))
      url reply w.
Proof.
  intros Hm Hs Hu Hpost Hinv.
  unfold call. cbn [call_fuel]. rewrite call_body_run. cbv zeta.
  rewrite Hm. cbn [logged api]. rewrite Hs.
  rewrite (dispatch_passes_reply _ method parameters
             (mkState (api st) (world st) (trace st ++ [EvCall method parameters]))
             url reply w Hu Hpost Hinv).
  unfold answered. cbn [api trace]. rewrite <- app_assoc. reflexivity.
Qed.

(** X15.  A call on a client with a session whose request is not
    answered with an invalid-user error is one request and nothing
    else: no authentication and no retry; the request carries the
    normalised parameters with the session credentials and goes to the
    endpoint of the server; what the reply comes to (a result, a remote
    error, a timeout, a transport error, a text) is the outcome of the
    call; and only a result that is not [None] sets the
    reauthorization counter to 0. *)
Theorem call_passes_reply :
  forall (method : value) (parameters : dict) (st : State)
         (url : string) (reply : http_reply) (w : World),
    let c := default_server (credentials (api st)) in
    let env := envelope method (wire_params parameters (credentials (api st))) in
    is_none method = false ->
    truthy (session_id (credentials (api st))) = true ->
    get_api_url (server c) = Return url ->
    post url env (timeout (api st)) (verify_of url) (world st) = (reply, w) ->
    invalid_user reply = false ->
    call method parameters st
    = (reply_outcome (server c) reply,
       mkState
         (mkAPI c (timeout (api st))
            (count_after (reply_outcome (server c) reply) (reauthorize_count (api st))))
         w
         (trace st ++ [EvCall method parameters; EvQuery url env (verify_of url) reply])).
Proof.
  intros method parameters st url reply w c env Hm Hs Hu Hpost Hinv.
  exact (call_run_passes method parameters st url reply w Hm Hs Hu Hpost Hinv).
Qed.

(** X16.  A call on a client without a session authenticates first,
    and then follows the result: the request of the call goes to the
    server the authentication named, with the credentials it gave, and
    the password is sent in the "Authenticate" request only. *)
Theorem call_authenticates_first :
  forall (method : value) (parameters : dict) (st : State)
         (url0 : string) (reply1 : http_reply) (w1 : World) (result : value)
         (c' : Credentials)
         (url1 : string) (reply2 : http_reply) (w2 : World),
    let c0 := default_server (credentials (api st)) in
    let c1 := default_server c' in
    is_none method = false ->
    truthy (session_id (credentials (api st))) = false ->
    get_api_url (server c0) = Return url0 ->
    post url0 (envelope (VStr "Authenticate") (auth_data true (credentials (api st))))
      (timeout (api st)) (verify_of url0) (world st) = (reply1, w1) ->
    reply_outcome (server c0) reply1 = Return result ->
    truthy result = true ->
    decode_credentials result (server c0) = Return c' ->
    get_api_url (server c1) = Return url1 ->
    post url1 (envelope method (wire_params parameters c'))
      (timeout (api st)) (verify_of url1) w1 = (reply2, w2) ->
    invalid_user reply2 = false ->
    call method parameters st
    = (reply_outcome (server c1) reply2,
       mkState
         (mkAPI c1 (timeout (api st))
            (count_after (reply_outcome (server c1) reply2) (reauthorize_count (api st))))
         w2
         (trace st
          ++ [EvCall method parameters; EvAuthenticate;
              EvQuery url0
                (envelope (VStr "Authenticate") (auth_data true (credentials (api st))))
                (verify_of url0) reply1;
              EvQuery url1 (envelope method (wire_params parameters c'))
                (verify_of url1) reply2])).
Proof.
  intros method parameters st url0 reply1 w1 result c' url1 reply2 w2 c0 c1
    Hm Hs Hu0 Hpost1 Hr1 Htruthy Hdec Hu1 Hpost2 Hinv.
  unfold call. cbn [call_fuel]. rewrite call_body_run. cbv zeta.
  rewrite Hm. cbn [logged api]. rewrite Hs.
  rewrite authenticate_run, query_self_run, settled_api.
  cbn [logged api credentials trace world timeout]. fold c0.
  rewrite Hu0, Hpost1, Hr1, Htruthy. cbn [api credentials]. rewrite Hdec.
  rewrite (dispatch_passes_reply _ method parameters _ url1 reply2 w2);
    unfold with_credentials; cbn [api credentials timeout world trace reauthorize_count].
  - fold c1. rewrite <- !app_assoc. reflexivity.
  - exact Hu1.
  - exact Hpost2.
  - exact Hinv.
Qed.

(** X17.  When the "Authenticate" request of a call without session is
    answered with an empty result (null, false, 0, an empty text or
    list), [authenticate] returns nothing and the call goes on without
    a session: its request is sent with the normalised parameters and
    no credentials. *)
Theorem call_after_empty_authentication :
  forall (method : value) (parameters : dict) (st : State)
         (url : string) (reply1 : http_reply) (w1 : World) (result : value)
         (reply2 : http_reply) (w2 : World),
    let c0 := default_server (credentials (api st)) in
    is_none method = false ->
    truthy (session_id (credentials (api st))) = false ->
    get_api_url (server c0) = Return url ->
    post url (envelope (VStr "Authenticate") (auth_data true (credentials (api st))))
      (timeout (api st)) (verify_of url) (world st) = (reply1, w1) ->
    reply_outcome (server c0) reply1 = Return result ->
    truthy result = false ->
    post url (envelope method (process_parameters (Some parameters)))
      (timeout (api st)) (verify_of url) w1 = (reply2, w2) ->
    invalid_user reply2 = false ->
    call method parameters st
    = (reply_outcome (server c0) reply2,
       mkState
         (mkAPI c0 (timeout (api st))
            (count_after (reply_outcome (server c0) reply2) (reauthorize_count (api st))))
         w2
         (trace st
          ++ [EvCall method parameters; EvAuthenticate;
              EvQuery url
                (envelope (VStr "Authenticate") (auth_data true (credentials (api st))))
                (verify_of url) reply1;
              EvQuery url (envelope method (process_parameters (Some parameters)))
                (verify_of url) reply2])).
Proof.
  intros method parameters st url reply1 w1 result reply2 w2 c0
    Hm Hs Hu Hpost1 Hr1 Hfalsy Hpost2 Hinv.
  assert (Hc0 : default_server c0 = c0).
  { unfold c0, default_server at 1. rewrite default_server_truthy. reflexivity. }
  assert (Hwire : wire_params parameters c0 = process_parameters (Some parameters)).
  { unfold wire_params, c0. rewrite default_server_session, Hs, andb_false_r.
    reflexivity. }
  unfold call. cbn [call_fuel]. rewrite call_body_run. cbv zeta.
  rewrite Hm. cbn [logged api]. rewrite Hs.
  rewrite authenticate_run, query_self_run, settled_api.
  cbn [logged api credentials trace world timeout]. fold c0.
  rewrite Hu, Hpost1, Hr1, Hfalsy.
  rewrite (dispatch_passes_reply _ method parameters _ url reply2 w2);
    cbn [api credentials timeout world trace reauthorize_count];
    rewrite ?Hc0, ?Hwire.
  - rewrite <- !app_assoc. reflexivity.
  - exact Hu.
  - exact Hpost2.
  - exact Hinv.
Qed.

(** X24.  The re-authentication at work: on a client with a session,
    a password and the counter at 0, a request answered with an
    invalid-user error is followed by one "Authenticate" request; when
    that gives credentials with a session, the call is entered again
    and its request goes out under the new credentials, to the server
    they name; the reply to it, if no invalid-user error, decides the
    outcome of the whole call, and the counter is back at 0 only for a
    result that is not [None]. *)
Theorem call_retry_returns :
  forall (method : value) (parameters : dict) (st : State)
         (url0 : string) (reply1 : http_reply) (w1 : World)
         (reply2 : http_reply) (w2 : World) (result : value) (c' : Credentials)
         (url1 : string) (reply3 : http_reply) (w3 : World),
    let c0 := default_server (credentials (api st)) in
    let c1 := default_server c' in
    is_none method = false ->
    truthy (session_id (credentials (api st))) = true ->
    truthy (password (credentials (api st))) = true ->
    reauthorize_count (api st) = 0%Z ->
    get_api_url (server c0) = Return url0 ->
    post url0 (envelope method (wire_params parameters (credentials (api st))))
      (timeout (api st)) (verify_of url0) (world st) = (reply1, w1) ->
    invalid_user reply1 = true ->
    post url0 (envelope (VStr "Authenticate") (auth_data true c0))
      (timeout (api st)) (verify_of url0) w1 = (reply2, w2) ->
    reply_outcome (server c0) reply2 = Return result ->
    truthy result = true ->
    decode_credentials result (server c0) = Return c' ->
    truthy (session_id c') = true ->
    get_api_url (server c1) = Return url1 ->
    post url1 (envelope method (wire_params parameters c'))
      (timeout (api st)) (verify_of url1) w2 = (reply3, w3) ->
    invalid_user reply3 = false ->
    call method parameters st
    = (reply_outcome (server c1) reply3,
       mkState
         (mkAPI c1 (timeout (api st)) (count_after (reply_outcome (server c1) reply3) 1))
         w3
         (trace st
          ++ [EvCall method parameters;
              EvQuery url0
                (envelope method (wire_params parameters (credentials (api st))))
                (verify_of url0) reply1;
              EvAuthenticate;
              EvQuery url0 (envelope (VStr "Authenticate") (auth_data true c0))
                (verify_of url0) reply2;
              EvCall method parameters;
              EvQuery url1 (envelope method (wire_params parameters c'))
                (verify_of url1) reply3])).
Proof.
  intros method parameters st url0 reply1 w1 reply2 w2 result c' url1 reply3 w3 c0 c1
    Hm Hs Hp Hn Hu0 Hpost1 Hinv1 Hpost2 Hr2 Htruthy Hdec Hs' Hu1 Hpost3 Hinv3.
  assert (Hc0 : default_server c0 = c0).
  { unfold c0, default_server at 1. rewrite default_server_truthy. reflexivity. }
  assert (Hp0 : truthy (password c0) = true)
    by (unfold c0; rewrite default_server_password; exact Hp).
  rewrite (invalid_user_reply (server c0) reply1) in Hinv1.
  unfold call. cbn [call_fuel]. rewrite call_body_run. cbv zeta.
  rewrite Hm. cbn [logged api]. rewrite Hs.
  unfold dispatch at 1. rewrite query_self_run, settled_api.
  cbn [logged api credentials trace world timeout reauthorize_count]. fold c0.
  rewrite Hu0, Hpost1.
  destruct (reply_outcome (server c0) reply1) as [r|e|]; try discriminate Hinv1.
  rewrite Hinv1. cbn [api credentials reauthorize_count]. rewrite Hn, Hp0.
  cbn [Z.eqb andb Z.add with_count api credentials timeout world trace
       reauthorize_count].
  rewrite authenticate_run, query_self_run, settled_api.
  unfold with_count, logged.
  cbn [api credentials trace world timeout reauthorize_count].
  rewrite Hc0, Hu0, Hpost2, Hr2, Htruthy. cbn [api credentials]. rewrite Hdec.
  rewrite call_body_run. cbv zeta. rewrite Hm.
  unfold with_credentials, logged. cbn [api credentials]. rewrite Hs'.
  rewrite (dispatch_passes_reply _ method parameters _ url1 reply3 w3);
    cbn [api credentials timeout world trace reauthorize_count].
  - fold c1. rewrite <- !app_assoc. reflexivity.
  - exact Hu1.
  - exact Hpost3.
  - exact Hinv3.
Qed.

Lemma dispatch_counter (self_call : value -> dict -> M value)
  (method : value) (parameters : dict) (st2 : State)
  (out : outcome value) (st' : State) :
  (forall st4 out4 st5,
     self_call method parameters st4 = (out4, st5) -> counter_kept st4 out4 st5) ->
  dispatch self_call method parameters st2 = (out, st') ->
  counter_kept st2 out st'.
Proof.
  intros Hself. unfold dispatch.
  destruct (query_self _ _ _) as [qo st3] eqn:Hq.
  pose proof (query_self_api _ _ _ _ _ Hq) as Hapi. rewrite settled_api in Hapi.
  assert (Ht3 : timeout (api st3) = timeout (api st2)) by (rewrite Hapi; reflexivity).
  assert (Hn3 : reauthorize_count (api st3) = reauthorize_count (api st2))
    by (rewrite Hapi; reflexivity).
  destruct qo as [result|e|].
  - intros H; injection H as <- <-. unfold counter_kept.
    destruct (is_none result) eqn:Hnone; cbn [negb with_count api timeout
      reauthorize_count].
    + rewrite Ht3, Hn3. split; [reflexivity|]. split; [auto|].
      intros r Hr. injection Hr as <-. congruence.
    + split; [exact Ht3|]. split; [auto|]. reflexivity.
  - destruct (invalid_user_exn e).
    + destruct (Z.eqb_spec (reauthorize_count (api st3)) 0) as [Hz|Hz].
      * destruct (truthy (password (credentials (api st3)))); cbn [andb].
        -- destruct (authenticate true _) as [ao st4] eqn:Ha.
           destruct (authenticate_api _ _ _ _ Ha) as (Ht4 & Hn4 & _).
           cbn [with_count api timeout reauthorize_count] in Ht4, Hn4.
           rewrite Hz in Hn4. cbn in Hn4.
           destruct ao as [r|e'|].
           ++ intros Hrun. destruct (Hself _ _ _ Hrun) as (Ht & Hn & Hr).
              split; [congruence|]. split; [|exact Hr].
              intros _. apply Hn. right. exact Hn4.
           ++ intros H; injection H as <- <-.
              split; [congruence|]. split; [right; exact Hn4 | discriminate].
           ++ intros H; injection H as <- <-.
              split; [congruence|]. split; [right; exact Hn4 | discriminate].
        -- intros H; injection H as <- <-.
           split; [exact Ht3|]. split; [rewrite Hn3; auto | discriminate].
      * cbn [andb]. intros H; injection H as <- <-.
        split; [exact Ht3|]. split; [rewrite Hn3; auto | discriminate].
    + intros H; injection H as <- <-.
      split; [exact Ht3|]. split; [rewrite Hn3; auto | discriminate].
  - intros H; injection H as <- <-.
    split; [exact Ht3|]. split; [rewrite Hn3; auto | discriminate].
Qed.

Lemma call_fuel_counter (fuel : nat) :
  forall (method : value) (parameters : dict) (st : State)
         (out : outcome value) (st' : State),
    call_fuel fuel method parameters st = (out, st') -> counter_kept st out st'.
Proof.
  induction fuel as [|fuel IH]; intros method parameters st out st'.
  - cbn [call_fuel]. unfold diverge. intros H; injection H as <- <-.
    split; [reflexivity|]. split; [auto | discriminate].
  - cbn [call_fuel]. rewrite call_body_run. cbv zeta.
    destruct (is_none method).
    { intros H; injection H as <- <-.
      split; [reflexivity|]. split; [auto | discriminate]. }
    destruct (truthy _).
    + intros Hd.
      exact (dispatch_counter _ _ _ _ _ _ (fun a b c => IH method parameters a b c) Hd).
    + destruct (authenticate true _) as [lo st2] eqn:Ha.
      destruct (authenticate_api _ _ _ _ Ha) as (Ht2 & Hn2 & _).
      cbn [logged api] in Ht2, Hn2.
      destruct lo as [r|e|].
      * intros Hd.
        destruct (dispatch_counter _ _ _ _ _ _
                    (fun a b c => IH method parameters a b c) Hd) as (Ht & Hn & Hr).
        split; [congruence|]. split; [|exact Hr].
        intros H0. apply Hn. rewrite Hn2. exact H0.
      * intros H; injection H as <- <-.
        split; [exact Ht2|]. split; [rewrite Hn2; auto | discriminate].
      * intros H; injection H as <- <-.
        split; [exact Ht2|]. split; [rewrite Hn2; auto | discriminate].
Qed.

(** X18.  Every run of [call] keeps the timeout of the client, keeps a
    reauthorization counter that is 0 or 1 at 0 or 1 (so it is, for a
    client made by the constructor), and leaves the counter at 0
    whenever it returns a result that is not [None]. *)
Theorem call_keeps_counter :
  forall (method : value) (parameters : dict) (st : State)
         (out : outcome value) (st' : State),
    call method parameters st = (out, st') ->
    timeout (api st') = timeout (api st)
    /\ ((reauthorize_count (api st) = 0 \/ reauthorize_count (api st) = 1)%Z ->
        (reauthorize_count (api st') = 0 \/ reauthorize_count (api st') = 1)%Z)
    /\ (forall r, out = Return r -> is_none r = false ->
                  reauthorize_count (api st') = 0%Z).
Proof.
  intros method parameters st out st' H. exact (call_fuel_counter 2 _ _ _ _ _ H).
Qed.

Lemma format_calls_empty (tuples : list (list value)) :
  In [] tuples -> format_calls tuples = Raise (PyException "IndexError").
Proof.
  induction tuples as [|c rest IH]; [contradiction|].
  intros [->|Hin]; [reflexivity|].
  cbn [format_calls]. destruct c as [|method tail]; [reflexivity|].
  rewrite (IH Hin). reflexivity.
Qed.

(** X19.  A batch with a call tuple that is empty is refused before
    anything happens: [multi_call] raises [IndexError], [call] is not
    entered, nothing is sent and the client is as it was. *)
Theorem multi_call_empty_tuple :
  forall (tuples : list (list value)) (st : State),
    In [] tuples ->
    multi_call tuples st = (Raise (PyException "IndexError"), st).
Proof.
  intros tuples st Hin. unfold multi_call, bind, lift.
  rewrite (format_calls_empty tuples Hin). reflexivity.
Qed.

(** X20.  [get] wraps what [call] returns for the method "Get": a list
    result becomes an [EntityList] of its entities with the type name
    asked for, no result ([None]) becomes the empty [EntityList], a
    result that is a number raises [TypeError], and an error of the
    call is the error of [get]; the one request is logged after the
    entry of [call]. *)
Theorem get_wraps_result :
  forall (type_name : value) (parameters kwargs : dict) (st : State)
         (url : string) (reply : http_reply) (w : World),
    let c := default_server (credentials (api st)) in
    let sent := wire_params kwargs (credentials (api st)) in
    get_parameters type_name parameters = Return kwargs ->
    truthy (session_id (credentials (api st))) = true ->
    get_api_url (server c) = Return url ->
    post url (envelope (VStr "Get") sent) (timeout (api st)) (verify_of url) (world st)
    = (reply, w) ->
    invalid_user reply = false ->
    let r := get type_name parameters st in
    trace (snd r)
    = trace st ++ [EvCall (VStr "Get") kwargs;
                   EvQuery url (envelope (VStr "Get") sent) (verify_of url) reply]
    /\ (forall l, reply_outcome (server c) reply = Return (VList l) ->
                  fst r = Return (mkEntityList l type_name))
    /\ (reply_outcome (server c) reply = Return VNone ->
        fst r = Return (mkEntityList [] type_name))
    /\ (forall n, reply_outcome (server c) reply = Return (VInt n) ->
                  fst r = Raise (PyException "TypeError"))
    /\ (forall e, reply_outcome (server c) reply = Raise e -> fst r = Raise e).
Proof.
  intros type_name parameters kwargs st url reply w c sent Hkw Hs Hu Hpost Hinv r.
  assert (Hr : r = let '(o, st1) := answered st (VStr "Get") kwargs sent url reply w in
                   match o with
                   | Return result =>
                       match entity_data result with
                       | Return items => (Return (mkEntityList items type_name), st1)
                       | Raise e => (Raise e, st1)
                       | Diverge => (Diverge, st1)
                       end
                   | Raise e => (Raise e, st1)
                   | Diverge => (Diverge, st1)
                   end).
  { unfold r, get, bind, lift, ret. rewrite Hkw.
    rewrite (call_run_passes (VStr "Get") kwargs st url reply w eq_refl Hs Hu Hpost Hinv).
    fold sent. destruct (answered _ _ _ _ _ _ _) as [o st1].
    destruct o as [result|e|]; reflexivity. }
  unfold answered in Hr. fold c in Hr. cbv zeta in Hr. rewrite Hr. clear Hr r.
  destruct (reply_outcome (server c) reply) as [result|e|].
  - split; [destruct (entity_data result); reflexivity|].
    split; [intros l H; injection H as ->; reflexivity|].
    split; [intros H; injection H as ->; reflexivity|].
    split; [intros n H; injection H as ->; reflexivity | discriminate].
  - split; [reflexivity|]. split; [discriminate|]. split; [discriminate|].
    split; [discriminate|]. intros e' H; injection H as ->. reflexivity.
  - split; [reflexivity|]. split; [discriminate|]. split; [discriminate|].
    split; discriminate.
Qed.

Lemma wire_params_entity (type_name entity : value) (c : Credentials) :
  truthy (session_id c) = true ->
  wire_params [("type_name", type_name); ("entity", entity)] c
  = [("entity", process_value entity); ("typeName", process_value type_name);
     ("credentials", get_param c)].
Proof.
  intros Hs.
  assert (Hpp : forall p : dict,
             p = [("type_name", type_name); ("entity", entity)] ->
             process_parameters (Some p)
             = [("entity", process_value entity);
                ("typeName", process_value type_name)])
    by (intros p ->; destruct type_name, entity; reflexivity).
  unfold wire_params. rewrite (Hpp _ eq_refl).
  change (dict_mem "credentials"
            [("entity", process_value entity); ("typeName", process_value type_name)])
    with false.
  rewrite Hs. reflexivity.
Qed.

(** X21.  [add], [set] and [remove] are one call each, of the methods
    "Add", "Set" and "Remove": on a client with a session, the request
    carries the entity (a mapping with its keys normalised), the type
    name under "typeName" and the session credentials, and the reply
    decides the outcome as for any call. *)
Theorem entity_methods_send :
  forall (type_name entity : value) (st : State)
         (url : string) (reply : http_reply) (w : World) (name : string),
    let kwargs := [("type_name", type_name); ("entity", entity)] in
    let sent := [("entity", process_value entity);
                 ("typeName", process_value type_name);
                 ("credentials", get_param (credentials (api st)))] in
    truthy (session_id (credentials (api st))) = true ->
    get_api_url (server (default_server (credentials (api st)))) = Return url ->
    post url (envelope (VStr name) sent) (timeout (api st)) (verify_of url) (world st)
    = (reply, w) ->
    invalid_user reply = false ->
    (name = "Add" ->
     add type_name entity st = answered st (VStr "Add") kwargs sent url reply w)
    /\ (name = "Set" ->
        set type_name entity st = answered st (VStr "Set") kwargs sent url reply w)
    /\ (name = "Remove" ->
        remove type_name entity st
        = answered st (VStr "Remove") kwargs sent url reply w).
Proof.
  intros type_name entity st url reply w name kwargs sent Hs Hu Hpost Hinv.
  pose proof (wire_params_entity type_name entity (credentials (api st)) Hs) as Hwire.
  fold kwargs sent in Hwire.
  repeat split; intros ->; unfold add, set, remove; fold kwargs;
    rewrite <- Hwire; apply call_run_passes;
    first [reflexivity | assumption | rewrite Hwire; assumption].
Qed.

(** X22.  [server_call] refuses a missing method name or server with
    an exception before anything is sent; otherwise it is one request
    to the endpoint of the server, with the normalised parameters and
    nothing added to them, the timeout and the verification flag the
    caller gave, and the reply decides the outcome: there is no
    authentication and no retry, and an invalid-user error comes out as
    the remote error it is. *)
Theorem server_call_one_request :
  forall (method server timeout : value) (verify_ssl : bool) (parameters : dict)
         (st : State),
    (is_none method || is_none server = true ->
     server_call method server timeout verify_ssl parameters st
     = (Raise (PyException "Exception"), st))
    /\ (is_none method || is_none server = false ->
        forall url reply w,
          get_api_url server = Return url ->
          post url (envelope method (process_parameters (Some parameters)))
            timeout verify_ssl (world st) = (reply, w) ->
          server_call method server timeout verify_ssl parameters st
          = (reply_outcome server reply,
             mkState (api st) w
               (trace st
                ++ [EvQuery url (envelope method (process_parameters (Some parameters)))
                      verify_ssl reply]))).
Proof.
  intros method server timeout verify_ssl parameters st. unfold server_call. split.
  - intros H. destruct (is_none method); [reflexivity|].
    cbn [orb] in H. rewrite H. reflexivity.
  - intros H url reply w Hu Hpost. apply orb_false_iff in H. destruct H as [-> ->].
    unfold _query, bind, lift, do_post, raise, ret. rewrite Hu.
    fold (envelope method (process_parameters (Some parameters))).
    rewrite Hpost. destruct reply; reflexivity.
Qed.

End ClientFacts.

(** ** The keyword arguments of [get] *)

Lemma dict_get_absent {V : Type} (k : string) (d : list (string * V)) :
  ~ In k (keys d) -> dict_get k d = None.
Proof.
  intros H. destruct (dict_get k d) eqn:E; [|reflexivity].
  exfalso. apply H. apply dict_get_keys. congruence.
Qed.

(** [d.update(other)]: the entries of [other] win. *)
Lemma dict_get_update {V : Type} (k : string) (d other : list (string * V)) :
  NoDup (keys other) ->
  dict_get k (dict_update d other)
  = match dict_get k other with
    | Some v => Some v
    | None => dict_get k d
    end.
Proof.
  unfold dict_update. revert d.
  induction other as [|[k1 v1] rest IH]; intros d Hnd; [reflexivity|].
  cbn [keys List.map fst] in Hnd. apply NoDup_cons_iff in Hnd. destruct Hnd as [Hk1 Hnd].
  cbn [List.fold_left fst snd dict_get]. rewrite (IH _ Hnd), dict_get_set.
  destruct (String.eqb_spec k k1) as [->|Hne]; [|reflexivity].
  rewrite (dict_get_absent k1 rest Hk1). reflexivity.
Qed.

(** X23.  The search criteria [get] hands to [call], when it is given
    keyword criteria: they are the keyword criteria without a
    "resultsLimit" that is not [None], which becomes the limit of the
    request, merged with the entries of the nested "search" mapping if
    there is one; where a nested entry and a keyword have the same
    name, the nested entry wins. *)
Theorem get_parameters_merges :
  forall (type_name : value) (parameters nested : dict),
    parameters <> [] ->
    dict_get "search" parameters = Some (VDict nested)
    \/ (dict_get "search" parameters = None /\ nested = []) ->
    NoDup (keys nested) ->
    let limit :=
      match dict_get "resultsLimit" parameters with Some v => v | None => VNone end in
    exists criteria,
      get_parameters type_name parameters
      = Return [("type_name", type_name); ("search", VDict criteria);
                ("resultsLimit", limit)]
      /\ forall k,
           dict_get k criteria
           = match dict_get k nested with
             | Some v => Some v
             | None =>
                 if String.eqb k "resultsLimit" && negb (is_none limit) then None
                 else dict_get k parameters
             end.
Proof.
  intros type_name parameters nested Hne Hsearch Hnd limit.
  destruct parameters as [|kv rest]; [congruence|].
  set (parameters := kv :: rest) in *.
  unfold get_parameters. fold parameters. fold limit. cbv zeta.
  set (kept := if negb (is_none limit) then dict_del "resultsLimit" parameters
               else parameters).
  assert (Hkept : forall k,
             dict_get k kept
             = if String.eqb k "resultsLimit" && negb (is_none limit) then None
               else dict_get k parameters).
  { intros k. unfold kept. destruct (negb (is_none limit)).
    - rewrite dict_get_del, andb_true_r. reflexivity.
    - rewrite andb_false_r. reflexivity. }
  rewrite (Hkept "search"). change (String.eqb "search" "resultsLimit") with false.
  cbn [andb].
  destruct Hsearch as [Hs | [Hs ->]]; rewrite Hs.
  - cbn [update_with]. eexists. split; [reflexivity|].
    intros k. rewrite (dict_get_update k kept nested Hnd), Hkept. reflexivity.
  - exists kept. split; [reflexivity|]. intros k. rewrite Hkept. reflexivity.
Qed.

Lemma get_parameters_merges_run :
  let nested := [("name", VStr "nested"); ("id", VStr "b1")] in
  let parameters :=
    [("name", VStr "keyword"); ("search", VDict nested); ("resultsLimit", VInt 5)] in
  parameters <> []
  /\ NoDup (keys nested)
  /\ exists criteria,
       get_parameters (VStr "Device") parameters
       = Return [("type_name", VStr "Device"); ("search", VDict criteria);
                 ("resultsLimit", VInt 5)]
       /\ dict_get "name" criteria = Some (VStr "nested")
       /\ dict_get "id" criteria = Some (VStr "b1")
       /\ dict_get "resultsLimit" criteria = None.
Proof.
  intros nested parameters.
  assert (Hne : parameters <> []) by discriminate.
  assert (Hnd : NoDup (keys nested))
    by (repeat constructor; simpl; intuition discriminate).
  split; [exact Hne|]. split; [exact Hnd|].
  destruct (get_parameters_merges (VStr "Device") parameters nested Hne
              (or_introl eq_refl) Hnd) as [criteria [Hrun Hget]].
  exists criteria. split; [exact Hrun|].
  split; [exact (Hget "name")|]. split; [exact (Hget "id") | exact (Hget "resultsLimit")].
Defined.

(** ** Runs of the client *)

Lemma authenticate_failure_keeps_credentials_run :
  let st := client (VStr "s1") (VStr "pw") 1 [HttpTimeout] in
  let r := authenticate true st in
  authenticate true st = (fst r, snd r)
  /\ fst r = Raise (TimeoutException (VStr "my.geotab.com"))
  /\ credentials (api (snd r)) = credentials (api st)
  /\ timeout (api (snd r)) = DEFAULT_TIMEOUT
  /\ reauthorize_count (api (snd r)) = 1%Z.
Proof.
  intros st r.
  assert (Hrun : authenticate true st = (fst r, snd r))
    by (unfold r; destruct (authenticate true st); reflexivity).
  destruct (@authenticate_failure_keeps_credentials scripted true st (fst r) (snd r) Hrun)
    as (Ht & Hn & Hc).
  assert (Hout : forall c, fst r <> Return (Some c)) by (intros c; discriminate).
  split; [exact Hrun|]. split; [reflexivity|].
  split; [exact (proj1 (Hc Hout))|]. split; [exact Ht | exact Hn].
Defined.

Lemma authenticate_success_decodes_run :
  let st := client VNone (VStr "pw") 0 [authenticated_at "my7.geotab.com" "s1"] in
  let c := mkCredentials (VStr "user@example.com") (VStr "s1") (VStr "db")
             (VStr "my7.geotab.com") VNone in
  let st' := snd (authenticate false st) in
  authenticate false st = (Return (Some c), st')
  /\ credentials (api st') = c
  /\ exists url reply,
       trace st'
       = [EvAuthenticate;
          EvQuery url
            (envelope (VStr "Authenticate")
               [("database", VStr "db"); ("userName", VStr "user@example.com");
                ("password", VStr "pw"); ("global", VBool false)])
            (verify_of url) reply].
Proof.
  intros st c st'.
  assert (Hrun : authenticate false st = (Return (Some c), st')) by reflexivity.
  destruct (@authenticate_success_decodes scripted false st c st' Hrun)
    as (url & reply & result & path & creds & _ & Htr & _ & _ & _ & _ & _ & _ & _ & _
        & Hc).
  split; [exact Hrun|]. split; [exact Hc|].
  exists url, reply. exact Htr.
Defined.

Lemma call_passes_reply_run :
  let st := client (VStr "s1") (VStr "pw") 0 [HttpTimeout] in
  let method := VStr "Get" in
  let parameters := [("type_name", VStr "Device")] in
  invalid_user HttpTimeout = false
  /\ call method parameters st
     = (Raise (TimeoutException (VStr "my.geotab.com")),
        @mkState scripted (api st) []
          [EvCall method parameters;
           EvQuery "https://my.geotab.com/apiv1"
             (envelope method
                [("typeName", VStr "Device");
                 ("credentials",
                  VDict [("userName", VStr "user@example.com");
                         ("sessionId", VStr "s1"); ("database", VStr "db")])])
             true HttpTimeout]).
Proof.
  intros st method parameters. split; [reflexivity|].
  exact (@call_passes_reply scripted method parameters st
           "https://my.geotab.com/apiv1" HttpTimeout []
           eq_refl eq_refl eq_refl eq_refl eq_refl).
Defined.

Lemma call_authenticates_first_run :
  let reply1 := authenticated_at "my7.geotab.com" "s1" in
  let reply2 := result_reply_doc (VList [VInt 1]) in
  let st := client VNone (VStr "pw") 0 [reply1; reply2] in
  let method := VStr "Get" in
  let parameters := [("type_name", VStr "Device")] in
  let c' := mkCredentials (VStr "user@example.com") (VStr "s1") (VStr "db")
              (VStr "my7.geotab.com") VNone in
  call method parameters st
  = (Return (VList [VInt 1]),
     @mkState scripted (mkAPI c' DEFAULT_TIMEOUT 0) []
       [EvCall method parameters; EvAuthenticate;
        EvQuery "https://my.geotab.com/apiv1"
          (envelope (VStr "Authenticate")
             [("database", VStr "db"); ("userName", VStr "user@example.com");
              ("password", VStr "pw"); ("global", VBool true)])
          true reply1;
        EvQuery "https://my7.geotab.com/apiv1"
          (envelope method
             [("typeName", VStr "Device");
              ("credentials",
               VDict [("userName", VStr "user@example.com");
                      ("sessionId", VStr "s1"); ("database", VStr "db")])])
          true reply2]).
Proof.
  intros reply1 reply2 st method parameters c'.
  exact (@call_authenticates_first scripted method parameters st
           "https://my.geotab.com/apiv1" reply1 [reply2]
           (VDict [("path", VStr "my7.geotab.com");
                   ("credentials",
                    VDict [("userName", VStr "user@example.com");
                           ("sessionId", VStr "s1"); ("database", VStr "db")])])
           c' "https://my7.geotab.com/apiv1" reply2 []
           eq_refl eq_refl eq_refl eq_refl eq_refl eq_refl eq_refl eq_refl eq_refl
           eq_refl).
Defined.

Lemma call_after_empty_authentication_run :
  let reply1 := result_reply_doc VNone in
  let reply2 := result_reply_doc (VList [VInt 1]) in
  let st := client VNone (VStr "pw") 0 [reply1; reply2] in
  let method := VStr "Get" in
  let parameters := [("type_name", VStr "Device")] in
  call method parameters st
  = (Return (VList [VInt 1]),
     @mkState scripted (api st) []
       [EvCall method parameters; EvAuthenticate;
        EvQuery "https://my.geotab.com/apiv1"
          (envelope (VStr "Authenticate")
             [("database", VStr "db"); ("userName", VStr "user@example.com");
              ("password", VStr "pw"); ("global", VBool true)])
          true reply1;
        EvQuery "https://my.geotab.com/apiv1"
          (envelope method [("typeName", VStr "Device")]) true reply2]).
Proof.
  intros reply1 reply2 st method parameters.
  exact (@call_after_empty_authentication scripted method parameters st
           "https://my.geotab.com/apiv1" reply1 [reply2] VNone reply2 []
           eq_refl eq_refl eq_refl eq_refl eq_refl eq_refl eq_refl eq_refl).
Defined.

Lemma call_keeps_counter_run :
  let st := client (VStr "s1") (VStr "pw") 0
              [invalid_user_reply_doc; authenticated_reply_doc "s2";
               result_reply_doc (VList [])] in
  let method := VStr "Get" in
  let parameters := [("type_name", VStr "Device")] in
  let r := call method parameters st in
  call method parameters st = (fst r, snd r)
  /\ fst r = Return (VList [])
  /\ authentications (new_events st (snd r)) = 1%nat
  /\ timeout (api (snd r)) = DEFAULT_TIMEOUT
  /\ reauthorize_count (api (snd r)) = 0%Z.
Proof.
  intros st method parameters r.
  assert (Hrun : call method parameters st = (fst r, snd r))
    by (unfold r; destruct (call method parameters st); reflexivity).
  destruct (@call_keeps_counter scripted method parameters st (fst r) (snd r) Hrun)
    as (Ht & _ & Hn).
  split; [exact Hrun|]. split; [reflexivity|]. split; [reflexivity|].
  split; [exact Ht|]. exact (Hn (VList []) eq_refl eq_refl).
Defined.

Lemma multi_call_empty_tuple_run :
  let st := client (VStr "s1") (VStr "pw") 0 [result_reply_doc (VList [])] in
  let tuples := [[VStr "GetVersion"]; []] in
  In [] tuples
  /\ multi_call tuples st = (Raise (PyException "IndexError"), st).
Proof.
  intros st tuples.
  assert (Hin : In [] tuples) by (right; left; reflexivity).
  split; [exact Hin|]. exact (@multi_call_empty_tuple scripted tuples st Hin).
Defined.

Lemma get_wraps_result_run :
  let device := VDict [("id", VStr "b1")] in
  let reply := result_reply_doc (VList [device]) in
  let st := client (VStr "s1") VNone 0 [reply] in
  let r := get (VStr "Device") [] st in
  get_parameters (VStr "Device") [] = Return [("type_name", VStr "Device")]
  /\ fst r = Return (mkEntityList [device] (VStr "Device"))
  /\ trace (snd r)
     = [EvCall (VStr "Get") [("type_name", VStr "Device")];
        EvQuery "https://my.geotab.com/apiv1"
          (envelope (VStr "Get")
             [("typeName", VStr "Device");
              ("credentials",
               VDict [("userName", VStr "user@example.com");
                      ("sessionId", VStr "s1"); ("database", VStr "db")])])
          true reply].
Proof.
  intros device reply st r.
  destruct (@get_wraps_result scripted (VStr "Device") [] [("type_name", VStr "Device")]
              st "https://my.geotab.com/apiv1" reply []
              eq_refl eq_refl eq_refl eq_refl eq_refl) as (Htr & Hlist & _).
  split; [reflexivity|]. split; [exact (Hlist [device] eq_refl) | exact Htr].
Defined.

Lemma entity_methods_send_run :
  let entity := VDict [("serial_number", VStr "G9")] in
  let reply := result_reply_doc (VStr "b7") in
  let st := client (VStr "s1") VNone 0 [reply] in
  add (VStr "Device") entity st
  = (Return (VStr "b7"),
     @mkState scripted (api st) []
       [EvCall (VStr "Add") [("type_name", VStr "Device"); ("entity", entity)];
        EvQuery "https://my.geotab.com/apiv1"
          (envelope (VStr "Add")
             [("entity", VDict [("serialNumber", VStr "G9")]);
              ("typeName", VStr "Device");
              ("credentials",
               VDict [("userName", VStr "user@example.com");
                      ("sessionId", VStr "s1"); ("database", VStr "db")])])
          true reply]).
Proof.
  intros entity reply st.
  exact (proj1 (@entity_methods_send scripted (VStr "Device") entity st
                  "https://my.geotab.com/apiv1" reply [] "Add"
                  eq_refl eq_refl eq_refl eq_refl) eq_refl).
Defined.

Lemma server_call_one_request_run :
  let st := client VNone VNone 0 [invalid_user_reply_doc] in
  let sent := envelope (VStr "GetVersion") [("fooBar", VInt 1)] in
  @server_call scripted VNone (VStr "my3.geotab.com") (VInt 10) true [] st
  = (Raise (PyException "Exception"), st)
  /\ @server_call scripted (VStr "GetVersion") (VStr "my3.geotab.com") (VInt 10) true
       [("foo_bar", VInt 1)] st
     = (Raise (MyGeotabException
                 (VDict [("name", VStr "InvalidUserException");
                         ("message", VStr "Invalid user")])),
        @mkState scripted (api st) []
          [EvQuery "https://my3.geotab.com/apiv1" sent true invalid_user_reply_doc]).
Proof.
  intros st sent. split.
  - exact (proj1 (@server_call_one_request scripted VNone (VStr "my3.geotab.com")
                    (VInt 10) true [] st) eq_refl).
  - exact (proj2 (@server_call_one_request scripted (VStr "GetVersion")
                    (VStr "my3.geotab.com") (VInt 10) true [("foo_bar", VInt 1)] st)
             eq_refl "https://my3.geotab.com/apiv1" invalid_user_reply_doc []
             eq_refl eq_refl).
Defined.

Lemma call_retry_returns_run :
  let reply2 := authenticated_at "my7.geotab.com" "s2" in
  let reply3 := result_reply_doc (VList [VInt 1]) in
  let st := client (VStr "s1") (VStr "pw") 0 [invalid_user_reply_doc; reply2; reply3] in
  let method := VStr "Get" in
  let parameters := [("type_name", VStr "Device")] in
  let c' := mkCredentials (VStr "user@example.com") (VStr "s2") (VStr "db")
              (VStr "my7.geotab.com") VNone in
  invalid_user invalid_user_reply_doc = true
  /\ call method parameters st
     = (Return (VList [VInt 1]),
        @mkState scripted (mkAPI c' DEFAULT_TIMEOUT 0) []
          [EvCall method parameters;
           EvQuery "https://my.geotab.com/apiv1"
             (envelope method
                [("typeName", VStr "Device");
                 ("credentials",
                  VDict [("userName", VStr "user@example.com");
                         ("sessionId", VStr "s1"); ("database", VStr "db")])])
             true invalid_user_reply_doc;
           EvAuthenticate;
           EvQuery "https://my.geotab.com/apiv1"
             (envelope (VStr "Authenticate")
                [("database", VStr "db"); ("userName", VStr "user@example.com");
                 ("password", VStr "pw"); ("global", VBool true)])
             true reply2;
           EvCall method parameters;
           EvQuery "https://my7.geotab.com/apiv1"
             (envelope method
                [("typeName", VStr "Device");
                 ("credentials",
                  VDict [("userName", VStr "user@example.com");
                         ("sessionId", VStr "s2"); ("database", VStr "db")])])
             true reply3]).
Proof.
  intros reply2 reply3 st method parameters c'. split; [reflexivity|].
  exact (@call_retry_returns scripted method parameters st
           "https://my.geotab.com/apiv1" invalid_user_reply_doc [reply2; reply3]
           reply2 [reply3]
           (VDict [("path", VStr "my7.geotab.com");
                   ("credentials",
                    VDict [("userName", VStr "user@example.com");
                           ("sessionId", VStr "s2"); ("database", VStr "db")])])
           c' "https://my7.geotab.com/apiv1" reply3 []
           eq_refl eq_refl eq_refl eq_refl eq_refl eq_refl eq_refl eq_refl eq_refl
           eq_refl eq_refl eq_refl eq_refl eq_refl eq_refl).
Defined.
